(** * pebble-migrate: the registry, the schema catalog, the planner, the engine
    and the startup path, embedded from the Go sources.

    Conventions of the embedding.
    - Go [int64] and [int] values are [Z]; every integer the modelled code
      computes stays far inside the 64-bit range (versions are bounded by
      [ParseMigrationVersion], in-degrees by the number of dependencies).
    - Go strings are [string] (a sequence of bytes), [len] is [String.length].
    - Go maps are [gmap]s.  Where the code ranges over a map, the order of the
      iteration is taken from a [MapIteration] value: Go leaves that order
      unspecified, and two runs may see two different orders.
    - The pebble store is a finite map from keys to values.  The JSON codec of
      the schema record is abstracted: the value under the reserved key is kept
      decoded ([VSchema]), any other byte string there is [VRaw] and fails to
      unmarshal.  A nil map or slice and an empty one are identified, as the
      code itself treats them alike.
    - A Go function returning [error] on a store is a state-passing function
      [DB -> DB * result A]; error values are their messages. *)

From Stdlib Require Import ZArith String Ascii List Lia Permutation Sorted.
From Stdlib Require Import DecimalString DecimalPos Relations.
From stdpp Require Import gmap strings list fin_maps sorting.

Open Scope Z_scope.

(** ** Results and errors *)

Inductive result (A : Type) : Type :=
| Ok (a : A)
| Err (msg : string).
Arguments Ok {A} a.
Arguments Err {A} msg.

Definition is_ok {A} (r : result A) : bool :=
  match r with Ok _ => true | Err _ => false end.

(** [fmt.Sprintf("%d", z)]. *)
Definition fmt_d (z : Z) : string := NilZero.string_of_int (Z.to_int z).

(** [fmt.Sprintf("%v", ids)] for a slice of strings: [[a b c]]. *)
Fixpoint join_space (l : list string) : string :=
  match l with
  | [] => ""
  | [x] => x
  | x :: rest => x +:+ " " +:+ join_space rest
  end.
Definition fmt_v (l : list string) : string := "[" +:+ join_space l +:+ "]".

(** The text [msg] has [sub] as a substring. *)
Definition contains (msg sub : string) : Prop :=
  exists pre post, msg = pre +:+ sub +:+ post.

(** ** The pieces of Go's [strings] and [strconv] the code calls *)

Module strings.

(** The part of [s] before the first [sep] and the part after it. *)
Fixpoint cut (sep : ascii) (s : string) : option (string * string) :=
  match s with
  | EmptyString => None
  | String c rest =>
      if Ascii.eqb c sep then Some (EmptyString, rest)
      else match cut sep rest with
           | Some (before, after) => Some (String c before, after)
           | None => None
           end
  end.

(** [strings.SplitN(s, sep, 2)] for a one-byte separator: at most two
    fields, the split is at the first separator. *)
Definition SplitN2 (s : string) (sep : ascii) : list string :=
  match cut sep s with
  | Some (before, after) => [before; after]
  | None => [s]
  end.

End strings.

Module strconv.

Definition quote_char : ascii := Ascii.ascii_of_nat 34.

(** [strconv.Quote] on text that needs no escape sequence. *)
Definition Quote (s : string) : string :=
  String quote_char (s +:+ String quote_char EmptyString).

Definition is_digit (c : ascii) : bool :=
  ((48 <=? nat_of_ascii c) && (nat_of_ascii c <=? 57))%nat.

Definition digit_val (c : ascii) : Z := Z.of_nat (nat_of_ascii c) - 48.

Inductive num_error := ErrSyntax | ErrRange.

Definition maxUint64 : Z := 2 ^ 64 - 1.

(** The digit loop of [ParseUint(s, 10, 64)]: the first byte that is not
    a decimal digit is a syntax error, the first overflow a range error. *)
Fixpoint parse_digits (s : string) (n : Z) : num_error + Z :=
  match s with
  | EmptyString => inr n
  | String c rest =>
      if is_digit c then
        if n >=? maxUint64 / 10 + 1 then inl ErrRange
        else
          let n1 := n * 10 + digit_val c in
          if n1 >? maxUint64 then inl ErrRange else parse_digits rest n1
      else inl ErrSyntax
  end.

Definition ParseUint (s : string) : num_error + Z :=
  match s with
  | EmptyString => inl ErrSyntax
  | _ => parse_digits s 0
  end.

Definition num_error_text (e : num_error) : string :=
  match e with
  | ErrSyntax => "invalid syntax"
  | ErrRange => "value out of range"
  end.

Definition NumError (s0 : string) (e : num_error) : string :=
  "strconv.ParseInt: parsing " +:+ Quote s0 +:+ ": " +:+ num_error_text e.

(** [strconv.ParseInt(s, 10, 64)]: an optional sign, then decimal digits. *)
Definition ParseInt (s0 : string) : result Z :=
  match s0 with
  | EmptyString => Err (NumError s0 ErrSyntax)
  | String c rest =>
      let neg := Ascii.eqb c "-" in
      let s := if Ascii.eqb c "+" || neg then rest else s0 in
      match ParseUint s with
      | inl ErrSyntax => Err (NumError s0 ErrSyntax)
      | inl ErrRange => Err (NumError s0 ErrRange)
      | inr un =>
          let cutoff := 2 ^ 63 in
          if negb neg && (un >=? cutoff) then Err (NumError s0 ErrRange)
          else if neg && (un >? cutoff) then Err (NumError s0 ErrRange)
          else Ok (if neg then - un else un)
      end
  end.

End strconv.

(** ** Data model (part_004: SchemaVersion, MigrationRecord, Status, Migration) *)

Definition Status := string.
Definition StatusClean : Status := "clean".
Definition StatusMigrating : Status := "migrating".
Definition StatusDirty : Status := "dirty".
Definition StatusRollback : Status := "rollback".

(** Wall-clock instants; [0] is the zero [time.Time]. *)
Definition Time := Z.

Record MigrationRecord := {
  rec_ID : string;
  rec_Description : string;
  rec_AppliedAt : Time;
  rec_Duration : string;
  rec_Success : bool;
  rec_Error : string
}.

Record SchemaVersion := {
  CurrentVersion : Z;
  AppliedMigrations : gmap string bool;
  MigrationHistory : list MigrationRecord;
  LastMigrationAt : Time;
  SchemaStatus : Status
}.

(** A value of the store: the decoded schema record, or opaque bytes. *)
Inductive value :=
| VSchema (s : SchemaVersion)
| VRaw (bytes : string).

Abbreviation DB := (gmap string value).

(** A computation on the store that may fail. *)
Abbreviation M A := (DB -> DB * result A)%type.

Definition ret {A} (a : A) : M A := fun db => (db, Ok a).
Definition fail {A} (msg : string) : M A := fun db => (db, Err msg).
Definition bind {A B} (c : M A) (k : A -> M B) : M B :=
  fun db =>
    match c db with
    | (db', Ok a) => k a db'
    | (db', Err e) => (db', Err e)
    end.
(** [c] with its error, if any, rewritten by [wrap]: [if err != nil { return
    fmt.Errorf("...: %w", err) }]. *)
Definition wrapping {A} (wrap : string -> string) (c : M A) : M A :=
  fun db =>
    match c db with
    | (db', Ok a) => (db', Ok a)
    | (db', Err e) => (db', Err (wrap e))
    end.

Notation "x <- c ;; k" := (bind c (fun x => k))
  (at level 100, c at next level, right associativity).
Notation "c ;;; k" := (bind c (fun _ => k))
  (at level 100, right associativity).

(** [type MigrationFunc func(db *pebble.DB) error]. *)
Abbreviation MigrationFunc := (M unit).

Record Migration := {
  ID : string;
  Version : Z;
  Dependencies : list string;
  Description : string;
  Up : option MigrationFunc;
  Down : option MigrationFunc;
  Validate : option MigrationFunc;
  Rerunnable : bool
}.

Definition set_Version (m : Migration) (v : Z) : Migration :=
  {| ID := ID m; Version := v; Dependencies := Dependencies m;
     Description := Description m; Up := Up m; Down := Down m;
     Validate := Validate m; Rerunnable := Rerunnable m |}.

Record MigrationRegistry := {
  migrations : gmap string Migration;
  ordered : list Migration
}.

Definition SchemaVersionKey : string := "__schema_version__".
Definition MigrationPrefix : string := "__migration_".

(** Go's [m[k]] on a [map[string]bool]: [false] for a missing key. *)
Definition lookup_bool (m : gmap string bool) (k : string) : bool :=
  default false (m !! k).
(** Go's [m[k]] on a [map[string]int]: [0] for a missing key. *)
Definition lookup_int (m : gmap string Z) (k : string) : Z :=
  default 0 (m !! k).
(** Go's [m[k]] on a [map[string][]string]: nil for a missing key. *)
Definition lookup_list (m : gmap string (list string)) (k : string) : list string :=
  default [] (m !! k).

(** The order in which one run of the program ranges over the keys of a map:
    some permutation of the keys. *)
Record MapIteration := {
  range_keys : list string -> list string;
  range_keys_perm : forall ks, Permutation (range_keys ks) ks
}.

Definition keys_of {V} (m : gmap string V) : list string := (map_to_list m).*1.

(** [for k := range m]: the keys of [m] in this run's order. *)
Definition range_of {V} (it : MapIteration) (m : gmap string V) : list string :=
  range_keys it (keys_of m).

(** ** Registry (part_004) *)

Definition NewMigrationRegistry : MigrationRegistry :=
  {| migrations := ∅; ordered := [] |}.

Definition ParseMigrationVersion (migrationID : string) : result Z :=
  match strings.SplitN2 migrationID "_" with
  | [p0; _] =>
      match strconv.ParseInt p0 with
      | Err e => Err ("invalid timestamp in migration ID: " +:+ e)
      | Ok version =>
          if (version <? 946684800) || (version >? 4102444800)
          then Err ("timestamp " +:+ fmt_d version +:+ " is outside valid range (2000-2100)")
          else Ok version
      end
  | _ => Err "migration ID must follow format <timestamp>_<description>"
  end.

(** The loop that keeps [ordered] sorted after an append:
    [for i := len-1; i > 0; i-- { if ordered[i].Version < ordered[i-1].Version
    { swap } else { break } }]. *)
Fixpoint sink (i : nat) (l : list Migration) : list Migration :=
  match i with
  | O => l
  | S j =>
      match l !! i, l !! j with
      | Some a, Some b =>
          if Version a <? Version b then sink j (<[j := a]> (<[i := b]> l)) else l
      | _, _ => l
      end
  end.

Definition Register (r : MigrationRegistry) (m : Migration) : result MigrationRegistry :=
  match migrations r !! ID m with
  | Some _ => Err ("migration with ID '" +:+ ID m +:+ "' already registered")
  | None =>
      if String.eqb (ID m) "" then Err "migration ID cannot be empty"
      else match Up m, Down m with
      | None, _ => Err ("migration '" +:+ ID m +:+ "' must have an Up function")
      | Some _, None => Err ("migration '" +:+ ID m +:+ "' must have a Down function")
      | Some _, Some _ =>
          match ParseMigrationVersion (ID m) with
          | Err e => Err ("invalid migration ID format '" +:+ ID m +:+ "': " +:+ e)
          | Ok version =>
              let m' := set_Version m version in
              let appended := ordered r ++ [m'] in
              Ok {| migrations := <[ID m := m']> (migrations r);
                    ordered := sink (length appended - 1) appended |}
          end
      end
  end.

Definition GetMigration (r : MigrationRegistry) (id : string) : option Migration :=
  migrations r !! id.

Definition GetMigrations (r : MigrationRegistry) : list Migration := ordered r.

Definition GetMigrationsInVersionRange (r : MigrationRegistry) (fromVersion toVersion : Z)
  : list Migration :=
  List.filter (fun m => (Version m >=? fromVersion) && (Version m <=? toVersion)) (ordered r).

Example parse_ok : ParseMigrationVersion "1754917200_test" = Ok 1754917200.
Proof. reflexivity. Qed.

(** *** topologicalSort *)

Fixpoint fold_result {A B} (f : A -> B -> result A) (l : list B) (a : A) : result A :=
  match l with
  | [] => Ok a
  | x :: rest =>
      match f a x with
      | Ok a' => fold_result f rest a'
      | Err e => Err e
      end
  end.

(** [ready = append(ready, migrationMap[id])].  A missing key would append a
    nil pointer, which the sort that follows dereferences.  Every id looked
    up is a key of [migrationMap]: the keys of [inDegree] are those of
    [migrationMap] ([initGraph_spec], [buildEdges_spec]) and the entries of
    [graph] are identifiers of the sorted migrations ([release_dependents]).
    So no nil is ever appended and the model leaves that case out. *)
Definition append_ptr (ready : list Migration) (p : option Migration) : list Migration :=
  match p with
  | Some m => ready ++ [m]
  | None => ready
  end.

(** The three maps of the first loop: [graph], [inDegree], [migrationMap]. *)
Definition initGraph (ms : list Migration)
  : gmap string (list string) * gmap string Z * gmap string Migration :=
  fold_left
    (fun '(graph, inDegree, migrationMap) m =>
       (<[ID m := []]> graph, <[ID m := 0]> inDegree, <[ID m := m]> migrationMap))
    ms (∅, ∅, ∅).

(** The body of the inner loop over [m.Dependencies]. *)
Definition addDependency (r : MigrationRegistry) (appliedMigrations : gmap string bool)
    (migrationMap : gmap string Migration) (m : Migration)
    (acc : gmap string (list string) * gmap string Z) (depID : string)
  : result (gmap string (list string) * gmap string Z) :=
  let '(graph, inDegree) := acc in
  if negb (lookup_bool appliedMigrations depID) then
    match migrationMap !! depID with
    | None =>
        match migrations r !! depID with
        | None =>
            Err ("migration " +:+ ID m +:+ " depends on non-existent migration " +:+ depID)
        | Some _ =>
            if negb (lookup_bool appliedMigrations depID) then
              Err ("migration " +:+ ID m +:+ " depends on " +:+ depID
                   +:+ " which is neither applied nor pending")
            else Ok acc
        end
    | Some _ =>
        Ok (<[depID := lookup_list graph depID ++ [ID m]]> graph,
            <[ID m := lookup_int inDegree (ID m) + 1]> inDegree)
    end
  else Ok acc.

Definition buildEdges (r : MigrationRegistry) (appliedMigrations : gmap string bool)
    (migrationMap : gmap string Migration) (ms : list Migration)
    (acc : gmap string (list string) * gmap string Z)
  : result (gmap string (list string) * gmap string Z) :=
  fold_result
    (fun acc m => fold_result (addDependency r appliedMigrations migrationMap m)
                              (Dependencies m) acc)
    ms acc.

(** [for id, degree := range inDegree { if degree == 0 { ready = append(...) } }] *)
Definition seedReady (it : MapIteration) (inDegree : gmap string Z)
    (migrationMap : gmap string Migration) : list Migration :=
  fold_left
    (fun ready id =>
       if lookup_int inDegree id =? 0 then append_ptr ready (migrationMap !! id) else ready)
    (range_of it inDegree) [].

(** [if ready[i].Version > ready[j].Version { swap }] *)
Definition swapIfGreater (i j : nat) (ready : list Migration) : list Migration :=
  match ready !! i, ready !! j with
  | Some a, Some b =>
      if Version a >? Version b then <[i := b]> (<[j := a]> ready) else ready
  | _, _ => ready
  end.

(** The two nested loops that order [ready] by version. *)
Definition sortReady (ready : list Migration) : list Migration :=
  let n := length ready in
  fold_left
    (fun ready i =>
       fold_left (fun ready j => swapIfGreater i j ready)
                 (seq (i + 1) (n - (i + 1))) ready)
    (seq 0 (n - 1)) ready.

(** The body of the loop over [graph[current.ID]]. *)
Definition release (migrationMap : gmap string Migration)
    (acc : gmap string Z * list Migration) (dependent : string)
  : gmap string Z * list Migration :=
  let '(inDegree, ready) := acc in
  let d := lookup_int inDegree dependent - 1 in
  let inDegree' := <[dependent := d]> inDegree in
  if d =? 0 then (inDegree', append_ptr ready (migrationMap !! dependent))
  else (inDegree', ready).

Record kahn := {
  k_sorted : list Migration;
  k_ready : list Migration;
  k_inDegree : gmap string Z
}.

(** One turn of [for len(ready) > 0 { ... }]; [None] when the loop exits. *)
Definition kahnStep (graph : gmap string (list string))
    (migrationMap : gmap string Migration) (st : kahn) : option kahn :=
  match k_ready st with
  | [] => None
  | _ :: _ =>
      match sortReady (k_ready st) with
      | [] => None
      | current :: rest =>
          let '(inDegree', ready') :=
            fold_left (release migrationMap) (lookup_list graph (ID current))
                      (k_inDegree st, rest) in
          Some {| k_sorted := k_sorted st ++ [current];
                  k_ready := ready';
                  k_inDegree := inDegree' |}
      end
  end.

(** The loop, run for at most [fuel] turns.  [kahnLoop_exits] shows that
    with the fuel [topologicalSort] gives it the loop has exited ([ready] is
    empty) when it returns. *)
Fixpoint kahnLoop (fuel : nat) (graph : gmap string (list string))
    (migrationMap : gmap string Migration) (st : kahn) : kahn :=
  match fuel with
  | O => st
  | S fuel' =>
      match kahnStep graph migrationMap st with
      | None => st
      | Some st' => kahnLoop fuel' graph migrationMap st'
      end
  end.

Definition topologicalSort (it : MapIteration) (r : MigrationRegistry)
    (ms : list Migration) (appliedMigrations : gmap string bool)
  : result (list Migration) :=
  match ms with
  | [] => Ok ms
  | _ :: _ =>
      let '(graph0, inDegree0, migrationMap) := initGraph ms in
      match buildEdges r appliedMigrations migrationMap ms (graph0, inDegree0) with
      | Err e => Err e
      | Ok (graph, inDegree) =>
          let st := kahnLoop (length ms) graph migrationMap
                      {| k_sorted := [];
                         k_ready := seedReady it inDegree migrationMap;
                         k_inDegree := inDegree |} in
          if negb (length (k_sorted st) =? length ms)%nat then
            let cycleMigrations :=
              List.filter (fun id => lookup_int (k_inDegree st) id >? 0)
                          (range_of it (k_inDegree st)) in
            Err ("circular dependency detected involving migrations: "
                 +:+ fmt_v cycleMigrations)
          else Ok (k_sorted st)
      end
  end.

(** The first loop of [GetPendingMigrations]: the registered migrations that
    are not applied, in registry order. *)
Definition collectPending (r : MigrationRegistry) (appliedMigrations : gmap string bool)
  : list Migration :=
  List.filter (fun m => negb (lookup_bool appliedMigrations (ID m))) (ordered r).

Definition GetPendingMigrations (it : MapIteration) (r : MigrationRegistry)
    (appliedMigrations : gmap string bool) : result (list Migration) :=
  match topologicalSort it r (collectPending r appliedMigrations) appliedMigrations with
  | Err e => Err ("failed to sort migrations by dependencies: " +:+ e)
  | Ok sorted => Ok sorted
  end.

(** Two iteration orders: the keys as the map lists them, and reversed. *)
Definition iter_forward : MapIteration :=
  {| range_keys := fun ks => ks; range_keys_perm := fun ks => Permutation_refl ks |}.
Definition iter_backward : MapIteration :=
  {| range_keys := @rev string;
     range_keys_perm := fun ks => Permutation_sym (Permutation_rev ks) |}.

(** *** The registries of ordering_test.go *)

Definition nop : MigrationFunc := fun db => (db, Ok tt).

Definition mk (id : string) (deps : list string) (rerunnable : bool) : Migration :=
  {| ID := id; Version := 0; Dependencies := deps; Description := "";
     Up := Some nop; Down := Some nop; Validate := None; Rerunnable := rerunnable |}.

Definition register_all (ms : list Migration) : result MigrationRegistry :=
  fold_result Register ms NewMigrationRegistry.

Definition registry_of (ms : list Migration) : MigrationRegistry :=
  match register_all ms with
  | Ok r => r
  | Err _ => NewMigrationRegistry
  end.

(** TestMigrationOrdering registers m3, m1, m4, m2. *)
Definition ordering_registry : MigrationRegistry :=
  registry_of [ mk "1500000000_third" ["2000000000_second"] false;
                mk "1000000000_first" [] false;
                mk "3000000000_fourth" ["1000000000_first"] false;
                mk "2000000000_second" [] false ].

Definition diamond_registry : MigrationRegistry :=
  registry_of [ mk "1000000000_base" [] false;
                mk "2000000000_left" ["1000000000_base"] false;
                mk "1500000000_right" ["1000000000_base"] false;
                mk "3000000000_merge" ["2000000000_left"; "1500000000_right"] false ].

Definition ids_of (r : result (list Migration)) : result (list string) :=
  match r with
  | Ok l => Ok (map ID l)
  | Err e => Err e
  end.

(** ** The host: what the code takes from outside the modelled program *)

(** [BackupManager.CreateBackup(db, description)]: reads the store through a
    checkpoint, writes next to it, and returns the path of the backup. *)
Record BackupManager := {
  CreateBackup : DB -> string -> result string
}.

Record Host := {
  map_iteration : MapIteration;
  (** what [time.Now()] returns *)
  time_Now : Time;
  (** [time.Since(start)], rendered by [Duration.String] *)
  time_Since : string;
  NewBackupManager : string -> BackupManager;
  (** [checkMigrationDiskSpace(dbPath, multiplier, logger)] *)
  checkMigrationDiskSpace : string -> result unit
}.

(** ** Schema catalog (schema.go) *)

Definition zeroSchema : SchemaVersion :=
  {| CurrentVersion := 0; AppliedMigrations := ∅; MigrationHistory := [];
     LastMigrationAt := 0; SchemaStatus := StatusClean |}.

(** The text of encoding/json's error on bytes that are not a schema record. *)
Definition json_error : string := "invalid schema record".

Definition GetSchemaVersion : M SchemaVersion :=
  fun db =>
    match db !! SchemaVersionKey with
    | None => (db, Ok zeroSchema)
    | Some (VSchema version) => (db, Ok version)
    | Some (VRaw _) => (db, Err ("failed to unmarshal schema version: " +:+ json_error))
    end.

Definition SetSchemaVersion (version : SchemaVersion) : M unit :=
  fun db => (<[SchemaVersionKey := VSchema version]> db, Ok tt).

Definition UpdateSchemaAfterMigration (h : Host) (migrationID : string) (version : Z)
    (description duration : string) : M unit :=
  currentSchema <- wrapping (fun e => "failed to get current schema version: " +:+ e)
                            GetSchemaVersion ;;
  let record := {| rec_ID := migrationID; rec_Description := description;
                   rec_AppliedAt := time_Now h; rec_Duration := duration;
                   rec_Success := true; rec_Error := "" |} in
  SetSchemaVersion
    {| CurrentVersion := if version >? CurrentVersion currentSchema then version
                         else CurrentVersion currentSchema;
       AppliedMigrations := <[migrationID := true]> (AppliedMigrations currentSchema);
       MigrationHistory := MigrationHistory currentSchema ++ [record];
       LastMigrationAt := rec_AppliedAt record;
       SchemaStatus := StatusClean |}.

Definition set_Status (s : SchemaVersion) (st : Status) : SchemaVersion :=
  {| CurrentVersion := CurrentVersion s; AppliedMigrations := AppliedMigrations s;
     MigrationHistory := MigrationHistory s; LastMigrationAt := LastMigrationAt s;
     SchemaStatus := st |}.

Definition MarkMigrationStarted : M unit :=
  currentSchema <- wrapping (fun e => "failed to get current schema version: " +:+ e)
                            GetSchemaVersion ;;
  SetSchemaVersion (set_Status currentSchema StatusMigrating).

Definition MarkMigrationFailed (h : Host) (migrationID description migrationErr : string)
  : M unit :=
  currentSchema <- wrapping (fun e => "failed to get current schema: " +:+ e)
                            GetSchemaVersion ;;
  let record := {| rec_ID := migrationID; rec_Description := description +:+ " (FAILED)";
                   rec_AppliedAt := time_Now h; rec_Duration := "0s";
                   rec_Success := false; rec_Error := migrationErr |} in
  SetSchemaVersion
    {| CurrentVersion := CurrentVersion currentSchema;
       AppliedMigrations := AppliedMigrations currentSchema;
       MigrationHistory := MigrationHistory currentSchema ++ [record];
       LastMigrationAt := rec_AppliedAt record;
       SchemaStatus := StatusDirty |}.

Definition MarkRollbackStarted : M unit :=
  currentSchema <- wrapping (fun e => "failed to get current schema version: " +:+ e)
                            GetSchemaVersion ;;
  SetSchemaVersion (set_Status currentSchema StatusRollback).

(** The loop of [UpdateAfterRollback] that recomputes the version, over the
    applied ids in the order [ids]. *)
Definition maxAppliedVersion (ids : list string) : Z :=
  fold_left
    (fun maxVersion migID =>
       match ParseMigrationVersion migID with
       | Ok migVersion => if migVersion >? maxVersion then migVersion else maxVersion
       | Err _ => maxVersion
       end)
    ids 0.

Definition UpdateAfterRollback (h : Host) (migrationID : string) (version : Z)
    (description : string) : M unit :=
  currentSchema <- wrapping (fun e => "failed to get current schema: " +:+ e)
                            GetSchemaVersion ;;
  let applied := delete migrationID (AppliedMigrations currentSchema) in
  let rollbackRecord :=
    {| rec_ID := migrationID +:+ "_rollback";
       rec_Description := "Rolled back: " +:+ description;
       rec_AppliedAt := time_Now h; rec_Duration := "0s";
       rec_Success := true; rec_Error := "" |} in
  SetSchemaVersion
    {| CurrentVersion := maxAppliedVersion (range_of (map_iteration h) applied);
       AppliedMigrations := applied;
       MigrationHistory := MigrationHistory currentSchema ++ [rollbackRecord];
       LastMigrationAt := rec_AppliedAt rollbackRecord;
       SchemaStatus := StatusClean |}.

Definition isRollbackRecord (id : string) : bool :=
  (9 <? String.length id)%nat
  && String.eqb (String.substring (String.length id - 9) 9 id) "_rollback".

(** The set of ids the history shows as applied and not rolled back. *)
Definition successfulMigrations (history : list MigrationRecord) : gmap string bool :=
  fold_left
    (fun acc record =>
       if rec_Success record && negb (isRollbackRecord (rec_ID record)) then
         <[rec_ID record := true]> acc
       else if isRollbackRecord (rec_ID record) then
         delete (String.substring 0 (String.length (rec_ID record) - 9) (rec_ID record)) acc
       else acc)
    history ∅.

Definition ValidateSchemaState (h : Host) : M unit :=
  currentSchema <- wrapping (fun e => "failed to get schema version: " +:+ e)
                            GetSchemaVersion ;;
  if String.eqb (SchemaStatus currentSchema) StatusDirty then
    fail "database is in dirty state, manual intervention required"
  else if String.eqb (SchemaStatus currentSchema) StatusMigrating then
    fail "migration is currently in progress"
  else if String.eqb (SchemaStatus currentSchema) StatusRollback then
    fail "rollback is currently in progress"
  else
    let successful := successfulMigrations (MigrationHistory currentSchema) in
    let applied := AppliedMigrations currentSchema in
    match List.find (fun id => negb (lookup_bool applied id))
                    (range_of (map_iteration h) successful) with
    | Some id =>
        fail ("migration " +:+ id
              +:+ " appears in history as successful but not marked as applied")
    | None =>
        match List.find (fun id => negb (lookup_bool successful id))
                        (range_of (map_iteration h) applied) with
        | Some id =>
            fail ("migration " +:+ id
                  +:+ " marked as applied but no successful record in history")
        | None => ret tt
        end
    end.

Definition ForceCleanState : M unit :=
  currentSchema <- wrapping (fun e => "failed to get current schema version: " +:+ e)
                            GetSchemaVersion ;;
  SetSchemaVersion (set_Status currentSchema StatusClean).

(** [!iter.First()] on an iterator over all keys. *)
Definition isDatabaseEmpty (db : DB) : bool :=
  match map_to_list db with
  | [] => true
  | _ :: _ => false
  end.

(** The synthetic history record of a migration skipped on a fresh store. *)
Definition skippedRecord (h : Host) (m : Migration) : MigrationRecord :=
  {| rec_ID := ID m;
     rec_Description := Description m +:+ " (skipped - fresh database)";
     rec_AppliedAt := time_Now h; rec_Duration := "0s";
     rec_Success := true; rec_Error := "" |}.

(** The loop of [InitializeFreshDatabase] over the registered migrations. *)
Definition markAllApplied (h : Host) (ms : list Migration)
  : Z * gmap string bool * list MigrationRecord :=
  fold_left
    (fun '(maxVersion, appliedMigrations, migrationHistory) m =>
       (if Version m >? maxVersion then Version m else maxVersion,
        <[ID m := true]> appliedMigrations,
        migrationHistory ++ [skippedRecord h m]))
    ms (0, ∅, []).

Definition InitializeFreshDatabase (h : Host) (registry : MigrationRegistry) : M unit :=
  fun db =>
    match db !! SchemaVersionKey with
    | Some _ => (db, Ok tt)
    | None =>
        if negb (isDatabaseEmpty db) then
          SetSchemaVersion
            {| CurrentVersion := 0; AppliedMigrations := ∅; MigrationHistory := [];
               LastMigrationAt := 0; SchemaStatus := StatusClean |} db
        else
          match GetMigrations registry with
          | [] =>
              SetSchemaVersion
                {| CurrentVersion := 0; AppliedMigrations := ∅; MigrationHistory := [];
                   LastMigrationAt := 0; SchemaStatus := StatusClean |} db
          | ms =>
              let '(maxVersion, appliedMigrations, migrationHistory) :=
                markAllApplied h ms in
              SetSchemaVersion
                {| CurrentVersion := maxVersion;
                   AppliedMigrations := appliedMigrations;
                   MigrationHistory := migrationHistory;
                   LastMigrationAt := 0; SchemaStatus := StatusClean |} db
          end
    end.

Definition GetMigrationHistory : M (list MigrationRecord) :=
  currentSchema <- GetSchemaVersion ;;
  ret (MigrationHistory currentSchema).

Definition IsMigrationApplied (migrationID : string) : M bool :=
  currentSchema <- GetSchemaVersion ;;
  ret (lookup_bool (AppliedMigrations currentSchema) migrationID).

Definition SetCurrentVersion (version : Z) : M unit :=
  currentSchema <- wrapping (fun e => "failed to get current schema: " +:+ e)
                            GetSchemaVersion ;;
  SetSchemaVersion
    {| CurrentVersion := version;
       AppliedMigrations := AppliedMigrations currentSchema;
       MigrationHistory := MigrationHistory currentSchema;
       LastMigrationAt := LastMigrationAt currentSchema;
       SchemaStatus := SchemaStatus currentSchema |}.

(** The first loop of [RepairMissingHistory]: the ids with a successful
    record that is not a rollback record. *)
Definition successfulInHistory (history : list MigrationRecord) : gmap string bool :=
  fold_left
    (fun acc record =>
       if rec_Success record && negb (isRollbackRecord (rec_ID record)) then
         <[rec_ID record := true]> acc
       else acc)
    history ∅.

(** The synthetic record [RepairMissingHistory] appends for [migrationID]. *)
Definition repairedRecord (h : Host) (registry : MigrationRegistry) (migrationID : string)
  : MigrationRecord :=
  let description :=
    match GetMigration registry migrationID with
    | Some m => Description m
    | None => "unknown migration"
    end in
  {| rec_ID := migrationID;
     rec_Description := description +:+ " (repaired - missing history)";
     rec_AppliedAt := time_Now h; rec_Duration := "0s";
     rec_Success := true; rec_Error := "" |}.

(** The second loop of [RepairMissingHistory], over the applied ids in the
    order [ids]. *)
Definition repairLoop (h : Host) (registry : MigrationRegistry)
    (successful : gmap string bool) (ids : list string)
    (acc : list MigrationRecord * list string) : list MigrationRecord * list string :=
  fold_left
    (fun '(history, repaired) migrationID =>
       if negb (lookup_bool successful migrationID) then
         (history ++ [repairedRecord h registry migrationID], repaired ++ [migrationID])
       else (history, repaired))
    ids acc.

Definition RepairMissingHistory (h : Host) (registry : MigrationRegistry)
  : M (list string) :=
  currentSchema <- wrapping (fun e => "failed to get schema version: " +:+ e)
                            GetSchemaVersion ;;
  let successful := successfulInHistory (MigrationHistory currentSchema) in
  let '(history, repaired) :=
    repairLoop h registry successful
               (range_of (map_iteration h) (AppliedMigrations currentSchema))
               (MigrationHistory currentSchema, []) in
  match repaired with
  | [] => ret []
  | _ :: _ =>
      wrapping (fun e => "failed to save repaired schema: " +:+ e)
        (SetSchemaVersion
           {| CurrentVersion := CurrentVersion currentSchema;
              AppliedMigrations := AppliedMigrations currentSchema;
              MigrationHistory := history;
              LastMigrationAt := LastMigrationAt currentSchema;
              SchemaStatus := StatusClean |}) ;;;
      ret repaired
  end.

(** ** Planner (registry.go) *)

Definition ExecutionType := string.
Definition ExecutionTypeUpgrade : ExecutionType := "upgrade".
Definition ExecutionTypeDowngrade : ExecutionType := "downgrade".
Definition ExecutionTypeRerun : ExecutionType := "rerun".

Record ExecutionPlan := {
  plan_Type : ExecutionType;
  plan_CurrentVersion : Z;
  plan_TargetVersion : Z;
  plan_Migrations : list Migration;
  plan_EstimatedSteps : Z
}.

Definition len {A} (l : list A) : Z := Z.of_nat (length l).

(** [maxVersion] of [PlanUpgrade]: the largest version of the plan, at least
    the current one. *)
Definition maxPlanVersion (current : Z) (ms : list Migration) : Z :=
  fold_left (fun maxVersion m => if Version m >? maxVersion then Version m else maxVersion)
            ms current.

Definition PlanUpgrade (h : Host) (registry : MigrationRegistry) : M ExecutionPlan :=
  currentSchema <- wrapping (fun e => "failed to get current schema: " +:+ e)
                            GetSchemaVersion ;;
  match GetPendingMigrations (map_iteration h) registry (AppliedMigrations currentSchema) with
  | Err e => fail ("failed to get pending migrations: " +:+ e)
  | Ok pendingMigrations =>
      ret {| plan_Type := ExecutionTypeUpgrade;
             plan_CurrentVersion := CurrentVersion currentSchema;
             plan_TargetVersion :=
               match pendingMigrations with
               | [] => CurrentVersion currentSchema
               | _ :: _ => maxPlanVersion (CurrentVersion currentSchema) pendingMigrations
               end;
             plan_Migrations := pendingMigrations;
             plan_EstimatedSteps := len pendingMigrations |}
  end.

Definition PlanUpgradeTo (registry : MigrationRegistry) (targetVersion : Z)
  : M ExecutionPlan :=
  currentSchema <- wrapping (fun e => "failed to get current schema: " +:+ e)
                            GetSchemaVersion ;;
  if CurrentVersion currentSchema >=? targetVersion then
    ret {| plan_Type := ExecutionTypeUpgrade;
           plan_CurrentVersion := CurrentVersion currentSchema;
           plan_TargetVersion := CurrentVersion currentSchema;
           plan_Migrations := [];
           plan_EstimatedSteps := 0 |}
  else
    let allMigrations :=
      GetMigrationsInVersionRange registry (CurrentVersion currentSchema + 1) targetVersion in
    let pendingMigrations :=
      List.filter (fun m => negb (lookup_bool (AppliedMigrations currentSchema) (ID m)))
                  allMigrations in
    ret {| plan_Type := ExecutionTypeUpgrade;
           plan_CurrentVersion := CurrentVersion currentSchema;
           plan_TargetVersion := targetVersion;
           plan_Migrations := pendingMigrations;
           plan_EstimatedSteps := len pendingMigrations |}.

Definition PlanDowngrade (registry : MigrationRegistry) (targetVersion : Z)
  : M ExecutionPlan :=
  currentSchema <- wrapping (fun e => "failed to get current schema: " +:+ e)
                            GetSchemaVersion ;;
  if CurrentVersion currentSchema <=? targetVersion then
    ret {| plan_Type := ExecutionTypeDowngrade;
           plan_CurrentVersion := CurrentVersion currentSchema;
           plan_TargetVersion := CurrentVersion currentSchema;
           plan_Migrations := [];
           plan_EstimatedSteps := 0 |}
  else
    let migrationsToRollback :=
      GetMigrationsInVersionRange registry (targetVersion + 1) (CurrentVersion currentSchema) in
    let rollbackMigrations :=
      List.filter (fun m => lookup_bool (AppliedMigrations currentSchema) (ID m))
                  (rev migrationsToRollback) in
    ret {| plan_Type := ExecutionTypeDowngrade;
           plan_CurrentVersion := CurrentVersion currentSchema;
           plan_TargetVersion := targetVersion;
           plan_Migrations := rollbackMigrations;
           plan_EstimatedSteps := len rollbackMigrations |}.

Definition PlanRerun (registry : MigrationRegistry) (migrationID : string)
  : M ExecutionPlan :=
  match GetMigration registry migrationID with
  | None => fail ("migration '" +:+ migrationID +:+ "' not found")
  | Some migration =>
      currentSchema <- wrapping (fun e => "failed to get current schema version: " +:+ e)
                                GetSchemaVersion ;;
      ret {| plan_Type := ExecutionTypeRerun;
             plan_CurrentVersion := CurrentVersion currentSchema;
             plan_TargetVersion := CurrentVersion currentSchema;
             plan_Migrations := [migration];
             plan_EstimatedSteps := 2 |}
  end.

(** *** DiscoveryService.ValidateMigrations *)

Definition isValidMigrationID (id : string) : bool := is_ok (ParseMigrationVersion id).

(** The loop of [ValidateMigrations] that looks for a duplicate ID. *)
Fixpoint duplicateCheck (ms : list Migration) (idMap : gmap string bool) : result unit :=
  match ms with
  | [] => Ok tt
  | m :: rest =>
      if lookup_bool idMap (ID m) then Err ("duplicate migration ID found: " +:+ ID m)
      else duplicateCheck rest (<[ID m := true]> idMap)
  end.

Definition ValidateMigrations (r : MigrationRegistry) : result unit :=
  let migrations := GetMigrations r in
  match migrations with
  | [] => Err "no migrations found"
  | _ :: _ =>
      match duplicateCheck migrations ∅ with
      | Err e => Err e
      | Ok _ =>
          match List.find (fun m => negb (isValidMigrationID (ID m))) migrations with
          | Some m =>
              Err ("migration ID '" +:+ ID m
                   +:+ "' doesn't follow naming convention (should be like '001_description')")
          | None => Ok tt
          end
      end
  end.

(** ** Engine (engine.go) *)

Record MigrationEngine := {
  registry : MigrationRegistry;
  backupManager : option BackupManager;
  dryRun : bool;
  verbose : bool;
  enableBackup : bool
}.

Definition NewMigrationEngineWithBackup (h : Host) (r : MigrationRegistry) (dbPath : string)
  : MigrationEngine :=
  {| registry := r; backupManager := Some (NewBackupManager h dbPath);
     dryRun := false; verbose := false; enableBackup := true |}.

Definition SetDryRun (e : MigrationEngine) (enabled : bool) : MigrationEngine :=
  {| registry := registry e; backupManager := backupManager e;
     dryRun := enabled; verbose := verbose e; enableBackup := enableBackup e |}.

Definition SetVerbose (e : MigrationEngine) (enabled : bool) : MigrationEngine :=
  {| registry := registry e; backupManager := backupManager e;
     dryRun := dryRun e; verbose := enabled; enableBackup := enableBackup e |}.

Definition SetBackupEnabled (e : MigrationEngine) (enabled : bool) : MigrationEngine :=
  {| registry := registry e; backupManager := backupManager e;
     dryRun := dryRun e; verbose := verbose e; enableBackup := enabled |}.

(** The backup taken before a plan runs, when [wanted] and a manager is set. *)
Definition backupBefore (e : MigrationEngine) (wanted : bool) (description failure : string)
  : M unit :=
  fun db =>
    match backupManager e with
    | Some bm =>
        if enableBackup e && wanted then
          match CreateBackup bm db description with
          | Err err => (db, Err (failure +:+ err))
          | Ok _ => (db, Ok tt)
          end
        else (db, Ok tt)
    | None => (db, Ok tt)
    end.

Definition executeSingleMigration (e : MigrationEngine) (migration : Migration) (up : bool)
  : M unit :=
  let migrationFunc := if up then Up migration else Down migration in
  let direction : string := if up then "up" else "down" in
  match migrationFunc with
  | None => fail ("migration " +:+ ID migration +:+ " has no " +:+ direction +:+ " function")
  | Some f =>
      wrapping (fun err => direction +:+ " migration failed: " +:+ err) f ;;;
      match Validate migration with
      | Some validate =>
          wrapping (fun err => "migration validation failed: " +:+ err) validate
      | None => ret tt
      end
  end.

(** [if err := step; err != nil { mark failed; return ... }]: run [step]; on
    its error, record the failure under [failedID] and return [report err]. *)
Definition orMarkFailed (h : Host) (step : M unit)
    (failedID failedDescription : string) (markFailure : string)
    (report : string -> string) : M unit :=
  fun db =>
    match step db with
    | (db1, Ok tt) => (db1, Ok tt)
    | (db1, Err err) =>
        match MarkMigrationFailed h failedID failedDescription err db1 with
        | (db2, Err markErr) =>
            (db2, Err (markFailure +:+ markErr +:+ " (original error: " +:+ err +:+ ")"))
        | (db2, Ok tt) => (db2, Err (report err))
        end
    end.

Fixpoint upgradeLoop (h : Host) (e : MigrationEngine) (ms : list Migration) : M unit :=
  match ms with
  | [] => ret tt
  | migration :: rest =>
      orMarkFailed h (executeSingleMigration e migration true)
        (ID migration) (Description migration)
        "migration failed and failed to mark as failed: "
        (fun err => "migration " +:+ ID migration +:+ " failed: " +:+ err) ;;;
      wrapping (fun err => "failed to update schema version after migration "
                           +:+ ID migration +:+ ": " +:+ err)
        (UpdateSchemaAfterMigration h (ID migration) (Version migration)
           (Description migration) (time_Since h)) ;;;
      upgradeLoop h e rest
  end.

Definition nonempty {A} (l : list A) : bool :=
  match l with [] => false | _ :: _ => true end.

Definition executeUpgrade (h : Host) (e : MigrationEngine) (plan : ExecutionPlan) : M unit :=
  if dryRun e then ret tt
  else
    backupBefore e (nonempty (plan_Migrations plan))
      ("Before upgrade to version " +:+ fmt_d (plan_TargetVersion plan) +:+ " ("
       +:+ fmt_d (len (plan_Migrations plan)) +:+ " migrations)")
      "failed to create backup before migration: " ;;;
    wrapping (fun err => "schema validation failed: " +:+ err) (ValidateSchemaState h) ;;;
    wrapping (fun err => "failed to mark migration as started: " +:+ err)
             MarkMigrationStarted ;;;
    upgradeLoop h e (plan_Migrations plan).

Fixpoint downgradeLoop (h : Host) (e : MigrationEngine) (ms : list Migration) : M unit :=
  match ms with
  | [] => ret tt
  | migration :: rest =>
      orMarkFailed h (executeSingleMigration e migration false)
        (ID migration +:+ "_rollback") ("Rollback: " +:+ Description migration)
        "rollback failed and failed to mark as failed: "
        (fun err => "rollback of migration " +:+ ID migration +:+ " failed: " +:+ err) ;;;
      wrapping (fun err => "failed to update schema after rollback of "
                           +:+ ID migration +:+ ": " +:+ err)
        (UpdateAfterRollback h (ID migration) (Version migration) (Description migration)) ;;;
      downgradeLoop h e rest
  end.

Definition executeDowngrade (h : Host) (e : MigrationEngine) (plan : ExecutionPlan)
  : M unit :=
  if dryRun e then ret tt
  else
    backupBefore e (nonempty (plan_Migrations plan))
      ("Before rollback to version " +:+ fmt_d (plan_TargetVersion plan) +:+ " ("
       +:+ fmt_d (len (plan_Migrations plan)) +:+ " rollbacks)")
      "failed to create backup before rollback: " ;;;
    wrapping (fun err => "schema validation failed: " +:+ err) (ValidateSchemaState h) ;;;
    wrapping (fun err => "failed to mark rollback as started: " +:+ err)
             MarkRollbackStarted ;;;
    downgradeLoop h e (plan_Migrations plan).

Definition executeRerun (h : Host) (e : MigrationEngine) (plan : ExecutionPlan) : M unit :=
  match plan_Migrations plan with
  | [migration] =>
      if dryRun e then ret tt
      else
        backupBefore e true ("Before rerun of migration " +:+ ID migration)
          "failed to create backup before rerun: " ;;;
        wrapping (fun err => "schema validation failed: " +:+ err) (ValidateSchemaState h) ;;;
        wrapping (fun err => "failed to mark migration as started: " +:+ err)
                 MarkMigrationStarted ;;;
        orMarkFailed h (executeSingleMigration e migration false)
          (ID migration +:+ "_rerun_rollback") ("Rerun Rollback: " +:+ Description migration)
          "rerun rollback failed and failed to mark as failed: "
          (fun err => "rerun rollback of migration " +:+ ID migration
                      +:+ " failed: " +:+ err) ;;;
        orMarkFailed h (executeSingleMigration e migration true)
          (ID migration +:+ "_rerun") ("Rerun: " +:+ Description migration)
          "rerun failed and failed to mark as failed: "
          (fun err => "rerun of migration " +:+ ID migration +:+ " failed: " +:+ err) ;;;
        wrapping (fun err => "failed to update schema version after rerun of "
                             +:+ ID migration +:+ ": " +:+ err)
          (UpdateSchemaAfterMigration h (ID migration +:+ "_rerun") (Version migration)
             ("Rerun: " +:+ Description migration) (time_Since h))
  | ms =>
      fail ("rerun plan must contain exactly one migration, got " +:+ fmt_d (len ms))
  end.

Definition ExecutePlan (h : Host) (e : MigrationEngine) (plan : ExecutionPlan) : M unit :=
  if String.eqb (plan_Type plan) ExecutionTypeUpgrade then executeUpgrade h e plan
  else if String.eqb (plan_Type plan) ExecutionTypeDowngrade then executeDowngrade h e plan
  else if String.eqb (plan_Type plan) ExecutionTypeRerun then executeRerun h e plan
  else fail ("unsupported execution type: " +:+ plan_Type plan).

(** ** Startup (part_003) *)

Record StartupOptions := {
  RunMigrations : bool;
  BackupEnabled : bool;
  CheckDiskSpace : bool;
  CLIName : string
}.

Definition DefaultStartupOptions : StartupOptions :=
  {| RunMigrations := false; BackupEnabled := false; CheckDiskSpace := true;
     CLIName := "pebble-migrate" |}.

Definition cliNameOf (opts : StartupOptions) : string :=
  if String.eqb (CLIName opts) "" then "pebble-migrate" else CLIName opts.

Definition newline : string := String (Ascii.ascii_of_nat 10) EmptyString.

Definition attemptMigrationRecovery (h : Host) (r : MigrationRegistry)
    (opts : StartupOptions) : M unit :=
  currentSchema <- wrapping (fun e => "failed to get schema version: " +:+ e)
                            GetSchemaVersion ;;
  let cliName := cliNameOf opts in
  plan <- wrapping (fun e => "failed to create migration plan for recovery: " +:+ e)
                   (PlanUpgrade h r) ;;
  match plan_Migrations plan with
  | [] =>
      fail ("database is in 'migrating' state but no pending migrations found. "
            +:+ "Run '" +:+ cliName +:+ " force-clean' to manually reset state")
  | stuckMigration :: _ =>
      if negb (Rerunnable stuckMigration) then
        fail ("database is in 'migrating' state - migration '" +:+ ID stuckMigration
              +:+ "' (" +:+ Description stuckMigration +:+ ") was interrupted. "
              +:+ "This migration is not marked as rerunnable and requires manual intervention. "
              +:+ "Options:" +:+ newline
              +:+ "  1. Run '" +:+ cliName
              +:+ " validate' to check if migration completed successfully" +:+ newline
              +:+ "  2. Run '" +:+ cliName
              +:+ " force-clean' to force reset (use with caution)" +:+ newline
              +:+ "  3. Restore from backup if available")
      else
        wrapping (fun e => "failed to reset schema status for recovery: " +:+ e)
                 (SetSchemaVersion (set_Status currentSchema StatusClean))
  end.

Definition CheckAndRunStartupMigrations (h : Host) (r : MigrationRegistry)
    (dbPath : string) (opts : StartupOptions) : M unit :=
  wrapping (fun e => "failed to initialize database schema: " +:+ e)
           (InitializeFreshDatabase h r) ;;;
  currentSchema <- wrapping (fun e => "failed to get schema version: " +:+ e)
                            GetSchemaVersion ;;
  let cliName := cliNameOf opts in
  currentSchema <-
    (if String.eqb (SchemaStatus currentSchema) StatusMigrating then
       attemptMigrationRecovery h r opts ;;;
       wrapping (fun e => "failed to get schema version after recovery attempt: " +:+ e)
                GetSchemaVersion
     else ret currentSchema) ;;
  if negb (String.eqb (SchemaStatus currentSchema) StatusClean) then
    fail ("database is in '" +:+ SchemaStatus currentSchema
          +:+ "' state - manual intervention required. "
          +:+ "Run '" +:+ cliName +:+ " status' to check and resolve issues")
  else
    plan <- wrapping (fun e => "failed to create migration plan: " +:+ e)
                     (PlanUpgrade h r) ;;
    match plan_Migrations plan with
    | [] => ret tt
    | _ :: _ =>
        if negb (RunMigrations opts) then
          fail ("database has " +:+ fmt_d (len (plan_Migrations plan))
                +:+ " pending migrations. "
                +:+ "Run migrations using '" +:+ cliName
                +:+ " up' or restart with --migrate flag. "
                +:+ "Note: After using --clean or with a new database, you must also pass --migrate")
        else
          (if CheckDiskSpace opts then
             fun db =>
               match checkMigrationDiskSpace h dbPath with
               | Err e => (db, Err ("disk space check failed: " +:+ e))
               | Ok _ => (db, Ok tt)
               end
           else ret tt) ;;;
          let engine :=
            SetBackupEnabled (SetVerbose (NewMigrationEngineWithBackup h r dbPath) false)
                             (BackupEnabled opts) in
          wrapping (fun e => "startup migration failed: " +:+ e)
                   (ExecutePlan h engine plan)
    end.

(** ** Vocabulary of the statements, and the data they are instantiated at *)

(** What [GetSchemaVersion] reads from a store. *)
Definition catalog (db : DB) : result SchemaVersion := (GetSchemaVersion db).2.

Definition host_forward : Host :=
  {| map_iteration := iter_forward; time_Now := 1755000300; time_Since := "1s";
     NewBackupManager := fun _ => {| CreateBackup := fun _ _ => Ok "backup" |};
     checkMigrationDiskSpace := fun _ => Ok tt |}.

(** The catalog of TestSchemaManager after its first migration. *)
Definition one_applied : SchemaVersion :=
  {| CurrentVersion := 1754917200;
     AppliedMigrations := {[ "1754917200_test" := true ]};
     MigrationHistory :=
       [ {| rec_ID := "1754917200_test"; rec_Description := "Test migration";
            rec_AppliedAt := 1755000000; rec_Duration := "1s";
            rec_Success := true; rec_Error := "" |} ];
     LastMigrationAt := 1755000000;
     SchemaStatus := StatusClean |}.

Definition one_applied_db : DB :=
  {[ SchemaVersionKey := VSchema one_applied; "order:123" := VRaw "some data" ]}.

(** [v] is the version derived from the applied set: the largest version
    parsed from its identifiers, and [0] when none parses (in particular when
    the set is empty). *)
Definition version_derived (applied : gmap string bool) (v : Z) : Prop :=
  (forall id w, is_Some (applied !! id) -> ParseMigrationVersion id = Ok w -> w <= v)
  /\ (v = 0 \/ exists id, is_Some (applied !! id) /\ ParseMigrationVersion id = Ok v).

(** [v] is the largest version among [ms], and [0] when there is none. *)
Definition max_version_of (ms : list Migration) (v : Z) : Prop :=
  (forall m, In m ms -> Version m <= v)
  /\ (v = 0 \/ exists m, In m ms /\ Version m = v).

(** Scenario E: three registered migrations. *)
Definition three_registry : MigrationRegistry :=
  registry_of [ mk "1754917200_test" [] false;
                mk "1754917400_test" [] false;
                mk "1754917300_test" [] false ].

(** The identifiers of a plan's migrations, in order. *)
Definition plan_ids (x : DB * result ExecutionPlan) : result (list string) :=
  match x.2 with
  | Ok plan => Ok (map ID (plan_Migrations plan))
  | Err e => Err e
  end.

(** C4 as the specification words it: a no-op plan when the current version
    has reached [v]; otherwise the sequence of [PlanUpgrade] restricted to the
    versions up to [v]. *)
Definition PlanUpgradeTo_as_specified (h : Host) (r : MigrationRegistry) (db : DB) (v : Z)
  : Prop :=
  forall s, catalog db = Ok s ->
    (CurrentVersion s >= v ->
       exists plan, (PlanUpgradeTo r v db).2 = Ok plan /\ plan_Migrations plan = [])
    /\ (CurrentVersion s < v ->
        forall p, (PlanUpgrade h r db).2 = Ok p ->
          exists pTo, (PlanUpgradeTo r v db).2 = Ok pTo
                      /\ plan_Migrations pTo
                         = List.filter (fun m => Version m <=? v) (plan_Migrations p)).

(** A migration stamped before the last applied one, registered after it. *)
Definition late_registry : MigrationRegistry :=
  registry_of [ mk "1754917300_b" [] false; mk "1754917200_a" [] false ].

Definition late_db : DB :=
  {[ SchemaVersionKey :=
       VSchema {| CurrentVersion := 1754917300;
                  AppliedMigrations := {[ "1754917300_b" := true ]};
                  MigrationHistory :=
                    [ {| rec_ID := "1754917300_b"; rec_Description := "";
                         rec_AppliedAt := 1755000000; rec_Duration := "1s";
                         rec_Success := true; rec_Error := "" |} ];
                  LastMigrationAt := 1755000000;
                  SchemaStatus := StatusClean |} ]}.

(** Scenario B: one registered migration that is not rerunnable, and a catalog
    left in status migrating. *)
Definition interrupted_registry : MigrationRegistry :=
  registry_of [ mk "1755000000_x" [] false ].

Definition interrupted_db : DB :=
  {[ SchemaVersionKey := VSchema (set_Status zeroSchema StatusMigrating) ]}.

Definition startup_options : StartupOptions :=
  {| RunMigrations := true; BackupEnabled := false; CheckDiskSpace := true;
     CLIName := "" |}.

(** A callback that leaves the reserved key of the store alone, as the
    contract of user migrations requires. *)
Definition preserves_catalog (f : option MigrationFunc) : Prop :=
  forall g, f = Some g -> forall db, (g db).1 !! SchemaVersionKey = db !! SchemaVersionKey.

(** A registered migration, applied, and the plan that reruns it. *)
Definition rerun_migration : Migration :=
  set_Version (mk "1754917200_test" [] false) 1754917200.

Definition rerun_plan : ExecutionPlan :=
  {| plan_Type := ExecutionTypeRerun;
     plan_CurrentVersion := 1754917200; plan_TargetVersion := 1754917200;
     plan_Migrations := [rerun_migration]; plan_EstimatedSteps := 2 |}.

Definition rerun_engine : MigrationEngine :=
  NewMigrationEngineWithBackup host_forward (registry_of [mk "1754917200_test" [] false])
                               "/data/db".

(** The registries a program can build: [NewMigrationRegistry] followed by
    successful calls of [Register]. *)
Inductive registered : MigrationRegistry -> Prop :=
| registered_new : registered NewMigrationRegistry
| registered_add r m r' : registered r -> Register r m = Ok r' -> registered r'.

(** One operation on the store that holds the catalog: a catalog operation of
    schema.go, or a write of user data outside the reserved key. *)
Inductive catalog_step : DB -> DB -> Prop :=
| step_InitializeFreshDatabase h r db :
    registered r -> catalog_step db (InitializeFreshDatabase h r db).1
| step_UpdateSchemaAfterMigration h id v description duration db :
    ParseMigrationVersion id = Ok v ->
    catalog_step db (UpdateSchemaAfterMigration h id v description duration db).1
| step_MarkMigrationStarted db : catalog_step db (MarkMigrationStarted db).1
| step_MarkRollbackStarted db : catalog_step db (MarkRollbackStarted db).1
| step_MarkMigrationFailed h id description err db :
    catalog_step db (MarkMigrationFailed h id description err db).1
| step_UpdateAfterRollback h id v description db :
    catalog_step db (UpdateAfterRollback h id v description db).1
| step_ForceCleanState db : catalog_step db (ForceCleanState db).1
| step_user_set k bytes db :
    k <> SchemaVersionKey -> catalog_step db (<[k := VRaw bytes]> db)
| step_user_delete k db :
    k <> SchemaVersionKey -> catalog_step db (delete k db).

(** The stores reached from one without the reserved key (its catalog reads
    as the zero record; fresh initialization is the first step from it). *)
Inductive reachable : DB -> Prop :=
| reachable_start db : db !! SchemaVersionKey = None -> reachable db
| reachable_step db db' : reachable db -> catalog_step db db' -> reachable db'.

(** A run: legacy data, initialization, two migrations, a failure, a forced
    clean, a rollback. *)
Definition sample_run : DB :=
  let db0 : DB := {[ "order:123" := VRaw "some data" ]} in
  let db1 := (InitializeFreshDatabase host_forward three_registry db0).1 in
  let db2 := (MarkMigrationStarted db1).1 in
  let db3 := (UpdateSchemaAfterMigration host_forward "1754917200_test" 1754917200
                                         "Test 1" "1s" db2).1 in
  let db4 := (UpdateSchemaAfterMigration host_forward "1754917400_test" 1754917400
                                         "Test 3" "1s" db3).1 in
  let db5 := (MarkMigrationFailed host_forward "1754917300_test" "Test 2" "boom" db4).1 in
  let db6 := (ForceCleanState db5).1 in
  let db7 := (MarkRollbackStarted db6).1 in
  (UpdateAfterRollback host_forward "1754917400_test" 1754917400 "Test 3" db7).1.

(** *** The two loops of [sortReady], read as a selection sort *)

(** One pass of the inner loop with [x] in slot [i]: the smallest version of
    [x :: rest] ends in slot [i], the others stay behind it. *)
Fixpoint selectMin (x : Migration) (rest : list Migration) : Migration * list Migration :=
  match rest with
  | [] => (x, [])
  | y :: ys =>
      if Version x >? Version y then
        let '(m, ys') := selectMin y ys in (m, x :: ys')
      else
        let '(m, ys') := selectMin x ys in (m, y :: ys')
  end.

Fixpoint selectionSort (passes : nat) (l : list Migration) : list Migration :=
  match passes, l with
  | S passes', x :: rest =>
      let '(m, rest') := selectMin x rest in m :: selectionSort passes' rest'
  | _, _ => l
  end.

Definition version_le (a b : Migration) : Prop := Version a <= Version b.

(** *** The dependency graph of a pending set, and the order Kahn's sort
    with a smallest-version choice produces *)

(** The dependencies of [m] that are not applied yet. *)
Definition unmet (applied : gmap string bool) (m : Migration) : list string :=
  List.filter (fun d => negb (lookup_bool applied d)) (Dependencies m).

(** [x] (the identifier of a pending migration) depends on [y]. *)
Definition depends_on (pending : list Migration) (applied : gmap string bool)
  : relation string :=
  fun x y => exists m, In m pending /\ ID m = x /\ In y (unmet applied m).

(** The dependency graph over the pending set has no cycle. *)
Definition acyclic (pending : list Migration) (applied : gmap string bool) : Prop :=
  forall x, ~ tc (depends_on pending applied) x x.

(** Every dependency of a pending migration is applied or pending. *)
Definition no_dangling (pending : list Migration) (applied : gmap string bool) : Prop :=
  forall m d, In m pending -> In d (unmet applied m) -> In d (map ID pending).

(** [m] is ready once [emitted] have been emitted: it is pending, not
    emitted, and all its unmet dependencies are emitted. *)
Definition ready_after (pending : list Migration) (applied : gmap string bool)
    (emitted : list Migration) (m : Migration) : Prop :=
  In m pending
  /\ ~ In (ID m) (map ID emitted)
  /\ forall d, In d (unmet applied m) -> In d (map ID emitted).

(** [sorted] is an order of Kahn's topological sort in which each step emits
    a ready node of smallest version. *)
Definition kahn_order (pending : list Migration) (applied : gmap string bool)
    (sorted : list Migration) : Prop :=
  forall pre x post, sorted = pre ++ x :: post ->
    ready_after pending applied pre x
    /\ forall y, ready_after pending applied pre y -> Version x <= Version y.

(** What [graph[x]] holds after the edges are built: the identifier of each
    pending migration, once per occurrence of [x] among its unmet
    dependencies. *)
Definition dependents (pending : list Migration) (applied : gmap string bool)
    (x : string) : list string :=
  flat_map (fun m => repeat (ID m) (count_occ String.string_dec (unmet applied m) x))
           pending.

(** What [inDegree[x]] holds after the edges are built. *)
Definition indegree (pending : list Migration) (applied : gmap string bool)
    (x : string) : Z :=
  Z.of_nat (length (flat_map (fun m => if decide (ID m = x) then unmet applied m else [])
                             pending)).

(** The unmet dependencies of [m] that are not among [emitted] yet. *)
Definition remaining (applied : gmap string bool) (emitted : list Migration)
    (m : Migration) : list string :=
  List.filter (fun d => negb (existsb (String.eqb d) (map ID emitted))) (unmet applied m).

(** What the loop over [graph[c]] appends to [ready]: the pending migrations
    whose last unmet dependency was [c]. *)
Definition released (pending : list Migration) (applied : gmap string bool)
    (inDegree : gmap string Z) (c : string) : list Migration :=
  List.filter
    (fun m =>
       let n := count_occ String.string_dec (unmet applied m) c in
       (0 <? n)%nat && (lookup_int inDegree (ID m) =? Z.of_nat n))
    pending.

(** The invariant of the loop of [topologicalSort]. *)
Record kahn_inv (pending : list Migration) (applied : gmap string bool) (st : kahn)
  : Prop := {
  inv_degree : forall m, In m pending ->
    lookup_int (k_inDegree st) (ID m)
    = Z.of_nat (length (remaining applied (k_sorted st) m));
  inv_nodup : List.NoDup (map ID (k_sorted st ++ k_ready st));
  inv_pending : forall m, In m (k_sorted st ++ k_ready st) -> In m pending;
  inv_ready : forall m, In m pending -> ~ In (ID m) (map ID (k_sorted st)) ->
    lookup_int (k_inDegree st) (ID m) = 0 -> In m (k_ready st);
  inv_ready_zero : forall m, In m (k_ready st) -> lookup_int (k_inDegree st) (ID m) = 0;
  inv_order : kahn_order pending applied (k_sorted st)
}.

(** Two migrations stamped with the same second. *)
Definition tie_registry : MigrationRegistry :=
  registry_of [ mk "1000000000_a" [] false; mk "1000000000_b" [] false ].

(** The position of [id] in [order] (its length when absent). *)
Fixpoint position (order : list string) (id : string) : nat :=
  match order with
  | [] => O
  | x :: rest => if String.eqb x id then O else S (position rest id)
  end.

(** Checks that every unmet dependency of a pending migration is pending. *)
Definition closed_check (pending : list Migration) (applied : gmap string bool) : bool :=
  forallb (fun m => forallb (fun d => existsb (String.eqb d) (map ID pending))
                            (unmet applied m))
          pending.

(** Checks that every unmet dependency stands before its dependent in
    [order]. *)
Definition order_check (pending : list Migration) (applied : gmap string bool)
    (order : list string) : bool :=
  forallb (fun m => forallb (fun d => (position order d <? position order (ID m))%nat)
                            (unmet applied m))
          pending.

(** The number a decimal numeral denotes, read digit by digit from [n]. *)
Fixpoint uint_val (d : Decimal.uint) (n : Z) : Z :=
  match d with
  | Decimal.Nil => n
  | Decimal.D0 d => uint_val d (10 * n + 0)
  | Decimal.D1 d => uint_val d (10 * n + 1)
  | Decimal.D2 d => uint_val d (10 * n + 2)
  | Decimal.D3 d => uint_val d (10 * n + 3)
  | Decimal.D4 d => uint_val d (10 * n + 4)
  | Decimal.D5 d => uint_val d (10 * n + 5)
  | Decimal.D6 d => uint_val d (10 * n + 6)
  | Decimal.D7 d => uint_val d (10 * n + 7)
  | Decimal.D8 d => uint_val d (10 * n + 8)
  | Decimal.D9 d => uint_val d (10 * n + 9)
  end.

(** Two migrations that depend on each other, and one whose dependency is
    not registered. *)
Definition cycle_registry : MigrationRegistry :=
  registry_of [ mk "1754917200_a" ["1754917300_b"] false;
                mk "1754917300_b" ["1754917200_a"] false ].

Definition dangling_registry : MigrationRegistry :=
  registry_of [ mk "1754917200_a" ["1754917100_missing"] false ].

(** The applied set is the one the history accounts for: what
    [ValidateSchemaState] compares. *)
Definition history_consistent (s : SchemaVersion) : Prop :=
  AppliedMigrations s = successfulMigrations (MigrationHistory s).

(** A catalog in which [AppliedMigrations] lists a migration the history
    has no record of (the state [RepairMissingHistory] is written for). *)
Definition missing_history : SchemaVersion :=
  {| CurrentVersion := 1754917300;
     AppliedMigrations := {[ "1754917200_test" := true; "1754917300_next" := true ]};
     MigrationHistory := MigrationHistory one_applied;
     LastMigrationAt := 1755000000;
     SchemaStatus := StatusDirty |}.

Definition missing_history_db : DB := {[ SchemaVersionKey := VSchema missing_history ]}.

(** The applied ids [RepairMissingHistory] finds without a successful record,
    in the order of its loop. *)
Definition missingHistory (h : Host) (s : SchemaVersion) : list string :=
  List.filter (fun id => negb (lookup_bool (successfulInHistory (MigrationHistory s)) id))
              (range_of (map_iteration h) (AppliedMigrations s)).

(** The record [UpdateSchemaAfterMigration] leaves when the engine reports
    the success of [m], and the one [MarkMigrationFailed] leaves when it
    reports its failure with [err]. *)
Definition success_record (h : Host) (m : Migration) : MigrationRecord :=
  {| rec_ID := ID m; rec_Description := Description m;
     rec_AppliedAt := time_Now h; rec_Duration := time_Since h;
     rec_Success := true; rec_Error := "" |}.

Definition after_success (h : Host) (s : SchemaVersion) (m : Migration) : SchemaVersion :=
  {| CurrentVersion := if Version m >? CurrentVersion s then Version m else CurrentVersion s;
     AppliedMigrations := <[ID m := true]> (AppliedMigrations s);
     MigrationHistory := MigrationHistory s ++ [success_record h m];
     LastMigrationAt := time_Now h;
     SchemaStatus := StatusClean |}.

Definition failure_record (h : Host) (id description err : string) : MigrationRecord :=
  {| rec_ID := id; rec_Description := description +:+ " (FAILED)";
     rec_AppliedAt := time_Now h; rec_Duration := "0s";
     rec_Success := false; rec_Error := err |}.

Definition after_failure (h : Host) (s : SchemaVersion) (id description err : string)
  : SchemaVersion :=
  {| CurrentVersion := CurrentVersion s;
     AppliedMigrations := AppliedMigrations s;
     MigrationHistory := MigrationHistory s ++ [failure_record h id description err];
     LastMigrationAt := time_Now h;
     SchemaStatus := StatusDirty |}.

(** Two pending migrations on a store that holds one applied migration. *)
Definition upgrade_registry : MigrationRegistry :=
  registry_of [ mk "1754917200_test" [] false;
                mk "1754917300_next" ["1754917200_test"] false;
                mk "1754917400_last" [] false ].

Definition upgrade_engine : MigrationEngine :=
  NewMigrationEngineWithBackup host_forward upgrade_registry "/data/db".

Definition upgrade_plan : ExecutionPlan :=
  match (PlanUpgrade host_forward upgrade_registry one_applied_db).2 with
  | Ok plan => plan
  | Err _ =>
      {| plan_Type := ExecutionTypeUpgrade; plan_CurrentVersion := 0;
         plan_TargetVersion := 0; plan_Migrations := []; plan_EstimatedSteps := 0 |}
  end.

(** A migration whose [Up] callback fails, between two that succeed. *)
Definition failing_up : MigrationFunc := fun db => (db, Err "boom").

Definition failing_migration : Migration :=
  {| ID := "1754917300_next"; Version := 0; Dependencies := []; Description := "Next";
     Up := Some failing_up; Down := Some nop; Validate := None; Rerunnable := false |}.

Definition failing_registry : MigrationRegistry :=
  registry_of [ mk "1754917100_first" [] false; failing_migration;
                mk "1754917400_last" [] false ].

Definition failing_engine : MigrationEngine :=
  NewMigrationEngineWithBackup host_forward failing_registry "/data/db".

Definition failing_plan : ExecutionPlan :=
  match (PlanUpgrade host_forward failing_registry one_applied_db).2 with
  | Ok plan => plan
  | Err _ =>
      {| plan_Type := ExecutionTypeUpgrade; plan_CurrentVersion := 0;
         plan_TargetVersion := 0; plan_Migrations := []; plan_EstimatedSteps := 0 |}
  end.

Definition empty_plan : ExecutionPlan :=
  {| plan_Type := ExecutionTypeUpgrade; plan_CurrentVersion := 1754917200;
     plan_TargetVersion := 1754917200; plan_Migrations := []; plan_EstimatedSteps := 0 |}.

(** The record [UpdateAfterRollback] leaves when the engine reports the
    rollback of [m]. *)
Definition rollback_record (h : Host) (m : Migration) : MigrationRecord :=
  {| rec_ID := ID m +:+ "_rollback";
     rec_Description := "Rolled back: " +:+ Description m;
     rec_AppliedAt := time_Now h; rec_Duration := "0s";
     rec_Success := true; rec_Error := "" |}.

Definition after_rollback (h : Host) (s : SchemaVersion) (m : Migration) : SchemaVersion :=
  {| CurrentVersion :=
       maxAppliedVersion (range_of (map_iteration h) (delete (ID m) (AppliedMigrations s)));
     AppliedMigrations := delete (ID m) (AppliedMigrations s);
     MigrationHistory := MigrationHistory s ++ [rollback_record h m];
     LastMigrationAt := time_Now h;
     SchemaStatus := StatusClean |}.

(** The catalog after the three migrations of [three_registry] were applied,
    and the plan that rolls the last two back. *)
Definition three_applied_db : DB :=
  (InitializeFreshDatabase host_forward three_registry ∅).1.

Definition downgrade_engine : MigrationEngine :=
  NewMigrationEngineWithBackup host_forward three_registry "/data/db".

Definition downgrade_plan : ExecutionPlan :=
  match (PlanDowngrade three_registry 1754917200 three_applied_db).2 with
  | Ok plan => plan
  | Err _ =>
      {| plan_Type := ExecutionTypeDowngrade; plan_CurrentVersion := 0;
         plan_TargetVersion := 0; plan_Migrations := []; plan_EstimatedSteps := 0 |}
  end.

(** Startup with [--migrate]. *)
Definition migrate_options : StartupOptions :=
  {| RunMigrations := true; BackupEnabled := true; CheckDiskSpace := true; CLIName := "" |}.

(** A store left in status migrating whose first pending migration is
    rerunnable, and one left dirty. *)
Definition rerunnable_registry : MigrationRegistry :=
  registry_of [ mk "1755000000_x" [] true ].

Definition dirty_db : DB :=
  {[ SchemaVersionKey := VSchema (set_Status one_applied StatusDirty) ]}.

(** * Properties *)

(** ** The catalog record of a store *)

Ltac unfold_M := unfold bind, wrapping, ret, fail in *.

(** Turns the integer tests of the code, once decided, into (in)equalities. *)
Ltac Ztests :=
  repeat match goal with
  | H : (_ >? _) = true |- _ => apply Z.gtb_lt in H
  | H : (_ >? _) = false |- _ => rewrite Z.gtb_ltb in H; apply Z.ltb_ge in H
  | H : (_ <? _) = true |- _ => apply Z.ltb_lt in H
  | H : (_ <? _) = false |- _ => apply Z.ltb_ge in H
  | H : (_ >=? _) = true |- _ => rewrite Z.geb_leb in H; apply Z.leb_le in H
  | H : (_ >=? _) = false |- _ => rewrite Z.geb_leb in H; apply Z.leb_gt in H
  | H : (_ <=? _) = true |- _ => apply Z.leb_le in H
  | H : (_ <=? _) = false |- _ => apply Z.leb_gt in H
  | H : (_ =? _) = true |- _ => apply Z.eqb_eq in H
  | H : (_ =? _) = false |- _ => apply Z.eqb_neq in H
  end.

Lemma GetSchemaVersion_reads db s :
  catalog db = Ok s -> GetSchemaVersion db = (db, Ok s).
Proof.
  unfold catalog, GetSchemaVersion.
  destruct (db !! SchemaVersionKey) as [[v|b]|]; simpl; congruence.
Qed.

Lemma GetSchemaVersion_fails db e :
  catalog db = Err e -> GetSchemaVersion db = (db, Err e).
Proof.
  unfold catalog, GetSchemaVersion.
  destruct (db !! SchemaVersionKey) as [[v|b]|]; simpl; congruence.
Qed.

Lemma catalog_insert s db : catalog (<[SchemaVersionKey := VSchema s]> db) = Ok s.
Proof. unfold catalog, GetSchemaVersion. by rewrite lookup_insert_eq. Qed.

Lemma catalog_absent db : db !! SchemaVersionKey = None -> catalog db = Ok zeroSchema.
Proof. unfold catalog, GetSchemaVersion. by intros ->. Qed.

Lemma catalog_frame db db' :
  db' !! SchemaVersionKey = db !! SchemaVersionKey -> catalog db' = catalog db.
Proof.
  unfold catalog, GetSchemaVersion. intros Heq. rewrite Heq.
  by destruct (db !! SchemaVersionKey) as [[v|b]|].
Qed.

(** ** C9: MarkMigrationFailed *)

(** C9.  On a store whose catalog reads as [s], [MarkMigrationFailed id desc
    err] succeeds and rewrites only the reserved key; the new record has the
    history of [s] followed by exactly one record, which is a failure
    ([Success = false]) for [id] carrying the error text [err]; its status is
    dirty; its applied set and current version are those of [s]. *)
Theorem MarkMigrationFailed_appends_failure
    (h : Host) (db : DB) (s : SchemaVersion) (id desc err : string) :
  catalog db = Ok s ->
  exists record,
    MarkMigrationFailed h id desc err db =
      (<[SchemaVersionKey :=
           VSchema {| CurrentVersion := CurrentVersion s;
                      AppliedMigrations := AppliedMigrations s;
                      MigrationHistory := MigrationHistory s ++ [record];
                      LastMigrationAt := time_Now h;
                      SchemaStatus := StatusDirty |}]> db, Ok tt)
    /\ rec_ID record = id
    /\ rec_Success record = false
    /\ rec_Error record = err.
Proof.
  intros Hs. unfold MarkMigrationFailed. unfold_M.
  rewrite (GetSchemaVersion_reads _ _ Hs).
  eexists. split; [reflexivity|]. simpl. auto.
Qed.

Lemma MarkMigrationFailed_witness :
  exists record,
    MarkMigrationFailed host_forward "1754917300_failed" "Failed migration" "test error"
                        one_applied_db =
      (<[SchemaVersionKey :=
           VSchema {| CurrentVersion := 1754917200;
                      AppliedMigrations := {[ "1754917200_test" := true ]};
                      MigrationHistory := MigrationHistory one_applied ++ [record];
                      LastMigrationAt := 1755000300;
                      SchemaStatus := StatusDirty |}]> one_applied_db, Ok tt)
    /\ rec_ID record = "1754917300_failed"
    /\ rec_Success record = false
    /\ rec_Error record = "test error".
Proof.
  apply (MarkMigrationFailed_appends_failure host_forward one_applied_db one_applied).
  reflexivity.
Defined.

(** ** Ranging over a map *)

Lemma In_keys_of {V} (m : gmap string V) (k : string) :
  In k (keys_of m) <-> is_Some (m !! k).
Proof.
  unfold keys_of. rewrite <- list_elem_of_In, list_elem_of_fmap. split.
  - intros [[k' v] [-> Hin]]. apply elem_of_map_to_list in Hin. by exists v.
  - intros [v Hv]. exists (k, v). split; [done|]. by apply elem_of_map_to_list.
Qed.

Lemma In_range_of {V} (it : MapIteration) (m : gmap string V) (k : string) :
  In k (range_of it m) <-> is_Some (m !! k).
Proof.
  unfold range_of. rewrite <- In_keys_of. split; intros Hin.
  - eapply Permutation_in; [apply range_keys_perm | exact Hin].
  - eapply Permutation_in; [apply Permutation_sym, range_keys_perm | exact Hin].
Qed.

Lemma NoDup_keys_of {V} (m : gmap string V) : List.NoDup (keys_of m).
Proof. unfold keys_of. apply NoDup_ListNoDup, NoDup_fst_map_to_list. Qed.

Lemma NoDup_range_of {V} (it : MapIteration) (m : gmap string V) :
  List.NoDup (range_of it m).
Proof.
  unfold range_of. eapply Permutation_NoDup; [|apply (NoDup_keys_of m)].
  apply Permutation_sym, range_keys_perm.
Qed.

(** ** Parsing identifiers *)

Lemma ParseMigrationVersion_range id v :
  ParseMigrationVersion id = Ok v -> 946684800 <= v <= 4102444800.
Proof.
  unfold ParseMigrationVersion.
  destruct (strings.SplitN2 id "_") as [|p0 [|p1 [|? ?]]]; try discriminate.
  destruct (strconv.ParseInt p0) as [w|e]; try discriminate.
  destruct ((w <? 946684800) || (w >? 4102444800)) eqn:Hr; try discriminate.
  intros [= <-]. apply orb_false_iff in Hr as [H1 H2]. Ztests. lia.
Qed.

(** ** The version recomputed after a rollback *)

Lemma maxAppliedVersion_from (ids : list string) (a : Z) :
  let v := fold_left
    (fun maxVersion migID =>
       match ParseMigrationVersion migID with
       | Ok migVersion => if migVersion >? maxVersion then migVersion else maxVersion
       | Err _ => maxVersion
       end) ids a in
  a <= v
  /\ (forall id w, In id ids -> ParseMigrationVersion id = Ok w -> w <= v)
  /\ (v = a \/ exists id, In id ids /\ ParseMigrationVersion id = Ok v).
Proof.
  revert a. induction ids as [|x ids IH]; intros a; simpl.
  - split; [lia|]. split; [tauto|]. by left.
  - set (a' := match ParseMigrationVersion x with
               | Ok migVersion => if migVersion >? a then migVersion else a
               | Err _ => a
               end).
    destruct (IH a') as (Hle & Hall & Hatt).
    assert (Ha : a <= a').
    { unfold a'. destruct (ParseMigrationVersion x) as [w|]; [|lia].
      destruct (w >? a) eqn:E; Ztests; lia. }
    split; [lia|]. split.
    + intros id w [->|Hin] Hp; [|by eapply Hall].
      assert (w <= a'); [|lia].
      unfold a'. rewrite Hp. destruct (w >? a) eqn:E; Ztests; lia.
    + destruct Hatt as [Heq|(id & Hin & Hp)].
      * assert (Hcase : a' = a \/ ParseMigrationVersion x = Ok a').
        { unfold a'. destruct (ParseMigrationVersion x) as [w|] eqn:Hp; [|by left].
          destruct (w >? a) eqn:E; [by right|by left]. }
        destruct Hcase as [Ha'|Hp]; [left; congruence|].
        right. exists x. split; [by left|]. by rewrite Heq.
      * right. exists id. split; [by right|done].
Qed.

Lemma maxAppliedVersion_derived (it : MapIteration) (applied : gmap string bool) :
  version_derived applied (maxAppliedVersion (range_of it applied)).
Proof.
  destruct (maxAppliedVersion_from (range_of it applied) 0) as (_ & Hall & Hatt).
  split.
  - intros id w Hin Hp. eapply Hall; [|exact Hp]. by apply In_range_of.
  - destruct Hatt as [Heq|(id & Hin & Hp)]; [by left|].
    right. exists id. split; [|exact Hp]. by apply In_range_of in Hin.
Qed.

(** The order in which the applied ids are visited does not change the
    recomputed version. *)
Lemma version_derived_unique applied v1 v2 :
  version_derived applied v1 -> version_derived applied v2 -> v1 = v2.
Proof.
  intros [Hle1 Hat1] [Hle2 Hat2].
  destruct Hat1 as [->|(id1 & Hin1 & Hp1)], Hat2 as [->|(id2 & Hin2 & Hp2)].
  - done.
  - specialize (Hle1 _ _ Hin2 Hp2). apply ParseMigrationVersion_range in Hp2. lia.
  - specialize (Hle2 _ _ Hin1 Hp1). apply ParseMigrationVersion_range in Hp1. lia.
  - specialize (Hle1 _ _ Hin2 Hp2). specialize (Hle2 _ _ Hin1 Hp1). lia.
Qed.

Lemma version_derived_empty v : version_derived ∅ v -> v = 0.
Proof.
  intros [_ [->|(id & Hin & _)]]; [done|].
  rewrite lookup_empty in Hin. by destruct Hin.
Qed.

(** ** C7: UpdateAfterRollback *)

(** C7.  On a store whose catalog reads as [s], [UpdateAfterRollback id v
    desc] succeeds and rewrites only the reserved key, with a record [s'] in
    which: [id] is no longer in the applied set (the set is that of [s]
    without [id]); the history is that of [s] followed by one success record
    whose identifier is [id ++ "_rollback"]; the current version is the one
    derived from the remaining applied identifiers (their largest parsed
    version, [0] when the remaining set is empty); the status is clean. *)
Theorem UpdateAfterRollback_recomputes
    (h : Host) (db : DB) (s : SchemaVersion) (id : string) (v : Z) (desc : string) :
  catalog db = Ok s ->
  exists s' record,
    UpdateAfterRollback h id v desc db = (<[SchemaVersionKey := VSchema s']> db, Ok tt)
    /\ AppliedMigrations s' = delete id (AppliedMigrations s)
    /\ AppliedMigrations s' !! id = None
    /\ MigrationHistory s' = MigrationHistory s ++ [record]
    /\ rec_ID record = id +:+ "_rollback"
    /\ rec_Success record = true
    /\ version_derived (AppliedMigrations s') (CurrentVersion s')
    /\ (AppliedMigrations s' = ∅ -> CurrentVersion s' = 0)
    /\ SchemaStatus s' = StatusClean.
Proof.
  intros Hs. unfold UpdateAfterRollback. unfold_M.
  rewrite (GetSchemaVersion_reads _ _ Hs).
  eexists _, _. split; [reflexivity|]. simpl.
  split; [done|]. split; [apply lookup_delete_eq|].
  split; [done|]. split; [done|]. split; [done|].
  split; [apply maxAppliedVersion_derived|]. split; [|done].
  intros Hempty. apply version_derived_empty. rewrite <- Hempty.
  apply maxAppliedVersion_derived.
Qed.

Lemma UpdateAfterRollback_witness :
  exists s' record,
    UpdateAfterRollback host_forward "1754917200_test" 1754917200 "Test migration"
                        one_applied_db =
      (<[SchemaVersionKey := VSchema s']> one_applied_db, Ok tt)
    /\ AppliedMigrations s' = delete "1754917200_test" (AppliedMigrations one_applied)
    /\ AppliedMigrations s' !! "1754917200_test" = None
    /\ MigrationHistory s' = MigrationHistory one_applied ++ [record]
    /\ rec_ID record = "1754917200_test_rollback"
    /\ rec_Success record = true
    /\ version_derived (AppliedMigrations s') (CurrentVersion s')
    /\ (AppliedMigrations s' = ∅ -> CurrentVersion s' = 0)
    /\ SchemaStatus s' = StatusClean.
Proof.
  apply (UpdateAfterRollback_recomputes host_forward one_applied_db one_applied
           "1754917200_test" 1754917200 "Test migration").
  reflexivity.
Defined.

(** ** C2: InitializeFreshDatabase *)

Lemma ID_in_dec (ms : list Migration) (id : string) :
  {m | In m ms /\ ID m = id} + {forall m, In m ms -> ID m <> id}.
Proof.
  induction ms as [|x ms [(m & Hm & Heq)|Hno]].
  - right. intros m [].
  - left. exists m. split; [by right|done].
  - destruct (decide (ID x = id)) as [Heq|Hne].
    + left. exists x. split; [by left|done].
    + right. intros m [<-|Hm]; [done|by apply Hno].
Qed.

Lemma markAllApplied_from (h : Host) (ms : list Migration)
    (v0 : Z) (ap0 : gmap string bool) (h0 : list MigrationRecord) :
  exists v ap,
    fold_left
      (fun '(maxVersion, appliedMigrations, migrationHistory) m =>
         (if Version m >? maxVersion then Version m else maxVersion,
          <[ID m := true]> appliedMigrations,
          migrationHistory ++ [skippedRecord h m]))
      ms (v0, ap0, h0) = (v, ap, h0 ++ map (skippedRecord h) ms)
    /\ (forall m, In m ms -> ap !! ID m = Some true)
    /\ (forall id, (forall m, In m ms -> ID m <> id) -> ap !! id = ap0 !! id)
    /\ v0 <= v
    /\ (forall m, In m ms -> Version m <= v)
    /\ (v = v0 \/ exists m, In m ms /\ Version m = v).
Proof.
  revert v0 ap0 h0. induction ms as [|x ms IH]; intros v0 ap0 h0; simpl.
  - exists v0, ap0. rewrite app_nil_r.
    split; [done|]. split; [tauto|]. split; [done|]. split; [lia|]. split; [tauto|by left].
  - destruct (IH (if Version x >? v0 then Version x else v0)
                 (<[ID x := true]> ap0) (h0 ++ [skippedRecord h x]))
      as (v & ap & Heq & Hin & Hout & Hle & Hall & Hatt).
    exists v, ap. rewrite Heq, <- app_assoc. simpl. split; [done|].
    assert (Hv0 : v0 <= (if Version x >? v0 then Version x else v0)
                  /\ Version x <= (if Version x >? v0 then Version x else v0)).
    { destruct (Version x >? v0) eqn:E; Ztests; lia. }
    split; [|split; [|split; [lia|split]]].
    + intros m [<-|Hm]; [|by apply Hin].
      destruct (ID_in_dec ms (ID x)) as [(m' & Hm' & Heq')|Hno].
      * rewrite <- Heq'. by apply Hin.
      * rewrite Hout; [apply lookup_insert_eq|exact Hno].
    + intros id Hid. rewrite Hout.
      * apply lookup_insert_ne. apply Hid. by left.
      * intros m Hm. apply Hid. by right.
    + intros m [<-|Hm]; [lia|by apply Hall].
    + destruct Hatt as [->|(m & Hm & Hmv)].
      * destruct (Version x >? v0) eqn:E; [|by left].
        right. exists x. split; [by left|done].
      * right. exists m. split; [by right|done].
Qed.

Lemma isDatabaseEmpty_true (db : DB) : isDatabaseEmpty db = true <-> db = ∅.
Proof.
  unfold isDatabaseEmpty. split.
  - destruct (map_to_list db) eqn:E; [|discriminate].
    intros _. by apply map_to_list_empty_iff.
  - intros ->. by rewrite map_to_list_empty.
Qed.

Lemma collectPending_none_applied (r : MigrationRegistry) :
  collectPending r ∅ = ordered r.
Proof.
  unfold collectPending. induction (ordered r) as [|m ms IH]; [done|].
  simpl. unfold lookup_bool at 1. rewrite lookup_empty. simpl. by rewrite IH.
Qed.

(** C2.  [InitializeFreshDatabase] classifies a store three ways.
    (1) The reserved key is present: nothing is written.
    (2) The store has no key at all: the reserved key, and only it, is
        written with a record in which every registered migration is applied
        (and nothing else is), the history is one synthetic success record
        per registered migration, the current version is the largest
        registered version ([0] for an empty registry), the status is clean.
    (3) The reserved key is absent and the store has some key: the zero
        record is written under the reserved key, and every registered
        migration is pending. *)
Theorem InitializeFreshDatabase_classifies
    (h : Host) (r : MigrationRegistry) (db : DB) :
  (is_Some (db !! SchemaVersionKey) -> InitializeFreshDatabase h r db = (db, Ok tt))
  /\ (db = ∅ ->
      exists s,
        InitializeFreshDatabase h r db = (<[SchemaVersionKey := VSchema s]> db, Ok tt)
        /\ (forall m, In m (ordered r) -> AppliedMigrations s !! ID m = Some true)
        /\ (forall id, is_Some (AppliedMigrations s !! id) ->
                       exists m, In m (ordered r) /\ ID m = id)
        /\ MigrationHistory s = map (skippedRecord h) (ordered r)
        /\ (forall m, In m (ordered r) ->
                      exists record, In record (MigrationHistory s)
                                     /\ rec_ID record = ID m /\ rec_Success record = true)
        /\ max_version_of (ordered r) (CurrentVersion s)
        /\ SchemaStatus s = StatusClean)
  /\ (db !! SchemaVersionKey = None -> db <> ∅ ->
      InitializeFreshDatabase h r db = (<[SchemaVersionKey := VSchema zeroSchema]> db, Ok tt)
      /\ CurrentVersion zeroSchema = 0
      /\ AppliedMigrations zeroSchema = ∅
      /\ MigrationHistory zeroSchema = []
      /\ SchemaStatus zeroSchema = StatusClean
      /\ collectPending r (AppliedMigrations zeroSchema) = ordered r).
Proof.
  split; [|split].
  - intros [v Hv]. unfold InitializeFreshDatabase. by rewrite Hv.
  - intros ->. unfold InitializeFreshDatabase. rewrite lookup_empty.
    replace (isDatabaseEmpty ∅) with true by (symmetry; by apply isDatabaseEmpty_true).
    simpl. unfold GetMigrations.
    destruct (ordered r) as [|m0 ms] eqn:Hord.
    + exists zeroSchema. unfold SetSchemaVersion. split; [done|]. simpl.
      split; [tauto|]. split.
      { intros id [? Hid]. by rewrite lookup_empty in Hid. }
      split; [done|]. split; [tauto|]. split; [|done].
      split; [by intros m []|by left].
    + rewrite <- Hord. unfold markAllApplied.
      destruct (markAllApplied_from h (ordered r) 0 ∅ [])
        as (v & ap & Heq & Hin & Hout & Hle & Hall & Hatt).
      rewrite Heq. unfold SetSchemaVersion. eexists. split; [reflexivity|]. simpl.
      split; [exact Hin|]. split.
      { intros id Hid.
        destruct (ID_in_dec (ordered r) id) as [(m & Hm & Heq')|Hno]; [by exists m|].
        rewrite Hout in Hid; [|exact Hno].
        rewrite lookup_empty in Hid. by destruct Hid. }
      split; [done|]. split.
      { intros m Hm. exists (skippedRecord h m). split; [|done]. by apply in_map. }
      split; [|done]. split; [exact Hall|]. destruct Hatt; [by left|by right].
  - intros Hnone Hne. unfold InitializeFreshDatabase. rewrite Hnone.
    destruct (isDatabaseEmpty db) eqn:E.
    + apply isDatabaseEmpty_true in E. contradiction.
    + simpl. unfold SetSchemaVersion. split; [done|].
      repeat (split; [done|]). apply collectPending_none_applied.
Qed.

(** Scenario E, the empty store with three registered migrations. *)
Lemma InitializeFreshDatabase_witness :
  exists s,
    InitializeFreshDatabase host_forward three_registry ∅ =
      (<[SchemaVersionKey := VSchema s]> ∅, Ok tt)
    /\ (forall m, In m (ordered three_registry) -> AppliedMigrations s !! ID m = Some true)
    /\ (forall id, is_Some (AppliedMigrations s !! id) ->
                   exists m, In m (ordered three_registry) /\ ID m = id)
    /\ MigrationHistory s = map (skippedRecord host_forward) (ordered three_registry)
    /\ (forall m, In m (ordered three_registry) ->
                  exists record, In record (MigrationHistory s)
                                 /\ rec_ID record = ID m /\ rec_Success record = true)
    /\ max_version_of (ordered three_registry) (CurrentVersion s)
    /\ SchemaStatus s = StatusClean.
Proof.
  apply (proj1 (proj2 (InitializeFreshDatabase_classifies host_forward three_registry ∅))).
  reflexivity.
Defined.

(** ** C3: which identifiers are accepted *)

(** C3 (the code at the inputs where it departs from the claim).  Whatever
    follows the first underscore, [ParseMigrationVersion] accepts the
    identifier once the field before it is a timestamp in range, and so does
    [Register]: the empty description of ["1754917200_"], the space of
    ["1754917200_test migration"] and the ['@'] of ["1754917200_test@migration"]
    are all accepted. *)
Theorem ParseMigrationVersion_ignores_description (description : string) :
  ParseMigrationVersion ("1754917200_" +:+ description) = Ok 1754917200
  /\ is_ok (Register NewMigrationRegistry (mk ("1754917200_" +:+ description) [] false))
     = true
  /\ ParseMigrationVersion "1754917200_" = Ok 1754917200
  /\ ParseMigrationVersion "1754917200_test migration" = Ok 1754917200
  /\ ParseMigrationVersion "1754917200_test@migration" = Ok 1754917200.
Proof.
  assert (Hp : ParseMigrationVersion ("1754917200_" +:+ description) = Ok 1754917200)
    by reflexivity.
  split; [exact Hp|]. split; [|by repeat split].
  unfold Register. cbn [migrations NewMigrationRegistry ID mk Up Down].
  rewrite lookup_empty.
  replace (String.eqb ("1754917200_" +:+ description) "") with false by reflexivity.
  by rewrite Hp.
Qed.

(** ** C4: PlanUpgradeTo *)

Lemma In_filter_iff {A} (f : A -> bool) (l : list A) (x : A) :
  In x (List.filter f l) <-> In x l /\ f x = true.
Proof. apply filter_In. Qed.

(** C4, counterexamples.  With ["1754917300_b"] applied and the older
    ["1754917200_a"] pending, [PlanUpgrade] plans [a] while
    [PlanUpgradeTo 1754917400] plans nothing; and on the registry of
    TestMigrationOrdering [PlanUpgradeTo 3000000000] lists the migrations by
    version, [third] before the [second] it depends on. *)
Lemma PlanUpgradeTo_not_as_specified :
  ~ PlanUpgradeTo_as_specified host_forward late_registry late_db 1754917400
  /\ ~ PlanUpgradeTo_as_specified host_forward ordering_registry ∅ 3000000000.
Proof.
  split.
  - intros Hclaim.
    destruct (Hclaim _ eq_refl) as [_ Hlt].
    destruct (PlanUpgrade host_forward late_registry late_db) as [db1 [p|e]] eqn:Hp;
      [|by vm_compute in Hp].
    destruct (Hlt ltac:(simpl; lia) p eq_refl) as (pTo & HpTo & Heq).
    assert (Hids : plan_ids (PlanUpgradeTo late_registry 1754917400 late_db)
                   = Ok (map ID (List.filter (fun m => Version m <=? 1754917400)
                                             (plan_Migrations p)))).
    { unfold plan_ids. by rewrite HpTo, Heq. }
    assert (Hp' : p = match (PlanUpgrade host_forward late_registry late_db).2 with
                      | Ok p => p | Err _ => p end) by (by rewrite Hp).
    rewrite Hp' in Hids. vm_compute in Hids. discriminate Hids.
  - intros Hclaim.
    destruct (Hclaim _ eq_refl) as [_ Hlt].
    destruct (PlanUpgrade host_forward ordering_registry ∅) as [db1 [p|e]] eqn:Hp;
      [|by vm_compute in Hp].
    destruct (Hlt ltac:(simpl; lia) p eq_refl) as (pTo & HpTo & Heq).
    assert (Hids : plan_ids (PlanUpgradeTo ordering_registry 3000000000 ∅)
                   = Ok (map ID (List.filter (fun m => Version m <=? 3000000000)
                                             (plan_Migrations p)))).
    { unfold plan_ids. by rewrite HpTo, Heq. }
    assert (Hp' : p = match (PlanUpgrade host_forward ordering_registry ∅).2 with
                      | Ok p => p | Err _ => p end) by (by rewrite Hp).
    rewrite Hp' in Hids. vm_compute in Hids. discriminate Hids.
Qed.

(** C4, amended.  When the current version has reached [v], [PlanUpgradeTo v]
    is a no-op plan with no migrations.  Otherwise its migrations are exactly
    the pending ones (registered and not applied) whose version lies above
    the current version and up to [v]. *)
Theorem PlanUpgradeTo_selects
    (r : MigrationRegistry) (db : DB) (s : SchemaVersion) (v : Z) :
  catalog db = Ok s ->
  exists plan,
    PlanUpgradeTo r v db = (db, Ok plan)
    /\ (CurrentVersion s >= v ->
        plan_Migrations plan = []
        /\ plan_TargetVersion plan = CurrentVersion s
        /\ plan_EstimatedSteps plan = 0)
    /\ (CurrentVersion s < v ->
        forall m, In m (plan_Migrations plan) <->
                  In m (collectPending r (AppliedMigrations s))
                  /\ CurrentVersion s < Version m <= v).
Proof.
  intros Hs. unfold PlanUpgradeTo. unfold_M.
  rewrite (GetSchemaVersion_reads _ _ Hs).
  destruct (CurrentVersion s >=? v) eqn:E; Ztests.
  - eexists. split; [reflexivity|]. simpl. split; [done|]. lia.
  - eexists. split; [reflexivity|]. simpl. split; [lia|].
    intros _ m. unfold collectPending, GetMigrationsInVersionRange.
    rewrite !In_filter_iff, andb_true_iff, Z.geb_leb, !Z.leb_le.
    split; intros H; repeat split; try tauto; lia.
Qed.

Lemma PlanUpgradeTo_witness :
  exists plan,
    PlanUpgradeTo ordering_registry 2000000000 one_applied_db = (one_applied_db, Ok plan)
    /\ (CurrentVersion one_applied >= 2000000000 ->
        plan_Migrations plan = []
        /\ plan_TargetVersion plan = CurrentVersion one_applied
        /\ plan_EstimatedSteps plan = 0)
    /\ (CurrentVersion one_applied < 2000000000 ->
        forall m, In m (plan_Migrations plan) <->
                  In m (collectPending ordering_registry (AppliedMigrations one_applied))
                  /\ CurrentVersion one_applied < Version m <= 2000000000).
Proof.
  apply (PlanUpgradeTo_selects ordering_registry one_applied_db one_applied 2000000000).
  reflexivity.
Defined.

(** ** Running computations on the store *)

Lemma bind_ok {A B} (c : M A) (k : A -> M B) db db' a :
  c db = (db', Ok a) -> bind c k db = k a db'.
Proof. unfold bind. by intros ->. Qed.

Lemma bind_err {A B} (c : M A) (k : A -> M B) db db' e :
  c db = (db', Err e) -> bind c k db = (db', Err e).
Proof. unfold bind. by intros ->. Qed.

Lemma wrapping_ok {A} (wrap : string -> string) (c : M A) db db' a :
  c db = (db', Ok a) -> wrapping wrap c db = (db', Ok a).
Proof. unfold wrapping. by intros ->. Qed.

Lemma wrapping_err {A} (wrap : string -> string) (c : M A) db db' e :
  c db = (db', Err e) -> wrapping wrap c db = (db', Err (wrap e)).
Proof. unfold wrapping. by intros ->. Qed.

(** ** Substrings of messages *)

Lemma append_assoc (a b c : string) : (a +:+ b) +:+ c = a +:+ (b +:+ c).
Proof.
  induction a as [|x a IH]; [done|].
  change ((String x a +:+ b) +:+ c) with (String x ((a +:+ b) +:+ c)).
  change (String x a +:+ b +:+ c) with (String x (a +:+ b +:+ c)).
  by rewrite IH.
Qed.

Lemma contains_here (sub post : string) : contains (sub +:+ post) sub.
Proof. by exists "", post. Qed.

Lemma contains_after (a b sub : string) : contains b sub -> contains (a +:+ b) sub.
Proof.
  intros (pre & post & ->). exists (a +:+ pre), post. by rewrite append_assoc.
Qed.

(** ** C6: startup on an interrupted migration that is not rerunnable *)

Lemma PlanUpgrade_reads (h : Host) (r : MigrationRegistry) (db : DB) :
  PlanUpgrade h r db = (db, (PlanUpgrade h r db).2).
Proof.
  unfold PlanUpgrade. unfold_M. unfold GetSchemaVersion.
  destruct (db !! SchemaVersionKey) as [[s|b]|]; simpl; try done;
    by destruct (GetPendingMigrations _ _ _).
Qed.

Lemma catalog_not_clean_present (db : DB) (s : SchemaVersion) :
  catalog db = Ok s -> SchemaStatus s <> StatusClean ->
  db !! SchemaVersionKey = Some (VSchema s).
Proof.
  unfold catalog, GetSchemaVersion.
  destruct (db !! SchemaVersionKey) as [[s'|b]|]; simpl; try congruence.
  intros [= <-]. by intros [].
Qed.

(** C6.  When the catalog of the store is in status migrating and the first
    migration of the pending plan is not rerunnable,
    [CheckAndRunStartupMigrations] returns an error whose message contains
    "not marked as rerunnable", and the store it leaves is the store it
    found: the catalog is unchanged and its status is still migrating. *)
Theorem startup_refuses_interrupted_non_rerunnable
    (h : Host) (r : MigrationRegistry) (dbPath : string) (opts : StartupOptions)
    (db : DB) (s : SchemaVersion) (plan : ExecutionPlan)
    (stuck : Migration) (rest : list Migration) :
  catalog db = Ok s ->
  SchemaStatus s = StatusMigrating ->
  (PlanUpgrade h r db).2 = Ok plan ->
  plan_Migrations plan = stuck :: rest ->
  Rerunnable stuck = false ->
  exists msg,
    CheckAndRunStartupMigrations h r dbPath opts db = (db, Err msg)
    /\ contains msg "not marked as rerunnable"
    /\ catalog db = Ok s
    /\ SchemaStatus s = StatusMigrating.
Proof.
  intros Hs Hst Hplan Hms Hrr.
  assert (Hkey : db !! SchemaVersionKey = Some (VSchema s)).
  { apply catalog_not_clean_present; [done|]. by rewrite Hst. }
  assert (Hinit : InitializeFreshDatabase h r db = (db, Ok tt)).
  { unfold InitializeFreshDatabase. by rewrite Hkey. }
  assert (Hget : GetSchemaVersion db = (db, Ok s)) by by apply GetSchemaVersion_reads.
  assert (Hup : PlanUpgrade h r db = (db, Ok plan)).
  { by rewrite PlanUpgrade_reads, Hplan. }
  eexists. split; [|split; [|done]].
  - unfold CheckAndRunStartupMigrations.
    erewrite bind_ok; [|by apply wrapping_ok].
    erewrite bind_ok; [|by apply wrapping_ok].
    rewrite Hst. change (String.eqb StatusMigrating StatusMigrating) with true. cbv iota.
    erewrite bind_err; [reflexivity|].
    erewrite bind_err; [reflexivity|].
    unfold attemptMigrationRecovery.
    erewrite bind_ok; [|by apply wrapping_ok].
    erewrite bind_ok; [|by apply wrapping_ok].
    rewrite Hms, Hrr. reflexivity.
  - do 5 apply contains_after.
    change (contains
      ("This migration is " +:+ "not marked as rerunnable" +:+
       (" and requires manual intervention. " +:+ "Options:" +:+ newline
        +:+ "  1. Run '" +:+ cliNameOf opts
        +:+ " validate' to check if migration completed successfully" +:+ newline
        +:+ "  2. Run '" +:+ cliNameOf opts
        +:+ " force-clean' to force reset (use with caution)" +:+ newline
        +:+ "  3. Restore from backup if available"))
      "not marked as rerunnable").
    apply contains_after, contains_here.
Qed.

(** Scenario B. *)
Lemma startup_refuses_witness :
  exists msg,
    CheckAndRunStartupMigrations host_forward interrupted_registry "/data/db"
                                 startup_options interrupted_db
      = (interrupted_db, Err msg)
    /\ contains msg "not marked as rerunnable"
    /\ catalog interrupted_db = Ok (set_Status zeroSchema StatusMigrating)
    /\ SchemaStatus (set_Status zeroSchema StatusMigrating) = StatusMigrating.
Proof.
  eapply (startup_refuses_interrupted_non_rerunnable host_forward interrupted_registry
            "/data/db" startup_options interrupted_db
            (set_Status zeroSchema StatusMigrating) _ _ _).
  - reflexivity.
  - reflexivity.
  - vm_compute. reflexivity.
  - reflexivity.
  - reflexivity.
Defined.

(** ** C10: what a rerun leaves in the applied set *)

Lemma bind_inv_ok {A B} (c : M A) (k : A -> M B) db db' b :
  bind c k db = (db', Ok b) ->
  exists db1 a, c db = (db1, Ok a) /\ k a db1 = (db', Ok b).
Proof.
  unfold bind. destruct (c db) as [db1 [a|e]]; [|discriminate].
  intros Hk. by exists db1, a.
Qed.

Lemma wrapping_inv_ok {A} (wrap : string -> string) (c : M A) db db' a :
  wrapping wrap c db = (db', Ok a) -> c db = (db', Ok a).
Proof. unfold wrapping. destruct (c db) as [db1 [a'|e]]; congruence. Qed.

Lemma backupBefore_inv_ok e wanted description failure db db' :
  backupBefore e wanted description failure db = (db', Ok tt) -> db' = db.
Proof.
  unfold backupBefore. destruct (backupManager e) as [bm|]; [|congruence].
  destruct (enableBackup e && wanted); [|congruence].
  destruct (CreateBackup bm db description); congruence.
Qed.

Lemma ValidateSchemaState_reads (h : Host) (db : DB) :
  (ValidateSchemaState h db).1 = db.
Proof.
  unfold ValidateSchemaState. unfold_M. unfold GetSchemaVersion.
  destruct (db !! SchemaVersionKey) as [[s|b]|]; simpl; try done;
  repeat match goal with
         | |- context [if ?c then _ else _] => destruct c; simpl; try done
         | |- context [match List.find ?f ?l with _ => _ end] =>
             destruct (List.find f l); simpl; try done
         end.
Qed.

Lemma orMarkFailed_inv_ok h step failedID failedDescription markFailure report db db' :
  orMarkFailed h step failedID failedDescription markFailure report db = (db', Ok tt) ->
  step db = (db', Ok tt).
Proof.
  unfold orMarkFailed. destruct (step db) as [db1 [[]|err]]; [congruence|].
  destruct (MarkMigrationFailed _ _ _ _ _) as [db2 [[]|markErr]]; discriminate.
Qed.

Lemma executeSingleMigration_preserves
    (e : MigrationEngine) (m : Migration) (up : bool) (db : DB) :
  preserves_catalog (if up then Up m else Down m) ->
  preserves_catalog (Validate m) ->
  (executeSingleMigration e m up db).1 !! SchemaVersionKey = db !! SchemaVersionKey.
Proof.
  intros Hf Hv. unfold executeSingleMigration.
  destruct (if up then Up m else Down m) as [f|] eqn:Ef; [|done].
  unfold bind, wrapping, ret.
  specialize (Hf f eq_refl db).
  destruct (f db) as [db1 [[]|err]]; simpl in *; [|done].
  destruct (Validate m) as [validate|]; [|done].
  specialize (Hv validate eq_refl db1).
  destruct (validate db1) as [db2 [[]|err]]; simpl in *; congruence.
Qed.

Lemma cut_append (sep : ascii) (s suffix before after : string) :
  strings.cut sep s = Some (before, after) ->
  strings.cut sep (s +:+ suffix) = Some (before, after +:+ suffix).
Proof.
  revert before after. induction s as [|c s IH]; intros before after; [discriminate|].
  change (String c s +:+ suffix) with (String c (s +:+ suffix)).
  cbn [strings.cut]. destruct (Ascii.eqb c sep); [by intros [= <- <-]|].
  destruct (strings.cut sep s) as [[b a]|]; [|discriminate].
  intros [= <- <-]. by rewrite (IH b a eq_refl).
Qed.

(** An identifier and the same identifier with a suffix parse to the same
    version: only the field before the first underscore is read. *)
Lemma ParseMigrationVersion_suffix (id suffix : string) (v : Z) :
  ParseMigrationVersion id = Ok v -> ParseMigrationVersion (id +:+ suffix) = Ok v.
Proof.
  unfold ParseMigrationVersion, strings.SplitN2.
  destruct (strings.cut "_" id) as [[before after]|] eqn:Hcut; [|discriminate].
  by rewrite (cut_append _ _ suffix _ _ Hcut).
Qed.

(** C10.  Take a rerun plan for a registered migration [m] that is applied,
    on a catalog whose current version is derived from its applied set, with
    callbacks that leave the reserved key alone.  When [ExecutePlan] (not a
    dry run) succeeds, the persisted applied set is the one before with the
    key [ID m ++ "_rerun"] added: it holds both that key and [ID m].  The
    current version is unchanged, the suffixed identifier parsing to the
    version of [m]. *)
Theorem rerun_adds_applied_key
    (h : Host) (e : MigrationEngine) (plan : ExecutionPlan) (m : Migration)
    (db db' : DB) (s : SchemaVersion) :
  dryRun e = false ->
  plan_Type plan = ExecutionTypeRerun ->
  plan_Migrations plan = [m] ->
  ParseMigrationVersion (ID m) = Ok (Version m) ->
  catalog db = Ok s ->
  lookup_bool (AppliedMigrations s) (ID m) = true ->
  version_derived (AppliedMigrations s) (CurrentVersion s) ->
  preserves_catalog (Down m) ->
  preserves_catalog (Up m) ->
  preserves_catalog (Validate m) ->
  ExecutePlan h e plan db = (db', Ok tt) ->
  exists s',
    catalog db' = Ok s'
    /\ AppliedMigrations s' = <[ID m +:+ "_rerun" := true]> (AppliedMigrations s)
    /\ lookup_bool (AppliedMigrations s') (ID m +:+ "_rerun") = true
    /\ lookup_bool (AppliedMigrations s') (ID m) = true
    /\ CurrentVersion s' = CurrentVersion s
    /\ ParseMigrationVersion (ID m +:+ "_rerun") = Ok (Version m).
Proof.
  intros Hdry Hty Hms Hparse Hs Happlied Hinv Hdown Hup Hval Hrun.
  unfold ExecutePlan in Hrun. rewrite Hty in Hrun.
  change (String.eqb ExecutionTypeRerun ExecutionTypeUpgrade) with false in Hrun.
  change (String.eqb ExecutionTypeRerun ExecutionTypeDowngrade) with false in Hrun.
  change (String.eqb ExecutionTypeRerun ExecutionTypeRerun) with true in Hrun.
  cbv iota in Hrun. unfold executeRerun in Hrun. rewrite Hms, Hdry in Hrun.
  apply bind_inv_ok in Hrun as (db1 & [] & Hbackup & Hrun).
  apply backupBefore_inv_ok in Hbackup as ->.
  apply bind_inv_ok in Hrun as (db2 & [] & Hvalid & Hrun).
  apply wrapping_inv_ok in Hvalid.
  assert (db2 = db) as ->.
  { rewrite <- (ValidateSchemaState_reads h db). by rewrite Hvalid. }
  apply bind_inv_ok in Hrun as (db3 & [] & Hstart & Hrun).
  apply wrapping_inv_ok in Hstart.
  unfold MarkMigrationStarted in Hstart. unfold_M.
  rewrite (GetSchemaVersion_reads _ _ Hs) in Hstart.
  unfold SetSchemaVersion in Hstart. injection Hstart as <-.
  apply bind_inv_ok in Hrun as (db4 & [] & Hd & Hrun).
  apply orMarkFailed_inv_ok in Hd.
  apply bind_inv_ok in Hrun as (db5 & [] & Hu & Hrun).
  apply orMarkFailed_inv_ok in Hu.
  apply wrapping_inv_ok in Hrun.
  assert (Hcat5 : catalog db5 = Ok (set_Status s StatusMigrating)).
  { pose proof (executeSingleMigration_preserves e m true db4 Hup Hval) as H5.
    pose proof (executeSingleMigration_preserves e m false
                  (<[SchemaVersionKey:=VSchema (set_Status s StatusMigrating)]> db)
                  Hdown Hval) as H4.
    rewrite Hu in H5. rewrite Hd in H4. simpl in H4, H5.
    rewrite <- (catalog_insert (set_Status s StatusMigrating) db).
    apply catalog_frame. by rewrite H5, H4. }
  unfold UpdateSchemaAfterMigration in Hrun. unfold_M.
  rewrite (GetSchemaVersion_reads _ _ Hcat5) in Hrun.
  unfold SetSchemaVersion in Hrun. injection Hrun as <-.
  eexists. split; [apply catalog_insert|]. simpl.
  assert (Hle : Version m <= CurrentVersion s).
  { destruct Hinv as [Hle _]. apply (Hle (ID m)); [|done].
    unfold lookup_bool in Happlied. by destruct (AppliedMigrations s !! ID m). }
  split; [done|]. split.
  { unfold lookup_bool. by rewrite lookup_insert_eq. }
  split.
  { unfold lookup_bool in *. rewrite lookup_insert.
    by destruct (decide (ID m +:+ "_rerun" = ID m)). }
  split.
  { destruct (Version m >? CurrentVersion s) eqn:E; Ztests; [lia|done]. }
  by apply ParseMigrationVersion_suffix.
Qed.

Lemma rerun_adds_applied_key_witness :
  exists s',
    catalog (ExecutePlan host_forward rerun_engine rerun_plan one_applied_db).1 = Ok s'
    /\ AppliedMigrations s'
       = <[ID rerun_migration +:+ "_rerun" := true]> (AppliedMigrations one_applied)
    /\ lookup_bool (AppliedMigrations s') (ID rerun_migration +:+ "_rerun") = true
    /\ lookup_bool (AppliedMigrations s') (ID rerun_migration) = true
    /\ CurrentVersion s' = CurrentVersion one_applied
    /\ ParseMigrationVersion (ID rerun_migration +:+ "_rerun") = Ok (Version rerun_migration).
Proof.
  apply (rerun_adds_applied_key host_forward rerun_engine rerun_plan rerun_migration
           one_applied_db _ one_applied).
  - reflexivity.
  - reflexivity.
  - reflexivity.
  - reflexivity.
  - reflexivity.
  - reflexivity.
  - split.
    + intros id w [b Hb] Hp. vm_compute in Hb.
      destruct (decide (id = "1754917200_test")) as [->|Hne].
      * vm_compute in Hp. injection Hp as <-. simpl. lia.
      * exfalso. revert Hb. change (({[ "1754917200_test" := true ]} : gmap string bool) !! id = Some b -> False).
        by rewrite lookup_singleton_ne.
    + right. exists "1754917200_test". split; [by exists true|reflexivity].
  - intros g [= <-] db. reflexivity.
  - intros g [= <-] db. reflexivity.
  - intros g [=].
  - vm_compute. reflexivity.
Defined.

(** ** Registries built by Register *)

Lemma insert_cons_Permutation {A} (l : list A) (j : nat) (a b : A) :
  l !! j = Some b -> b :: <[j := a]> l ≡ₚ a :: l.
Proof.
  revert j. induction l as [|x l IH]; intros [|j] Hj; simplify_eq/=.
  - apply perm_swap.
  - rewrite perm_swap, (IH j Hj). apply perm_swap.
Qed.

Lemma list_swap_Permutation {A} (l : list A) (i j : nat) (a b : A) :
  l !! i = Some a -> l !! j = Some b -> <[i := b]> (<[j := a]> l) ≡ₚ l.
Proof.
  revert i j. induction l as [|x l IH]; intros [|i] [|j] Hi Hj; simplify_eq/=.
  - done.
  - by apply insert_cons_Permutation.
  - by apply insert_cons_Permutation.
  - by rewrite (IH i j).
Qed.

Lemma sink_Permutation (i : nat) (l : list Migration) : sink i l ≡ₚ l.
Proof.
  revert l. induction i as [|j IH]; intros l; simpl; [done|].
  destruct (l !! S j) as [a|] eqn:Ha; [|done].
  destruct (l !! j) as [b|] eqn:Hb; [|done].
  destruct (Version a <? Version b); [|done].
  rewrite IH. by apply list_swap_Permutation.
Qed.

Lemma Register_inv (r r' : MigrationRegistry) (m : Migration) :
  Register r m = Ok r' ->
  exists v,
    migrations r !! ID m = None
    /\ ParseMigrationVersion (ID m) = Ok v
    /\ migrations r' = <[ID m := set_Version m v]> (migrations r)
    /\ ordered r' ≡ₚ set_Version m v :: ordered r.
Proof.
  unfold Register. destruct (migrations r !! ID m) eqn:Hfree; [discriminate|].
  destruct (String.eqb (ID m) ""); [discriminate|].
  destruct (Up m); [|discriminate]. destruct (Down m); [|discriminate].
  destruct (ParseMigrationVersion (ID m)) as [v|e] eqn:Hp; [|discriminate].
  intros [= <-]. exists v. simpl. split; [done|]. split; [done|]. split; [done|].
  rewrite sink_Permutation. apply Permutation_sym, Permutation_cons_append.
Qed.

(** In a registry built by [Register]: the identifiers are pairwise distinct,
    the map holds exactly the listed migrations, and each version is the one
    parsed from the identifier. *)
Lemma registered_wf (r : MigrationRegistry) :
  registered r ->
  List.NoDup (map ID (ordered r))
  /\ (forall id, is_Some (migrations r !! id) <-> In id (map ID (ordered r)))
  /\ (forall m, In m (ordered r) -> ParseMigrationVersion (ID m) = Ok (Version m)).
Proof.
  induction 1 as [|r m r' Hr (Hnd & Hmap & Hver) Hreg].
  - simpl. split; [constructor|]. split; [|tauto].
    intros id. rewrite lookup_empty. split; [by intros [? ?]|tauto].
  - apply Register_inv in Hreg as (v & Hfree & Hp & Hm' & Hperm).
    assert (Hids : map ID (ordered r') ≡ₚ ID m :: map ID (ordered r)).
    { by rewrite Hperm. }
    split; [|split].
    + eapply Permutation_NoDup; [apply Permutation_sym, Hids|].
      constructor; [|done]. rewrite <- Hmap, Hfree. by intros [? ?].
    + intros id. rewrite Hm'. split.
      * intros Hsome. eapply Permutation_in; [apply Permutation_sym, Hids|].
        destruct (decide (ID m = id)) as [->|Hne]; [by left|].
        right. apply Hmap. by rewrite lookup_insert_ne in Hsome.
      * intros Hin. eapply Permutation_in in Hin; [|apply Hids].
        destruct Hin as [<-|Hin]; [by rewrite lookup_insert_eq|].
        destruct (decide (ID m = id)) as [->|Hne]; [by rewrite lookup_insert_eq|].
        rewrite lookup_insert_ne by done. by apply Hmap.
    + intros m' Hin. eapply Permutation_in in Hin; [|apply Hperm].
      destruct Hin as [<-|Hin]; [done|by apply Hver].
Qed.

(** ** C8: the current version is derived from the applied set *)

Lemma version_derived_zero : version_derived ∅ 0.
Proof. split; [|by left]. intros id w [? Hin]. by rewrite lookup_empty in Hin. Qed.

Lemma version_derived_insert applied current id v :
  version_derived applied current ->
  ParseMigrationVersion id = Ok v ->
  version_derived (<[id := true]> applied) (if v >? current then v else current).
Proof.
  intros [Hle Hatt] Hp. pose proof (ParseMigrationVersion_range _ _ Hp) as Hrange.
  split.
  - intros id' w Hin Hp'. destruct (decide (id = id')) as [<-|Hne].
    + assert (w = v) as -> by congruence. destruct (v >? current) eqn:E; Ztests; lia.
    + rewrite lookup_insert_ne in Hin by done. specialize (Hle _ _ Hin Hp').
      destruct (v >? current) eqn:E; Ztests; lia.
  - destruct (v >? current) eqn:E; Ztests.
    + right. exists id. split; [by rewrite lookup_insert_eq|done].
    + destruct Hatt as [->|(id' & Hin & Hp')]; [lia|].
      right. exists id'. split; [|done].
      destruct (decide (id = id')) as [<-|Hne]; [by rewrite lookup_insert_eq|].
      by rewrite lookup_insert_ne.
Qed.

Lemma version_derived_fresh (h : Host) (r : MigrationRegistry) :
  registered r ->
  forall v ap hist, markAllApplied h (ordered r) = (v, ap, hist) -> version_derived ap v.
Proof.
  intros Hr v ap hist Heq. destruct (registered_wf r Hr) as (_ & _ & Hver).
  unfold markAllApplied in Heq.
  destruct (markAllApplied_from h (ordered r) 0 ∅ [])
    as (v' & ap' & Heq' & Hin & Hout & _ & Hall & Hatt).
  rewrite Heq' in Heq. injection Heq as <- <- _. split.
  - intros id w Hsome Hp.
    destruct (ID_in_dec (ordered r) id) as [(m & Hm & <-)|Hno].
    + rewrite (Hver m Hm) in Hp. injection Hp as <-. by apply Hall.
    + rewrite (Hout id Hno), lookup_empty in Hsome. by destruct Hsome.
  - destruct Hatt as [->|(m & Hm & <-)]; [by left|].
    right. exists (ID m). split; [by rewrite (Hin m Hm)|by apply Hver].
Qed.

Lemma catalog_step_invariant (db db' : DB) :
  catalog_step db db' ->
  (exists s, catalog db = Ok s /\ version_derived (AppliedMigrations s) (CurrentVersion s)) ->
  exists s', catalog db' = Ok s'
             /\ version_derived (AppliedMigrations s') (CurrentVersion s').
Proof.
  intros Hstep (s & Hs & Hinv). pose proof (GetSchemaVersion_reads _ _ Hs) as Hget.
  destruct Hstep.
  - unfold InitializeFreshDatabase.
    destruct (db !! SchemaVersionKey) eqn:Hkey; [by exists s|].
    destruct (isDatabaseEmpty db); simpl.
    + unfold GetMigrations. destruct (ordered r) as [|m0 ms] eqn:Hord.
      * eexists. split; [apply catalog_insert|]. apply version_derived_zero.
      * rewrite <- Hord.
        destruct (markAllApplied h (ordered r)) as [[v ap] hist] eqn:Hmark.
        eexists. split; [apply catalog_insert|]. simpl.
        by eapply version_derived_fresh.
    + eexists. split; [apply catalog_insert|]. apply version_derived_zero.
  - unfold UpdateSchemaAfterMigration. unfold_M. rewrite Hget.
    eexists. split; [apply catalog_insert|]. simpl.
    by apply version_derived_insert.
  - unfold MarkMigrationStarted. unfold_M. rewrite Hget.
    eexists. split; [apply catalog_insert|]. done.
  - unfold MarkRollbackStarted. unfold_M. rewrite Hget.
    eexists. split; [apply catalog_insert|]. done.
  - unfold MarkMigrationFailed. unfold_M. rewrite Hget.
    eexists. split; [apply catalog_insert|]. done.
  - unfold UpdateAfterRollback. unfold_M. rewrite Hget.
    eexists. split; [apply catalog_insert|]. simpl.
    apply maxAppliedVersion_derived.
  - unfold ForceCleanState. unfold_M. rewrite Hget.
    eexists. split; [apply catalog_insert|]. done.
  - exists s. split; [|done]. rewrite <- Hs. apply catalog_frame.
    by rewrite lookup_insert_ne.
  - exists s. split; [|done]. rewrite <- Hs. apply catalog_frame.
    by rewrite lookup_delete_ne.
Qed.

(** C8.  In every store reached from one without the reserved key (the zero
    record) through [InitializeFreshDatabase] with a registry built by
    [Register], [UpdateSchemaAfterMigration] called with the version parsed
    from the identifier, [MarkMigrationStarted], [MarkRollbackStarted],
    [MarkMigrationFailed], [UpdateAfterRollback], [ForceCleanState] and
    writes of user keys, the catalog is readable and its current version is
    the largest version parsed from the applied identifiers, [0] when the
    applied set is empty. *)
Theorem version_derivation_invariant (db : DB) :
  reachable db ->
  exists s,
    catalog db = Ok s
    /\ version_derived (AppliedMigrations s) (CurrentVersion s)
    /\ (AppliedMigrations s = ∅ -> CurrentVersion s = 0).
Proof.
  intros Hreach.
  assert (Hinv : exists s, catalog db = Ok s
                   /\ version_derived (AppliedMigrations s) (CurrentVersion s)).
  { induction Hreach as [db Hnone|db db' _ IH Hstep].
    - exists zeroSchema. split; [by apply catalog_absent|apply version_derived_zero].
    - by eapply catalog_step_invariant. }
  destruct Hinv as (s & Hs & Hinv). exists s. split; [done|]. split; [done|].
  intros Hempty. rewrite Hempty in Hinv. by apply version_derived_empty.
Qed.

Lemma register_all_registered (ms : list Migration) (r0 r : MigrationRegistry) :
  registered r0 -> fold_result Register ms r0 = Ok r -> registered r.
Proof.
  revert r0. induction ms as [|m ms IH]; intros r0 Hr0; simpl.
  - by intros [= <-].
  - destruct (Register r0 m) as [r1|e] eqn:Hreg; [|discriminate].
    apply IH. by eapply registered_add.
Qed.

Lemma registry_of_registered (ms : list Migration) : registered (registry_of ms).
Proof.
  unfold registry_of, register_all.
  destruct (fold_result Register ms NewMigrationRegistry) as [r|e] eqn:Hall.
  - eapply register_all_registered; [apply registered_new|exact Hall].
  - apply registered_new.
Qed.

Lemma version_derivation_witness :
  exists s,
    catalog sample_run = Ok s
    /\ version_derived (AppliedMigrations s) (CurrentVersion s)
    /\ (AppliedMigrations s = ∅ -> CurrentVersion s = 0).
Proof.
  apply (version_derivation_invariant sample_run).
  unfold sample_run. cbv zeta.
  eapply reachable_step; [|apply step_UpdateAfterRollback].
  eapply reachable_step; [|apply step_MarkRollbackStarted].
  eapply reachable_step; [|apply step_ForceCleanState].
  eapply reachable_step; [|apply step_MarkMigrationFailed].
  eapply reachable_step; [|apply step_UpdateSchemaAfterMigration; reflexivity].
  eapply reachable_step; [|apply step_UpdateSchemaAfterMigration; reflexivity].
  eapply reachable_step; [|apply step_MarkMigrationStarted].
  eapply reachable_step;
    [|apply step_InitializeFreshDatabase, registry_of_registered].
  apply reachable_start. reflexivity.
Defined.

(** ** sortReady *)

Lemma selectMin_length x rest : length (selectMin x rest).2 = length rest.
Proof.
  revert x. induction rest as [|y ys IH]; intros x; simpl; [done|].
  destruct (Version x >? Version y).
  - specialize (IH y). destruct (selectMin y ys). simpl in *. by rewrite IH.
  - specialize (IH x). destruct (selectMin x ys). simpl in *. by rewrite IH.
Qed.

Lemma selectMin_Permutation x rest :
  (selectMin x rest).1 :: (selectMin x rest).2 ≡ₚ x :: rest.
Proof.
  revert x. induction rest as [|y ys IH]; intros x; simpl; [done|].
  destruct (Version x >? Version y).
  - specialize (IH y). destruct (selectMin y ys) as [m ys']. simpl in *.
    by rewrite perm_swap, IH.
  - specialize (IH x). destruct (selectMin x ys) as [m ys']. simpl in *.
    rewrite perm_swap, IH. apply perm_swap.
Qed.

Lemma selectMin_least x rest :
  Forall (version_le (selectMin x rest).1) (x :: rest).
Proof.
  revert x. induction rest as [|y ys IH]; intros x; simpl.
  - repeat constructor. unfold version_le. lia.
  - destruct (Version x >? Version y) eqn:E; Ztests.
    + specialize (IH y). destruct (selectMin y ys) as [m ys']. simpl in *.
      inversion IH as [|? ? Hy Hys]; subst.
      constructor; [unfold version_le in *; lia|]. by constructor.
    + specialize (IH x). destruct (selectMin x ys) as [m ys']. simpl in *.
      inversion IH as [|? ? Hx Hys]; subst.
      constructor; [done|]. constructor; [unfold version_le in *; lia|done].
Qed.

(** The inner loop for slot [i = length pre], from [j = i + 1 + length seen]. *)
Lemma inner_loop_selectMin (pre seen todo : list Migration) (x : Migration) :
  fold_left (fun ready j => swapIfGreater (length pre) j ready)
            (seq (length pre + 1 + length seen) (length todo))
            (pre ++ x :: seen ++ todo)
  = pre ++ (selectMin x todo).1 :: seen ++ (selectMin x todo).2.
Proof.
  revert x seen. induction todo as [|y ys IH]; intros x seen; [done|].
  cbn [length seq fold_left selectMin].
  assert (Hi : (pre ++ x :: seen ++ y :: ys) !! length pre = Some x).
  { by apply list_lookup_middle. }
  assert (Hj : (pre ++ x :: seen ++ y :: ys) !! (length pre + 1 + length seen)%nat = Some y).
  { rewrite lookup_app_r by lia.
    replace (length pre + 1 + length seen - length pre)%nat with (S (length seen)) by lia.
    simpl. by apply list_lookup_middle. }
  unfold swapIfGreater at 2. rewrite Hi, Hj.
  replace (S (length pre + 1 + length seen))
    with (length pre + 1 + length (seen ++ [x]))%nat
    by (rewrite length_app; simpl; lia).
  destruct (Version x >? Version y).
  - assert (Hswap : <[length pre := y]>
                      (<[(length pre + 1 + length seen)%nat := x]>
                         (pre ++ x :: seen ++ y :: ys))
                    = pre ++ y :: (seen ++ [x]) ++ ys).
    { rewrite insert_app_r_alt by lia.
      replace (length pre + 1 + length seen - length pre)%nat with (S (length seen)) by lia.
      simpl. rewrite (insert_app_r_alt seen) by lia.
      rewrite Nat.sub_diag. simpl.
      rewrite insert_app_r_alt by lia. rewrite Nat.sub_diag. simpl.
      by rewrite <- app_assoc. }
    rewrite Hswap, (IH y (seen ++ [x])).
    destruct (selectMin y ys) as [m ys']. simpl. by rewrite <- app_assoc.
  - replace (length pre + 1 + length (seen ++ [x]))%nat
      with (length pre + 1 + length (seen ++ [y]))%nat
      by (rewrite !length_app; simpl; lia).
    replace (pre ++ x :: seen ++ y :: ys) with (pre ++ x :: (seen ++ [y]) ++ ys)
      by (by rewrite <- app_assoc).
    rewrite (IH x (seen ++ [y])).
    destruct (selectMin x ys) as [m ys']. simpl. by rewrite <- app_assoc.
Qed.

Lemma outer_loop_selectionSort (n : nat) (pre suf : list Migration) :
  n = (length pre + length suf)%nat ->
  fold_left
    (fun ready i =>
       fold_left (fun ready j => swapIfGreater i j ready)
                 (seq (i + 1) (n - (i + 1))) ready)
    (seq (length pre) (length suf - 1)) (pre ++ suf)
  = pre ++ selectionSort (length suf) suf.
Proof.
  remember (length suf) as k eqn:Hk. revert pre suf Hk.
  induction k as [|k IH]; intros pre suf Hk Hn.
  - by destruct suf.
  - destruct suf as [|x rest]; [discriminate|]. simpl in Hk. injection Hk as Hk.
    destruct k as [|k'].
    + destruct rest; [reflexivity|discriminate].
    + replace (S (S k') - 1)%nat with (S k') by lia.
      cbn [seq fold_left selectionSort].
      replace (n - (length pre + 1))%nat with (length rest) by lia.
      pose proof (inner_loop_selectMin pre [] rest x) as Hinner.
      cbn [length app] in Hinner. rewrite Nat.add_0_r in Hinner.
      rewrite Hinner. clear Hinner.
      pose proof (selectMin_length x rest) as Hlen.
      destruct (selectMin x rest) as [m rest']. cbn [fst snd] in *.
      replace (pre ++ m :: rest') with ((pre ++ [m]) ++ rest') by (by rewrite <- app_assoc).
      replace (S (length pre)) with (length (pre ++ [m]))
        by (rewrite length_app; simpl; lia).
      replace k' with (S k' - 1)%nat at 1 by lia.
      rewrite (IH (pre ++ [m]) rest') by (rewrite ?length_app; simpl; lia).
      rewrite <- app_assoc. reflexivity.
Qed.

(** The nested loops compute the selection sort of [ready]. *)
Lemma sortReady_selectionSort (ready : list Migration) :
  sortReady ready = selectionSort (length ready) ready.
Proof.
  unfold sortReady. apply (outer_loop_selectionSort (length ready) [] ready). done.
Qed.

Lemma selectionSort_Permutation (passes : nat) (l : list Migration) :
  selectionSort passes l ≡ₚ l.
Proof.
  revert l. induction passes as [|p IH]; intros [|x rest]; simpl; try done.
  pose proof (selectMin_Permutation x rest) as Hperm.
  destruct (selectMin x rest) as [m rest']. simpl in Hperm.
  by rewrite IH.
Qed.

Lemma selectionSort_sorted (passes : nat) (l : list Migration) :
  (length l <= passes)%nat -> StronglySorted version_le (selectionSort passes l).
Proof.
  revert l. induction passes as [|p IH]; intros [|x rest] Hlen; simpl in *;
    try constructor; try lia.
  pose proof (selectMin_Permutation x rest) as Hperm.
  pose proof (selectMin_least x rest) as Hleast.
  pose proof (selectMin_length x rest) as Hl.
  destruct (selectMin x rest) as [m rest']. simpl in *.
  constructor; [apply IH; lia|].
  rewrite selectionSort_Permutation.
  rewrite <- Hperm in Hleast. by inversion Hleast.
Qed.

Lemma sortReady_Permutation (ready : list Migration) : sortReady ready ≡ₚ ready.
Proof. rewrite sortReady_selectionSort. apply selectionSort_Permutation. Qed.

Lemma sortReady_sorted (ready : list Migration) :
  StronglySorted version_le (sortReady ready).
Proof. rewrite sortReady_selectionSort. by apply selectionSort_sorted. Qed.

(** The migration the loop takes next has the smallest version of [ready]. *)
Lemma sortReady_head_least (ready rest : list Migration) (current : Migration) :
  sortReady ready = current :: rest ->
  forall m, In m ready -> Version current <= Version m.
Proof.
  intros Hsort m Hin. pose proof (sortReady_sorted ready) as Hs.
  rewrite Hsort in Hs. inversion Hs as [|? ? _ Hall]; subst.
  assert (Hin' : In m (current :: rest)).
  { rewrite <- Hsort. eapply Permutation_in; [|exact Hin].
    apply Permutation_sym, sortReady_Permutation. }
  destruct Hin' as [<-|Hin']; [lia|].
  rewrite List.Forall_forall in Hall. by apply Hall.
Qed.

(** ** topologicalSort: the three maps *)

Lemma initGraph_spec (ms : list Migration) :
  exists graph0 inDegree0 migrationMap,
    initGraph ms = (graph0, inDegree0, migrationMap)
    /\ (forall x, lookup_list graph0 x = [])
    /\ (forall x, lookup_int inDegree0 x = 0)
    /\ (forall x, is_Some (inDegree0 !! x) <-> In x (map ID ms))
    /\ (forall x, is_Some (migrationMap !! x) <-> In x (map ID ms))
    /\ (forall x m, migrationMap !! x = Some m -> In m ms /\ ID m = x)
    /\ (List.NoDup (map ID ms) -> forall m, In m ms -> migrationMap !! ID m = Some m).
Proof.
  unfold initGraph. induction ms as [|m ms IH] using rev_ind.
  - exists ∅, ∅, ∅. simpl. split; [done|].
    split; [intros x; unfold lookup_list; by rewrite lookup_empty|].
    split; [intros x; unfold lookup_int; by rewrite lookup_empty|].
    split; [intros x; rewrite lookup_empty; split; [by intros [? ?]|tauto]|].
    split; [intros x; rewrite lookup_empty; split; [by intros [? ?]|tauto]|].
    split; [intros x m; by rewrite lookup_empty|tauto].
  - destruct IH as (g & d & mm & Heq & Hg & Hd & Hdk & Hmk & Hmv & Hmm).
    rewrite fold_left_app, Heq. cbn [fold_left].
    eexists _, _, _. split; [reflexivity|].
    rewrite map_app. simpl.
    split.
    { intros x. unfold lookup_list. rewrite lookup_insert.
      destruct (decide (ID m = x)); [done|apply Hg]. }
    split.
    { intros x. unfold lookup_int. rewrite lookup_insert.
      destruct (decide (ID m = x)); [done|apply Hd]. }
    split.
    { intros x. rewrite in_app_iff, lookup_insert. simpl.
      destruct (decide (ID m = x)) as [<-|Hne].
      - split; [tauto|by eexists].
      - rewrite Hdk. tauto. }
    split.
    { intros x. rewrite in_app_iff, lookup_insert. simpl.
      destruct (decide (ID m = x)) as [<-|Hne].
      - split; [tauto|by eexists].
      - rewrite Hmk. tauto. }
    split.
    { intros x m'. rewrite lookup_insert, in_app_iff. simpl.
      destruct (decide (ID m = x)) as [<-|Hne].
      - intros [= <-]. tauto.
      - intros Hx. destruct (Hmv _ _ Hx). tauto. }
    intros Hnd m' Hin. apply NoDup_app_remove_r in Hnd as Hnd'.
    apply in_app_iff in Hin as [Hin|[<-|[]]].
    + rewrite lookup_insert_ne; [by apply Hmm|].
      intros Heq'. apply NoDup_remove_2 in Hnd. apply Hnd.
      rewrite app_nil_r, Heq'. by apply in_map.
    + by rewrite lookup_insert_eq.
Qed.

Lemma count_occ_filter_cons (f : string -> bool) (d x : string) (ds : list string) :
  count_occ String.string_dec (List.filter f (d :: ds)) x
  = ((if f d then (if decide (d = x) then 1 else 0) else 0)
     + count_occ String.string_dec (List.filter f ds) x)%nat.
Proof.
  simpl. destruct (f d); [|done]. simpl.
  destruct (String.string_dec d x), (decide (d = x)); try done; lia.
Qed.

(** The loop over the dependencies of one migration [m]. *)
Lemma addDependencies_spec (r : MigrationRegistry) (applied : gmap string bool)
    (migrationMap : gmap string Migration) (m : Migration) (ds : list string)
    (graph : gmap string (list string)) (inDegree : gmap string Z) :
  (forall d, In d (List.filter (fun d => negb (lookup_bool applied d)) ds) ->
             is_Some (migrationMap !! d)) ->
  exists graph' inDegree',
    fold_result (addDependency r applied migrationMap m) ds (graph, inDegree)
      = Ok (graph', inDegree')
    /\ (forall x, lookup_list graph' x
                  = lookup_list graph x
                    ++ repeat (ID m)
                         (count_occ String.string_dec
                            (List.filter (fun d => negb (lookup_bool applied d)) ds) x))
    /\ (forall x, lookup_int inDegree' x
                  = lookup_int inDegree x
                    + (if decide (ID m = x)
                       then Z.of_nat (length (List.filter
                                                (fun d => negb (lookup_bool applied d)) ds))
                       else 0))
    /\ (is_Some (inDegree !! ID m) ->
        forall x, is_Some (inDegree' !! x) <-> is_Some (inDegree !! x)).
Proof.
  revert graph inDegree. induction ds as [|d ds IH]; intros graph inDegree Hmm.
  - exists graph, inDegree. simpl. split; [done|].
    split; [intros x; by rewrite app_nil_r|].
    split; [intros x; destruct (decide (ID m = x)); lia|done].
  - cbn [fold_result]. unfold addDependency at 1.
    destruct (negb (lookup_bool applied d)) eqn:Hd.
    + destruct (Hmm d) as [md Hmd]; [simpl; rewrite Hd; by left|]. rewrite Hmd.
      destruct (IH (<[d := lookup_list graph d ++ [ID m]]> graph)
                   (<[ID m := lookup_int inDegree (ID m) + 1]> inDegree))
        as (g' & deg' & Hfold & Hg & Hdeg & Hkeys).
      { intros d' Hd'. apply Hmm. simpl. rewrite Hd. by right. }
      exists g', deg'. split; [done|]. split; [|split].
      * intros x. rewrite Hg, count_occ_filter_cons, Hd.
        unfold lookup_list at 1. rewrite lookup_insert.
        destruct (decide (d = x)) as [->|Hne]; simpl.
        -- by rewrite <- app_assoc.
        -- done.
      * intros x. rewrite Hdeg. simpl. rewrite Hd. simpl length.
        unfold lookup_int at 1. rewrite lookup_insert.
        destruct (decide (ID m = x)) as [->|Hne]; simpl; [|done].
        fold (lookup_int inDegree x). lia.
      * intros Hsome x. rewrite Hkeys by (by rewrite lookup_insert_eq).
        rewrite lookup_insert. destruct (decide (ID m = x)) as [<-|Hne]; [|done].
        split; [done|by eexists].
    + destruct (IH graph inDegree) as (g' & deg' & Hfold & Hg & Hdeg & Hkeys).
      { intros d' Hd'. apply Hmm. simpl. by rewrite Hd. }
      exists g', deg'. split; [done|]. split; [|split].
      * intros x. by rewrite Hg, count_occ_filter_cons, Hd.
      * intros x. rewrite Hdeg. simpl. by rewrite Hd.
      * done.
Qed.

(** The two nested loops that build the edges. *)
Lemma buildEdges_spec (r : MigrationRegistry) (applied : gmap string bool)
    (migrationMap : gmap string Migration) (ms : list Migration)
    (graph : gmap string (list string)) (inDegree : gmap string Z) :
  (forall m d, In m ms -> In d (unmet applied m) -> is_Some (migrationMap !! d)) ->
  (forall m, In m ms -> is_Some (inDegree !! ID m)) ->
  exists graph' inDegree',
    buildEdges r applied migrationMap ms (graph, inDegree) = Ok (graph', inDegree')
    /\ (forall x, lookup_list graph' x = lookup_list graph x ++ dependents ms applied x)
    /\ (forall x, lookup_int inDegree' x = lookup_int inDegree x + indegree ms applied x)
    /\ (forall x, is_Some (inDegree' !! x) <-> is_Some (inDegree !! x)).
Proof.
  unfold buildEdges. revert graph inDegree.
  induction ms as [|m ms IH]; intros graph inDegree Hmm Hkeys.
  - exists graph, inDegree. simpl. split; [done|].
    split; [intros x; by rewrite app_nil_r|].
    split; [intros x; unfold indegree; simpl; lia|done].
  - cbn [fold_result].
    destruct (addDependencies_spec r applied migrationMap m (Dependencies m) graph inDegree)
      as (g1 & d1 & Hfold1 & Hg1 & Hd1 & Hk1).
    { intros d Hd. apply (Hmm m); [by left|done]. }
    rewrite Hfold1.
    specialize (Hk1 (Hkeys m ltac:(by left))).
    destruct (IH g1 d1) as (g2 & d2 & Hfold2 & Hg2 & Hd2 & Hk2).
    { intros m' d Hm' Hd. apply (Hmm m'); [by right|done]. }
    { intros m' Hm'. apply Hk1, Hkeys. by right. }
    exists g2, d2. split; [done|]. split; [|split].
    + intros x. rewrite Hg2, Hg1. unfold dependents. simpl. by rewrite <- app_assoc.
    + intros x. rewrite Hd2, Hd1. unfold indegree. simpl.
      rewrite length_app. fold (unmet applied m).
      destruct (decide (ID m = x)); simpl; lia.
    + intros x. by rewrite Hk2, Hk1.
Qed.

Lemma indegree_notin (ms : list Migration) (applied : gmap string bool) (x : string) :
  ~ In x (map ID ms) -> indegree ms applied x = 0.
Proof.
  unfold indegree. induction ms as [|m ms IH]; intros Hnot; [done|].
  simpl in *. destruct (decide (ID m = x)); [tauto|]. simpl. apply IH. tauto.
Qed.

Lemma indegree_unmet (ms : list Migration) (applied : gmap string bool) (m : Migration) :
  List.NoDup (map ID ms) -> In m ms ->
  indegree ms applied (ID m) = Z.of_nat (length (unmet applied m)).
Proof.
  induction ms as [|m0 ms IH]; intros Hnd Hin; [done|].
  simpl in Hnd. apply NoDup_cons_iff in Hnd as [Hnot Hnd].
  unfold indegree in *. simpl. destruct Hin as [->|Hin].
  - destruct (decide (ID m = ID m)); [|done]. rewrite length_app.
    pose proof (indegree_notin ms applied (ID m) Hnot) as H0. unfold indegree in H0. lia.
  - destruct (decide (ID m0 = ID m)) as [Heq|Hne].
    + exfalso. apply Hnot. rewrite Heq. by apply in_map.
    + simpl. by apply IH.
Qed.

(** ** topologicalSort: the loop *)

Lemma existsb_eqb_In (d : string) (l : list string) :
  existsb (String.eqb d) l = true <-> In d l.
Proof.
  rewrite existsb_exists. split.
  - intros (x & Hin & Heq). apply String.eqb_eq in Heq. by subst.
  - intros Hin. exists d. split; [done|apply String.eqb_refl].
Qed.

Lemma existsb_eqb_not_In (d : string) (l : list string) :
  existsb (String.eqb d) l = false <-> ~ In d l.
Proof.
  rewrite <- existsb_eqb_In. destruct (existsb (String.eqb d) l); split; try done.
Qed.

Lemma same_ID_same (ms : list Migration) (m m' : Migration) :
  List.NoDup (map ID ms) -> In m ms -> In m' ms -> ID m = ID m' -> m = m'.
Proof.
  induction ms as [|x ms IH]; intros Hnd Hm Hm' Heq; [done|].
  simpl in Hnd. apply NoDup_cons_iff in Hnd as [Hnot Hnd].
  destruct Hm as [<-|Hm], Hm' as [<-|Hm']; try done.
  - exfalso. apply Hnot. rewrite Heq. by apply in_map.
  - exfalso. apply Hnot. rewrite <- Heq. by apply in_map.
  - by apply IH.
Qed.

(** The decrements for one dependent [m], which stands [k] times in
    [graph[c]]. *)
Lemma release_block (migrationMap : gmap string Migration) (m : Migration) (k : nat)
    (inDegree : gmap string Z) (ready : list Migration) :
  migrationMap !! ID m = Some m ->
  Z.of_nat k <= lookup_int inDegree (ID m) ->
  exists inDegree',
    fold_left (release migrationMap) (repeat (ID m) k) (inDegree, ready)
    = (inDegree',
       if (0 <? k)%nat && (lookup_int inDegree (ID m) =? Z.of_nat k)
       then ready ++ [m] else ready)
    /\ forall x, lookup_int inDegree' x
                 = lookup_int inDegree x - (if decide (ID m = x) then Z.of_nat k else 0).
Proof.
  intros Hmm. revert inDegree ready. induction k as [|k IH]; intros inDegree ready Hle.
  - exists inDegree. simpl. split; [done|]. intros x. destruct (decide (ID m = x)); lia.
  - cbn [repeat fold_left]. unfold release at 2. rewrite Hmm. cbn [append_ptr].
    set (d := lookup_int inDegree (ID m) - 1).
    set (deg1 := <[ID m := d]> inDegree).
    assert (Hd1 : lookup_int deg1 (ID m) = d).
    { unfold lookup_int, deg1. by rewrite lookup_insert_eq. }
    destruct (IH deg1 (if d =? 0 then ready ++ [m] else ready)) as (deg' & Hfold & Hdeg).
    { rewrite Hd1. unfold d. lia. }
    exists deg'. split.
    + replace (if d =? 0 then (deg1, ready ++ [m]) else (deg1, ready))
        with (deg1, if d =? 0 then ready ++ [m] else ready) by (by destruct (d =? 0)).
      rewrite Hfold, Hd1. f_equal.
      assert (Hn : lookup_int inDegree (ID m) = d + 1) by (unfold d; lia).
      rewrite Hn. clearbody d. clear Hfold Hdeg Hd1 deg1.
      destruct (Z.eqb_spec d 0) as [Hd0|Hd0], (Z.eqb_spec d (Z.of_nat k)) as [Hdk|Hdk],
        (Z.eqb_spec (d + 1) (Z.of_nat (S k))) as [Hdk'|Hdk'], k as [|k'];
        simpl; try done; lia.
    + intros x. rewrite Hdeg. unfold lookup_int at 1, deg1. rewrite lookup_insert.
      destruct (decide (ID m = x)) as [<-|Hne]; simpl.
      * unfold d. lia.
      * done.
Qed.

Section kahn_loop.

Variable applied : gmap string bool.
Variable pending : list Migration.
Variable graph : gmap string (list string).
Variable migrationMap : gmap string Migration.

Hypothesis pending_nodup : List.NoDup (map ID pending).
Hypothesis pending_closed : no_dangling pending applied.
Hypothesis graph_dependents :
  forall x, lookup_list graph x = dependents pending applied x.
Hypothesis migrationMap_pending :
  forall m, In m pending -> migrationMap !! ID m = Some m.

Let count (m : Migration) (c : string) : nat :=
  count_occ String.string_dec (unmet applied m) c.

(** The loop over [graph[c]], restricted to the dependents among [ms]. *)
Lemma release_dependents (ms : list Migration) (c : string)
    (inDegree : gmap string Z) (ready : list Migration) :
  List.NoDup (map ID ms) ->
  (forall m, In m ms -> In m pending) ->
  (forall m, In m ms -> Z.of_nat (count m c) <= lookup_int inDegree (ID m)) ->
  exists inDegree',
    fold_left (release migrationMap) (dependents ms applied c) (inDegree, ready)
    = (inDegree', ready ++ released ms applied inDegree c)
    /\ (forall m, In m ms ->
          lookup_int inDegree' (ID m) = lookup_int inDegree (ID m) - Z.of_nat (count m c))
    /\ (forall x, ~ In x (map ID ms) -> lookup_int inDegree' x = lookup_int inDegree x).
Proof.
  revert inDegree ready. induction ms as [|m ms IH]; intros inDegree ready Hnd Hin Hle.
  - exists inDegree. simpl. rewrite app_nil_r. split; [done|]. split; [tauto|done].
  - simpl in Hnd. apply NoDup_cons_iff in Hnd as [Hnot Hnd].
    unfold dependents. cbn [flat_map]. rewrite fold_left_app.
    destruct (release_block migrationMap m (count m c) inDegree ready)
      as (deg1 & Hfold1 & Hdeg1).
    { apply migrationMap_pending, Hin. by left. }
    { apply Hle. by left. }
    fold (count m c). rewrite Hfold1.
    assert (Hsame : forall m', In m' ms ->
              lookup_int deg1 (ID m') = lookup_int inDegree (ID m')).
    { intros m' Hm'. rewrite Hdeg1. destruct (decide (ID m = ID m')) as [Heq|]; [|lia].
      exfalso. apply Hnot. rewrite Heq. by apply in_map. }
    set (ready1 := if (0 <? count m c)%nat && (lookup_int inDegree (ID m) =? Z.of_nat (count m c))
                   then ready ++ [m] else ready).
    destruct (IH deg1 ready1 Hnd) as (deg' & Hfold & Hdeg & Hout).
    { intros m' Hm'. apply Hin. by right. }
    { intros m' Hm'. rewrite Hsame by done. apply Hle. by right. }
    exists deg'. fold (dependents ms applied c). rewrite Hfold. split; [|split].
    + f_equal. unfold released, ready1. cbn [List.filter]. fold (count m c).
      assert (Hfilter :
        List.filter (fun m0 => (0 <? count m0 c)%nat
                               && (lookup_int deg1 (ID m0) =? Z.of_nat (count m0 c))) ms
        = List.filter (fun m0 => (0 <? count m0 c)%nat
                                 && (lookup_int inDegree (ID m0) =? Z.of_nat (count m0 c))) ms).
      { apply filter_ext_in. intros m' Hm'. by rewrite Hsame. }
      unfold count in Hfilter |- *. rewrite Hfilter.
      destruct ((0 <? _)%nat && _); [by rewrite <- app_assoc|done].
    + intros m' [<-|Hm'].
      * rewrite Hout by done. rewrite Hdeg1.
        destruct (decide (ID m = ID m)); [lia|done].
      * rewrite Hdeg by done. by rewrite Hsame.
    + intros x Hx. simpl in Hx. rewrite Hout by tauto. rewrite Hdeg1.
      destruct (decide (ID m = x)); [tauto|lia].
Qed.

Lemma remaining_count (emitted : list Migration) (m : Migration) (c : string) :
  ~ In c (map ID emitted) ->
  (count m c <= length (remaining applied emitted m))%nat.
Proof.
  intros Hc. unfold count, remaining.
  induction (unmet applied m) as [|d ds IH]; simpl; [lia|].
  destruct (String.string_dec d c) as [->|Hne].
  - replace (existsb (String.eqb c) (map ID emitted)) with false
      by (symmetry; by apply existsb_eqb_not_In).
    simpl. lia.
  - destruct (negb _); simpl; lia.
Qed.

Lemma remaining_snoc (emitted : list Migration) (current m : Migration) :
  ~ In (ID current) (map ID emitted) ->
  length (remaining applied emitted m)
  = (length (remaining applied (emitted ++ [current]) m) + count m (ID current))%nat.
Proof.
  intros Hc. unfold count, remaining.
  replace (map ID (emitted ++ [current])) with (map ID emitted ++ [ID current])
    by (by rewrite map_app).
  induction (unmet applied m) as [|d ds IH]; simpl; [done|].
  rewrite existsb_app. simpl. rewrite orb_false_r.
  destruct (String.string_dec d (ID current)) as [->|Hne].
  - replace (existsb (String.eqb (ID current)) (map ID emitted)) with false
      by (symmetry; by apply existsb_eqb_not_In).
    rewrite String.eqb_refl. simpl. lia.
  - replace (String.eqb d (ID current)) with false
      by (symmetry; by apply String.eqb_neq).
    rewrite orb_false_r. destruct (negb _); simpl; lia.
Qed.

Lemma remaining_nil (emitted : list Migration) (m : Migration) :
  remaining applied emitted m = [] <->
  forall d, In d (unmet applied m) -> In d (map ID emitted).
Proof.
  unfold remaining. induction (unmet applied m) as [|d ds IH]; simpl; [tauto|].
  destruct (existsb (String.eqb d) (map ID emitted)) eqn:E; simpl.
  - apply existsb_eqb_In in E. rewrite IH. split.
    + intros H d' [<-|Hd']; [done|by apply H].
    + intros H d' Hd'. apply H. by right.
  - apply existsb_eqb_not_In in E. split; [done|].
    intros H. exfalso. apply E, H. by left.
Qed.

Lemma NoDup_map_filter {A B} (f : A -> B) (p : A -> bool) (l : list A) :
  List.NoDup (map f l) -> List.NoDup (map f (List.filter p l)).
Proof.
  induction l as [|x l IH]; simpl; [done|].
  intros Hnd. apply NoDup_cons_iff in Hnd as [Hnot Hnd].
  destruct (p x); simpl; [|by apply IH].
  constructor; [|by apply IH].
  intros Hin. apply Hnot. apply in_map_iff in Hin as (y & <- & Hy).
  apply in_map. by apply filter_In in Hy as [Hy _].
Qed.

Lemma app_snoc_inv {A} (pre post l : list A) (x c : A) :
  pre ++ x :: post = l ++ [c] ->
  (post = [] /\ pre = l /\ x = c)
  \/ (exists post', post = post' ++ [c] /\ l = pre ++ x :: post').
Proof.
  destruct post as [|z post _] using rev_ind; intros Heq.
  - left. apply app_inj_tail in Heq as [-> ->]. done.
  - right. exists post.
    replace (pre ++ x :: post ++ [z]) with ((pre ++ x :: post) ++ [z]) in Heq
      by (by rewrite <- app_assoc).
    apply app_inj_tail in Heq as [<- ->]. done.
Qed.

Lemma kahnStep_None (st : kahn) :
  kahnStep graph migrationMap st = None -> k_ready st = [].
Proof.
  unfold kahnStep. destruct (k_ready st) as [|r0 rs] eqn:Hready; [done|].
  pose proof (sortReady_Permutation (r0 :: rs)) as Hperm.
  destruct (sortReady (r0 :: rs)) as [|current rest].
  - by apply Permutation_nil in Hperm.
  - by destruct (fold_left _ _ _).
Qed.

(** One turn of the loop keeps the invariant and emits one migration. *)
Lemma kahnStep_inv (st st' : kahn) :
  kahn_inv pending applied st ->
  kahnStep graph migrationMap st = Some st' ->
  kahn_inv pending applied st'
  /\ length (k_sorted st') = S (length (k_sorted st)).
Proof.
  intros [Hdegree Hnodup Hpending Hready Hzero Horder] Hstep.
  unfold kahnStep in Hstep.
  destruct (k_ready st) as [|r0 rs] eqn:Hr; [discriminate|]. rewrite <- Hr in *.
  clear Hr r0 rs.
  destruct (sortReady (k_ready st)) as [|current rest] eqn:Hsort; [discriminate|].
  pose proof (sortReady_Permutation (k_ready st)) as Hperm. rewrite Hsort in Hperm.
  assert (Hcur_ready : In current (k_ready st)).
  { eapply Permutation_in; [exact Hperm|by left]. }
  assert (Hrest_ready : forall m, In m rest -> In m (k_ready st)).
  { intros m Hm. eapply Permutation_in; [exact Hperm|by right]. }
  assert (Hcur_pending : In current pending).
  { apply Hpending, in_app_iff. by right. }
  assert (Hcur_new : ~ In (ID current) (map ID (k_sorted st))).
  { intros Hin. rewrite map_app in Hnodup.
    apply in_split in Hin as (l1 & l2 & Heq). rewrite Heq, <- app_assoc in Hnodup.
    apply NoDup_remove_2 in Hnodup. apply Hnodup.
    rewrite !in_app_iff. right. right. by apply in_map. }
  assert (Hle : forall m, In m pending ->
            Z.of_nat (count m (ID current)) <= lookup_int (k_inDegree st) (ID m)).
  { intros m Hm. rewrite Hdegree by done.
    pose proof (remaining_count (k_sorted st) m (ID current) Hcur_new). lia. }
  rewrite graph_dependents in Hstep.
  destruct (release_dependents pending (ID current) (k_inDegree st) rest
              pending_nodup (fun m H => H) Hle) as (deg' & Hfold & Hdeg & _).
  rewrite Hfold in Hstep. injection Hstep as <-.
  assert (Hreleased : forall m, In m (released pending applied (k_inDegree st) (ID current)) ->
            In m pending /\ (0 < count m (ID current))%nat
            /\ lookup_int (k_inDegree st) (ID m) = Z.of_nat (count m (ID current))).
  { intros m Hm. apply filter_In in Hm as [Hm Hc].
    apply andb_true_iff in Hc as [Hc1 Hc2].
    apply Nat.ltb_lt in Hc1. apply Z.eqb_eq in Hc2. done. }
  assert (Hsorted_closed : forall m, In m (k_sorted st) ->
            ~ In (ID current) (unmet applied m)).
  { intros m Hm Hdep. apply in_split in Hm as (pre & post & Heq).
    destruct (Horder pre m post Heq) as [(_ & _ & Hdeps) _].
    apply Hcur_new. rewrite Heq, map_app, in_app_iff. left. by apply Hdeps. }
  split; [|simpl; rewrite length_app; simpl; lia].
  constructor; simpl.
  - intros m Hm. rewrite Hdeg, Hdegree by done.
    rewrite (remaining_snoc (k_sorted st) current m Hcur_new). lia.
  - replace ((k_sorted st ++ [current]) ++ rest
             ++ released pending applied (k_inDegree st) (ID current))
      with ((k_sorted st ++ current :: rest)
            ++ released pending applied (k_inDegree st) (ID current))
      by (by rewrite <- !app_assoc).
    rewrite map_app. apply List.NoDup_app.
    + eapply Permutation_NoDup; [|exact Hnodup].
      apply Permutation_map, Permutation_app_head, Permutation_sym, Hperm.
    + by apply NoDup_map_filter.
    + intros x Hx Hx'.
      apply in_map_iff in Hx as (m' & <- & Hm').
      apply in_map_iff in Hx' as (m & Heq & Hm).
      destruct (Hreleased m Hm) as (Hmp & Hpos & Hcnt).
      assert (Hm'' : In m' (k_sorted st ++ k_ready st)).
      { apply in_app_iff in Hm' as [Hm'|Hm']; apply in_app_iff; [by left|right].
        eapply Permutation_in; [exact Hperm|done]. }
      assert (m = m') as <-.
      { apply (same_ID_same pending); [done|done|by apply Hpending|done]. }
      apply in_app_iff in Hm'' as [Hs|Hrd].
      * apply (Hsorted_closed m Hs).
        apply (count_occ_In String.string_dec). unfold count in Hpos. lia.
      * specialize (Hzero m Hrd). lia.
  - intros m Hm. rewrite !in_app_iff in Hm. simpl in Hm.
    destruct Hm as [[Hm|[<-|[]]]|[Hm|Hm]].
    + apply Hpending, in_app_iff. by left.
    + done.
    + apply Hpending, in_app_iff. right. by apply Hrest_ready.
    + by apply Hreleased.
  - intros m Hm Hnew Hz. rewrite Hdeg in Hz by done.
    rewrite map_app, in_app_iff in Hnew. simpl in Hnew.
    apply in_app_iff.
    destruct (Z.eq_dec (lookup_int (k_inDegree st) (ID m)) 0) as [H0|Hne].
    + left. assert (Hrd : In m (k_ready st)) by (apply Hready; tauto).
      eapply Permutation_in in Hrd; [|apply Permutation_sym, Hperm].
      destruct Hrd as [<-|Hrd]; [tauto|done].
    + right. apply filter_In. split; [done|].
      fold (count m (ID current)). apply andb_true_iff. split.
      * apply Nat.ltb_lt. lia.
      * apply Z.eqb_eq. lia.
  - intros m Hm. apply in_app_iff in Hm as [Hm|Hm].
    + assert (Hmp : In m pending).
      { apply Hpending, in_app_iff. right. by apply Hrest_ready. }
      rewrite Hdeg by done. specialize (Hzero m (Hrest_ready m Hm)).
      specialize (Hle m Hmp). lia.
    + destruct (Hreleased m Hm) as (Hmp & Hpos & Hcnt). rewrite Hdeg by done. lia.
  - intros pre x post Heq. symmetry in Heq.
    apply app_snoc_inv in Heq as [(-> & -> & ->)|(post' & -> & Heq)].
    + assert (Hnil : remaining applied (k_sorted st) current = []).
      { apply length_zero_iff_nil.
        pose proof (Hdegree current Hcur_pending) as Hd.
        rewrite (Hzero current Hcur_ready) in Hd. lia. }
      split.
      * split; [done|]. split; [done|]. by apply remaining_nil.
      * intros y (Hy & Hynew & Hydeps).
        eapply sortReady_head_least; [exact Hsort|].
        apply Hready; [done|done|].
        rewrite Hdegree by done. apply remaining_nil in Hydeps. by rewrite Hydeps.
    + by apply (Horder pre x post').
Qed.

Lemma kahnLoop_inv (fuel : nat) (st : kahn) :
  kahn_inv pending applied st ->
  kahn_inv pending applied (kahnLoop fuel graph migrationMap st)
  /\ (k_ready (kahnLoop fuel graph migrationMap st) = []
      \/ length (k_sorted (kahnLoop fuel graph migrationMap st))
         = (length (k_sorted st) + fuel)%nat).
Proof.
  revert st. induction fuel as [|fuel IH]; intros st Hinv; simpl.
  - split; [done|]. right. lia.
  - destruct (kahnStep graph migrationMap st) as [st'|] eqn:Hstep.
    + destruct (kahnStep_inv st st' Hinv Hstep) as [Hinv' Hlen].
      destruct (IH st' Hinv') as [Hfinal Hexit]. split; [done|].
      destruct Hexit as [Hexit|Hexit]; [by left|right]. lia.
    + split; [done|]. left. by apply kahnStep_None.
Qed.

(** The emitted migrations never outnumber the pending ones: with as many
    turns as there are pending migrations, the loop has exited. *)
Lemma kahn_inv_length (st : kahn) :
  kahn_inv pending applied st ->
  (length (k_sorted st) + length (k_ready st) <= length pending)%nat.
Proof.
  intros [_ Hnodup Hpending _ _ _].
  apply NoDup_map_inv in Hnodup.
  rewrite <- length_app. apply NoDup_incl_length; [done|].
  intros m Hm. by apply Hpending.
Qed.

Lemma depends_on_finite (x : string) : pred_finite (tc (depends_on pending applied) x).
Proof.
  exists (flat_map (unmet applied) pending). intros y Hxy.
  apply list_elem_of_In, in_flat_map.
  induction Hxy as [x y (m & Hm & _ & Hd)|x z y _ _ IH]; [|done].
  by exists m.
Qed.

(** When the graph has no cycle and the loop has exited, everything pending
    has been emitted. *)
Lemma kahn_complete (st : kahn) :
  kahn_inv pending applied st ->
  k_ready st = [] ->
  acyclic pending applied ->
  forall m, In m pending -> In (ID m) (map ID (k_sorted st)).
Proof.
  intros [Hdegree _ _ Hready _ _] Hexit Hacyclic.
  assert (Hsn : forall x, sn (depends_on pending applied) x).
  { intros x. apply tc_finite_sn; [|apply depends_on_finite].
    intros y Hy. by apply (Hacyclic y). }
  assert (Hkey : forall x, sn (depends_on pending applied) x ->
            forall m, In m pending -> ID m = x ->
                      ~ In (ID m) (map ID (k_sorted st)) -> False).
  { intros x Hx. induction Hx as [x _ IH]. intros m Hm Heq Hnew.
    destruct (remaining applied (k_sorted st) m) as [|d ds] eqn:Hrem.
    - assert (Hrd : In m (k_ready st)).
      { apply Hready; [done|done|]. by rewrite Hdegree, Hrem. }
      by rewrite Hexit in Hrd.
    - assert (Hd : In d (remaining applied (k_sorted st) m)) by (rewrite Hrem; by left).
      apply filter_In in Hd as [Hd Hdnew].
      apply negb_true_iff, existsb_eqb_not_In in Hdnew.
      pose proof (pending_closed m d Hm Hd) as Hdp.
      apply in_map_iff in Hdp as (m' & Hm'eq & Hm').
      apply (IH d) with m'; [|done|done|by rewrite Hm'eq].
      exists m. by subst. }
  intros m Hm.
  destruct (in_dec String.string_dec (ID m) (map ID (k_sorted st))) as [|Hnew]; [done|].
  exfalso. by apply (Hkey (ID m) (Hsn (ID m)) m).
Qed.

End kahn_loop.

(** ** topologicalSort: seeding, and the whole function *)

Lemma seedReady_flat_map (inDegree : gmap string Z) (migrationMap : gmap string Migration)
    (ks : list string) (acc : list Migration) :
  fold_left
    (fun ready id =>
       if lookup_int inDegree id =? 0 then append_ptr ready (migrationMap !! id) else ready)
    ks acc
  = acc ++ flat_map (fun id => if lookup_int inDegree id =? 0
                               then option_list (migrationMap !! id) else []) ks.
Proof.
  revert acc. induction ks as [|k ks IH]; intros acc; simpl; [by rewrite app_nil_r|].
  rewrite IH. destruct (lookup_int inDegree k =? 0); [|done].
  destruct (migrationMap !! k); simpl; [by rewrite <- app_assoc|done].
Qed.

Lemma seedReady_In (it : MapIteration) (inDegree : gmap string Z)
    (migrationMap : gmap string Migration) (m : Migration) :
  In m (seedReady it inDegree migrationMap) <->
  exists id, is_Some (inDegree !! id) /\ lookup_int inDegree id = 0
             /\ migrationMap !! id = Some m.
Proof.
  unfold seedReady. rewrite seedReady_flat_map. simpl. rewrite in_flat_map. split.
  - intros (id & Hid & Hm). exists id. apply In_range_of in Hid. split; [done|].
    destruct (Z.eqb_spec (lookup_int inDegree id) 0); [|done].
    destruct (migrationMap !! id); simpl in Hm; [|done].
    destruct Hm as [->|[]]. done.
  - intros (id & Hid & Hz & Hm). exists id. split; [by apply In_range_of|].
    rewrite Hz, Hm. by left.
Qed.

Lemma seedReady_NoDup (it : MapIteration) (inDegree : gmap string Z)
    (migrationMap : gmap string Migration) :
  (forall x m, migrationMap !! x = Some m -> ID m = x) ->
  List.NoDup (map ID (seedReady it inDegree migrationMap)).
Proof.
  intros Hid. unfold seedReady. rewrite seedReady_flat_map. simpl.
  pose proof (NoDup_range_of it inDegree) as Hks.
  induction (range_of it inDegree) as [|k ks IH]; simpl; [constructor|].
  apply NoDup_cons_iff in Hks as [Hk Hks]. rewrite map_app.
  apply List.NoDup_app; [| by apply IH |].
  - destruct (lookup_int inDegree k =? 0); [|constructor].
    destruct (migrationMap !! k); simpl; repeat constructor. tauto.
  - intros x Hx Hx'. apply Hk.
    assert (x = k) as ->.
    { destruct (lookup_int inDegree k =? 0); [|done].
      destruct (migrationMap !! k) eqn:Hm; simpl in Hx; [|done].
      destruct Hx as [<-|[]]. by apply Hid. }
    apply in_map_iff in Hx' as (m & Hmk & Hm). apply in_flat_map in Hm as (k' & Hk' & Hm).
    destruct (lookup_int inDegree k' =? 0); [|done].
    destruct (migrationMap !! k') eqn:Hm'; simpl in Hm; [|done].
    destruct Hm as [->|[]]. apply Hid in Hm'. congruence.
Qed.

Lemma remaining_none_emitted (applied : gmap string bool) (m : Migration) :
  remaining applied [] m = unmet applied m.
Proof.
  unfold remaining. simpl. induction (unmet applied m) as [|d ds IH]; simpl; congruence.
Qed.

(** What the code computes before the loop, and the invariant it starts
    from. *)
Lemma topologicalSort_start (it : MapIteration) (r : MigrationRegistry)
    (pending : list Migration) (applied : gmap string bool) :
  List.NoDup (map ID pending) ->
  no_dangling pending applied ->
  exists graph0 inDegree0 migrationMap graph inDegree,
    initGraph pending = (graph0, inDegree0, migrationMap)
    /\ buildEdges r applied migrationMap pending (graph0, inDegree0) = Ok (graph, inDegree)
    /\ (forall x, lookup_list graph x = dependents pending applied x)
    /\ (forall m, In m pending -> migrationMap !! ID m = Some m)
    /\ kahn_inv pending applied
         {| k_sorted := []; k_ready := seedReady it inDegree migrationMap;
            k_inDegree := inDegree |}.
Proof.
  intros Hnd Hclosed.
  destruct (initGraph_spec pending)
    as (g0 & d0 & mm & Hinit & Hg0 & Hd0 & Hd0k & Hmmk & Hmmv & Hmm).
  specialize (Hmm Hnd).
  destruct (buildEdges_spec r applied mm pending g0 d0) as (g & d & Hbuild & Hg & Hd & Hdk).
  { intros m dep Hm Hdep. apply Hmmk. by apply (Hclosed m). }
  { intros m Hm. apply Hd0k. by apply in_map. }
  exists g0, d0, mm, g, d. split; [done|]. split; [done|].
  split; [intros x; by rewrite Hg, Hg0|]. split; [done|].
  assert (Hdeg : forall m, In m pending ->
            lookup_int d (ID m) = Z.of_nat (length (unmet applied m))).
  { intros m Hm. rewrite Hd, Hd0. by rewrite indegree_unmet. }
  constructor; simpl.
  - intros m Hm. by rewrite remaining_none_emitted, Hdeg.
  - apply seedReady_NoDup. intros x m Hx. by apply Hmmv in Hx as [_ ?].
  - intros m Hm. apply seedReady_In in Hm as (id & _ & _ & Hm).
    by apply Hmmv in Hm as [? _].
  - intros m Hm _ Hz. apply seedReady_In. exists (ID m).
    split; [apply Hdk, Hd0k; by apply in_map|]. split; [done|by apply Hmm].
  - intros m Hm. apply seedReady_In in Hm as (id & _ & Hz & Hm).
    apply Hmmv in Hm as [_ <-]. done.
  - intros pre x post Heq. by destruct pre.
Qed.

Lemma list_eq_nil_dec {A} (l : list A) : {l = nil} + {l <> nil}.
Proof. destruct l; [by left|by right]. Qed.

Lemma emitted_all_Permutation (pending sorted : list Migration) :
  List.NoDup (map ID pending) ->
  List.NoDup (map ID sorted) ->
  (forall m, In m sorted -> In m pending) ->
  length sorted = length pending ->
  Permutation sorted pending.
Proof.
  intros Hp Hs Hincl Hlen. apply NoDup_Permutation_bis.
  - by apply NoDup_map_inv in Hs.
  - lia.
  - exact Hincl.
Qed.

Lemma topologicalSort_nonempty (it : MapIteration) (r : MigrationRegistry)
    (ms : list Migration) (applied : gmap string bool) :
  ms <> [] ->
  topologicalSort it r ms applied =
    let '(graph0, inDegree0, migrationMap) := initGraph ms in
    match buildEdges r applied migrationMap ms (graph0, inDegree0) with
    | Err e => Err e
    | Ok (graph, inDegree) =>
        let st := kahnLoop (length ms) graph migrationMap
                    {| k_sorted := [];
                       k_ready := seedReady it inDegree migrationMap;
                       k_inDegree := inDegree |} in
        if negb (length (k_sorted st) =? length ms)%nat then
          Err ("circular dependency detected involving migrations: "
               +:+ fmt_v (List.filter (fun id => lookup_int (k_inDegree st) id >? 0)
                                      (range_of it (k_inDegree st))))
        else Ok (k_sorted st)
    end.
Proof. by destruct ms. Qed.

(** On a pending set with distinct identifiers, no dangling dependency and
    no cycle, [topologicalSort] returns an order of Kahn's sort with the
    smallest-version choice, whatever the order of the map iteration. *)
Lemma topologicalSort_kahn (it : MapIteration) (r : MigrationRegistry)
    (pending : list Migration) (applied : gmap string bool) :
  List.NoDup (map ID pending) ->
  no_dangling pending applied ->
  acyclic pending applied ->
  exists sorted,
    topologicalSort it r pending applied = Ok sorted
    /\ Permutation sorted pending
    /\ kahn_order pending applied sorted.
Proof.
  intros Hnd Hclosed Hacyclic.
  destruct (list_eq_nil_dec pending) as [->|Hne].
  { exists []. split; [done|]. split; [done|]. intros pre x post Heq. by destruct pre. }
  destruct (topologicalSort_start it r pending applied Hnd Hclosed)
    as (g0 & d0 & mm & g & d & Hinit & Hbuild & Hg & Hmm & Hinv0).
  rewrite topologicalSort_nonempty by done.
  rewrite Hinit, Hbuild.
  set (st0 := {| k_sorted := []; k_ready := seedReady it d mm; k_inDegree := d |}) in *.
  destruct (kahnLoop_inv applied pending g mm Hnd Hg Hmm (length pending) st0 Hinv0)
    as [Hinv Hexit].
  set (st := kahnLoop (length pending) g mm st0) in *.
  pose proof (kahn_inv_length applied pending st Hinv) as Hbound.
  assert (Hready : k_ready st = []).
  { destruct Hexit as [|Hlen]; [done|]. simpl in Hlen.
    apply length_zero_iff_nil. lia. }
  assert (Hsnd : List.NoDup (map ID (k_sorted st))).
  { pose proof (inv_nodup _ _ _ Hinv) as H. rewrite Hready, app_nil_r in H. done. }
  assert (Hlen : length (k_sorted st) = length pending).
  { apply Nat.le_antisymm; [lia|].
    rewrite <- (length_map ID pending), <- (length_map ID (k_sorted st)).
    apply NoDup_incl_length; [done|].
    intros x Hx. apply in_map_iff in Hx as (m & <- & Hm).
    by apply (kahn_complete applied pending Hclosed st Hinv Hready Hacyclic). }
  cbv zeta. rewrite Hlen, Nat.eqb_refl. simpl. exists (k_sorted st).
  split; [done|]. split.
  - apply emitted_all_Permutation; [done|done| |done].
    intros m Hm. apply (inv_pending _ _ _ Hinv), in_app_iff. by left.
  - apply (inv_order _ _ _ Hinv).
Qed.

(** ** When the order of the map iteration does not matter *)

Lemma same_key_same {A B} (f : A -> B) (l : list A) (a b : A) :
  List.NoDup (map f l) -> In a l -> In b l -> f a = f b -> a = b.
Proof.
  induction l as [|x l IH]; intros Hnd Ha Hb Heq; [done|].
  simpl in Hnd. apply NoDup_cons_iff in Hnd as [Hnot Hnd].
  destruct Ha as [<-|Ha], Hb as [<-|Hb]; try done.
  - exfalso. apply Hnot. rewrite Heq. by apply in_map.
  - exfalso. apply Hnot. rewrite <- Heq. by apply in_map.
  - by apply IH.
Qed.

Lemma NoDup_map_incl {A B} (f : A -> B) (l big : list A) :
  List.NoDup (map f big) -> List.NoDup l -> incl l big -> List.NoDup (map f l).
Proof.
  intros Hbig Hl Hincl. induction l as [|a l IH]; simpl; [constructor|].
  apply NoDup_cons_iff in Hl as [Ha Hl]. constructor.
  - intros Hin. apply in_map_iff in Hin as (b & Heq & Hb). apply Ha.
    replace a with b; [done|].
    apply (same_key_same f big); [done| | |done].
    + apply Hincl. by right.
    + apply Hincl. by left.
  - apply IH; [done|]. intros x Hx. apply Hincl. by right.
Qed.

Lemma sorted_Permutation_unique (s1 s2 : list Migration) :
  StronglySorted version_le s1 -> StronglySorted version_le s2 ->
  s1 ≡ₚ s2 -> List.NoDup (map Version s1) -> s1 = s2.
Proof.
  revert s2. induction s1 as [|a s1 IH]; intros s2 Hs1 Hs2 Hperm Hnd.
  - by apply Permutation_nil in Hperm.
  - destruct s2 as [|b s2]; [by apply Permutation_sym, Permutation_nil in Hperm|].
    inversion Hs1 as [|? ? Hs1' Ha]; subst. inversion Hs2 as [|? ? Hs2' Hb]; subst.
    rewrite List.Forall_forall in Ha, Hb.
    assert (Hba : In b (a :: s1)).
    { eapply Permutation_in; [apply Permutation_sym, Hperm|by left]. }
    assert (Hab : In a (b :: s2)).
    { eapply Permutation_in; [apply Hperm|by left]. }
    assert (a = b) as <-.
    { apply (same_key_same Version (a :: s1)); [done|by left|done|].
      unfold version_le in *.
      destruct Hba as [->|Hba]; [done|]. destruct Hab as [->|Hab]; [done|].
      specialize (Ha b Hba). specialize (Hb a Hab). lia. }
    f_equal. apply IH; [done|done| |].
    + by apply Permutation_cons_inv in Hperm.
    + simpl in Hnd. by apply NoDup_cons_iff in Hnd as [_ ?].
Qed.

Lemma sortReady_Permutation_eq (l1 l2 : list Migration) :
  l1 ≡ₚ l2 -> List.NoDup (map Version l1) -> sortReady l1 = sortReady l2.
Proof.
  intros Hperm Hnd. apply sorted_Permutation_unique.
  - apply sortReady_sorted.
  - apply sortReady_sorted.
  - by rewrite !sortReady_Permutation.
  - eapply Permutation_NoDup; [|exact Hnd].
    apply Permutation_map, Permutation_sym, sortReady_Permutation.
Qed.

Lemma kahnStep_ready_Permutation (graph : gmap string (list string))
    (migrationMap : gmap string Migration) (sorted ready1 ready2 : list Migration)
    (inDegree : gmap string Z) :
  ready1 ≡ₚ ready2 -> List.NoDup (map Version ready1) ->
  kahnStep graph migrationMap
    {| k_sorted := sorted; k_ready := ready1; k_inDegree := inDegree |}
  = kahnStep graph migrationMap
      {| k_sorted := sorted; k_ready := ready2; k_inDegree := inDegree |}.
Proof.
  intros Hperm Hnd. unfold kahnStep. simpl.
  rewrite (sortReady_Permutation_eq ready1 ready2 Hperm Hnd).
  destruct ready1 as [|a l1], ready2 as [|b l2]; try done;
    first [ by apply Permutation_nil in Hperm
          | by apply Permutation_sym, Permutation_nil in Hperm ].
Qed.

Lemma kahnLoop_ready_Permutation (fuel : nat) (graph : gmap string (list string))
    (migrationMap : gmap string Migration) (sorted ready1 ready2 : list Migration)
    (inDegree : gmap string Z) :
  ready1 ≡ₚ ready2 -> List.NoDup (map Version ready1) ->
  let st1 := kahnLoop fuel graph migrationMap
               {| k_sorted := sorted; k_ready := ready1; k_inDegree := inDegree |} in
  let st2 := kahnLoop fuel graph migrationMap
               {| k_sorted := sorted; k_ready := ready2; k_inDegree := inDegree |} in
  k_sorted st1 = k_sorted st2 /\ k_inDegree st1 = k_inDegree st2.
Proof.
  intros Hperm Hnd. destruct fuel as [|fuel]; simpl; [done|].
  rewrite (kahnStep_ready_Permutation graph migrationMap sorted ready1 ready2 inDegree
             Hperm Hnd).
  by destruct (kahnStep _ _ _).
Qed.

Lemma seedReady_Permutation (it1 it2 : MapIteration) (inDegree : gmap string Z)
    (migrationMap : gmap string Migration) :
  seedReady it1 inDegree migrationMap ≡ₚ seedReady it2 inDegree migrationMap.
Proof.
  unfold seedReady. rewrite !seedReady_flat_map. simpl.
  apply Permutation_flat_map. unfold range_of.
  rewrite (range_keys_perm it1). apply Permutation_sym, range_keys_perm.
Qed.

(** With pairwise distinct versions in the pending set, the sequence
    [topologicalSort] returns does not depend on the order in which the
    runtime iterates over the in-degree map. *)
Lemma topologicalSort_order_independent (it1 it2 : MapIteration) (r : MigrationRegistry)
    (ms : list Migration) (applied : gmap string bool) (sorted : list Migration) :
  List.NoDup (map Version ms) ->
  topologicalSort it1 r ms applied = Ok sorted ->
  topologicalSort it2 r ms applied = Ok sorted.
Proof.
  intros Hnd. destruct (list_eq_nil_dec ms) as [->|Hne]; [done|].
  rewrite !topologicalSort_nonempty by done.
  destruct (initGraph_spec ms) as (g0 & d0 & mm & Hinit & _ & _ & _ & _ & Hmmv & _).
  rewrite Hinit. destruct (buildEdges r applied mm ms (g0, d0)) as [[g d]|e]; [|done].
  cbv zeta.
  destruct (kahnLoop_ready_Permutation (length ms) g mm []
              (seedReady it1 d mm) (seedReady it2 d mm) d) as [Hsorted Hdeg].
  { apply seedReady_Permutation. }
  { apply (NoDup_map_incl Version _ ms); [done| |].
    - eapply NoDup_map_inv, (seedReady_NoDup it1). intros x m Hx. by apply Hmmv in Hx as [_ ?].
    - intros m Hm. apply seedReady_In in Hm as (id & _ & _ & Hm). by apply Hmmv in Hm as [? _]. }
  rewrite <- Hsorted.
  destruct (negb (length (k_sorted _) =? length ms)%nat); [discriminate|done].
Qed.

Lemma GetPendingMigrations_order_independent (it1 it2 : MapIteration)
    (r : MigrationRegistry) (applied : gmap string bool) (sorted : list Migration) :
  List.NoDup (map Version (collectPending r applied)) ->
  GetPendingMigrations it1 r applied = Ok sorted ->
  GetPendingMigrations it2 r applied = Ok sorted.
Proof.
  intros Hnd. unfold GetPendingMigrations.
  destruct (topologicalSort it1 r _ applied) as [l|e] eqn:H1; [|discriminate].
  intros [= <-]. by rewrite (topologicalSort_order_independent it1 it2 r _ applied l Hnd H1).
Qed.

(** ** C5: determinism of GetPendingMigrations *)

(** C5 (the code where it departs from the claim).  With two pending
    migrations of the same version and no dependency, the sequence returned
    follows the order in which the runtime iterates over the in-degree map:
    the same registry and the same applied set give [a, b] under one
    iteration order and [b, a] under another. *)
Theorem GetPendingMigrations_tie_follows_map_order :
  ids_of (GetPendingMigrations iter_forward tie_registry ∅)
    = Ok ["1000000000_a"; "1000000000_b"]
  /\ ids_of (GetPendingMigrations iter_backward tie_registry ∅)
    = Ok ["1000000000_b"; "1000000000_a"]
  /\ map Version (collectPending tie_registry ∅) = [1000000000; 1000000000].
Proof. split; [|split]; vm_compute; reflexivity. Qed.

(** ** C1: the order GetPendingMigrations returns *)

Lemma closed_check_sound (pending : list Migration) (applied : gmap string bool) :
  closed_check pending applied = true -> no_dangling pending applied.
Proof.
  unfold closed_check. rewrite forallb_forall. intros Hall m d Hm Hd.
  specialize (Hall m Hm). rewrite forallb_forall in Hall.
  by apply existsb_eqb_In, Hall.
Qed.

Lemma acyclic_by_rank (pending : list Migration) (applied : gmap string bool)
    (rank : string -> nat) :
  (forall m d, In m pending -> In d (unmet applied m) -> (rank d < rank (ID m))%nat) ->
  acyclic pending applied.
Proof.
  intros Hrank.
  assert (Htc : forall x y, tc (depends_on pending applied) x y -> (rank y < rank x)%nat).
  { intros x y Hxy. induction Hxy as [x y (m & Hm & <- & Hd)|x z y (m & Hm & <- & Hd) _ IH].
    - by apply Hrank.
    - specialize (Hrank m z Hm Hd). lia. }
  intros x Hx. specialize (Htc x x Hx). lia.
Qed.

Lemma order_check_sound (pending : list Migration) (applied : gmap string bool)
    (order : list string) :
  order_check pending applied order = true -> acyclic pending applied.
Proof.
  unfold order_check. rewrite forallb_forall. intros Hall.
  apply (acyclic_by_rank pending applied (position order)).
  intros m d Hm Hd. specialize (Hall m Hm). rewrite forallb_forall in Hall.
  by apply Nat.ltb_lt, Hall.
Qed.

Lemma collectPending_NoDup (r : MigrationRegistry) (applied : gmap string bool) :
  registered r -> List.NoDup (map ID (collectPending r applied)).
Proof.
  intros Hr. destruct (registered_wf r Hr) as (Hnd & _ & _).
  unfold collectPending. clear Hr.
  induction (ordered r) as [|x l IH]; simpl in *; [constructor|].
  apply NoDup_cons_iff in Hnd as [Hnot Hnd].
  destruct (negb (lookup_bool applied (ID x))); simpl; [|by apply IH].
  constructor; [|by apply IH].
  intros Hin. apply Hnot. apply in_map_iff in Hin as (y & <- & Hy).
  apply in_map. by apply filter_In in Hy as [Hy _].
Qed.

(** C1.  For every registry built by [Register], every applied set and every
    order of the map iteration: when each dependency of a pending migration
    is applied or pending and the dependency graph over the pending set has
    no cycle, [GetPendingMigrations] returns a sequence that holds each
    pending migration once and is an order of Kahn's topological sort in
    which every step emits a ready migration of smallest version.  In
    particular, on the registry of TestMigrationOrdering with nothing
    applied it returns first, second, third, fourth. *)
Theorem GetPendingMigrations_kahn_order :
  (forall (it : MapIteration) (r : MigrationRegistry) (applied : gmap string bool),
     registered r ->
     no_dangling (collectPending r applied) applied ->
     acyclic (collectPending r applied) applied ->
     exists sorted,
       GetPendingMigrations it r applied = Ok sorted
       /\ Permutation sorted (collectPending r applied)
       /\ kahn_order (collectPending r applied) applied sorted)
  /\ (forall it : MapIteration,
        ids_of (GetPendingMigrations it ordering_registry ∅)
        = Ok ["1000000000_first"; "2000000000_second";
              "1500000000_third"; "3000000000_fourth"]).
Proof.
  split.
  - intros it r applied Hr Hclosed Hacyclic.
    destruct (topologicalSort_kahn it r (collectPending r applied) applied)
      as (sorted & Hsort & Hperm & Horder); [by apply collectPending_NoDup|done|done|].
    exists sorted. unfold GetPendingMigrations. by rewrite Hsort.
  - intros it.
    assert (H0 : ids_of (GetPendingMigrations iter_forward ordering_registry ∅)
                 = Ok ["1000000000_first"; "2000000000_second";
                       "1500000000_third"; "3000000000_fourth"])
      by (vm_compute; reflexivity).
    destruct (GetPendingMigrations iter_forward ordering_registry ∅) as [l|e] eqn:Hl;
      [|discriminate H0].
    rewrite (GetPendingMigrations_order_independent iter_forward it _ _ l); [exact H0| |exact Hl].
    replace (map Version (collectPending ordering_registry ∅))
      with [1000000000; 1500000000; 2000000000; 3000000000]
      by (vm_compute; reflexivity).
    repeat constructor; simpl; intros H; repeat destruct H as [H|H]; try discriminate H; done.
Qed.

Lemma GetPendingMigrations_kahn_order_witness :
  exists sorted,
    GetPendingMigrations iter_backward ordering_registry ∅ = Ok sorted
    /\ Permutation sorted (collectPending ordering_registry ∅)
    /\ kahn_order (collectPending ordering_registry ∅) ∅ sorted.
Proof.
  apply (proj1 GetPendingMigrations_kahn_order iter_backward ordering_registry ∅).
  - apply registry_of_registered.
  - apply closed_check_sound. vm_compute. reflexivity.
  - apply (order_check_sound _ _ ["1000000000_first"; "2000000000_second";
                                  "1500000000_third"; "3000000000_fourth"]).
    vm_compute. reflexivity.
Defined.

(** ** The fuel of the loop *)

(** On a pending set with distinct identifiers and no dangling dependency,
    cyclic or not, the loop run by [topologicalSort] has exited when its
    fuel is spent: nothing is left in [ready]. *)
Lemma kahnLoop_exits (it : MapIteration) (r : MigrationRegistry)
    (pending : list Migration) (applied : gmap string bool) :
  List.NoDup (map ID pending) ->
  no_dangling pending applied ->
  exists graph0 inDegree0 migrationMap graph inDegree,
    initGraph pending = (graph0, inDegree0, migrationMap)
    /\ buildEdges r applied migrationMap pending (graph0, inDegree0) = Ok (graph, inDegree)
    /\ k_ready (kahnLoop (length pending) graph migrationMap
                  {| k_sorted := []; k_ready := seedReady it inDegree migrationMap;
                     k_inDegree := inDegree |}) = [].
Proof.
  intros Hnd Hclosed.
  destruct (topologicalSort_start it r pending applied Hnd Hclosed)
    as (g0 & d0 & mm & g & d & Hinit & Hbuild & Hg & Hmm & Hinv0).
  exists g0, d0, mm, g, d. split; [done|]. split; [done|].
  destruct (kahnLoop_inv applied pending g mm Hnd Hg Hmm (length pending) _ Hinv0)
    as [Hinv Hexit].
  pose proof (kahn_inv_length applied pending _ Hinv) as Hbound.
  destruct Hexit as [|Hlen]; [done|]. simpl in Hlen.
  apply length_zero_iff_nil. lia.
Qed.

(** * Further properties of the registry *)

(** ** Where [Register] places a migration *)

(** The insertion loop moves the appended element left past the elements
    with a strictly greater version, and stops at the first one it does not
    precede. *)
Lemma sink_spec (pre : list Migration) (x : Migration) (post : list Migration) :
  exists p1 p2,
    pre = p1 ++ p2
    /\ sink (length pre) (pre ++ x :: post) = p1 ++ x :: p2 ++ post
    /\ Forall (fun b => Version x < Version b) p2
    /\ (p1 = [] \/ exists p a, p1 = p ++ [a] /\ Version a <= Version x).
Proof.
  revert post. induction pre as [|b p IH] using rev_ind; intros post.
  - exists [], []. simpl. split; [done|]. split; [done|]. split; [constructor|by left].
  - rewrite length_app. simpl. replace (length p + 1)%nat with (S (length p)) by lia.
    cbn [sink].
    assert (Hx : ((p ++ [b]) ++ x :: post) !! S (length p) = Some x).
    { rewrite <- app_assoc. simpl. rewrite lookup_app_r by lia.
      by replace (S (length p) - length p)%nat with 1%nat by lia. }
    assert (Hb : ((p ++ [b]) ++ x :: post) !! length p = Some b).
    { rewrite <- app_assoc. simpl. rewrite lookup_app_r by lia.
      by replace (length p - length p)%nat with 0%nat by lia. }
    rewrite Hx, Hb. destruct (Version x <? Version b) eqn:Hlt; Ztests.
    + assert (Hswap : <[length p := x]> (<[S (length p) := b]> ((p ++ [b]) ++ x :: post))
                      = p ++ x :: b :: post).
      { rewrite <- app_assoc. simpl.
        rewrite (insert_app_r_alt p _ (S (length p))) by lia.
        replace (S (length p) - length p)%nat with 1%nat by lia. simpl.
        rewrite (insert_app_r_alt p _ (length p)) by lia.
        by replace (length p - length p)%nat with 0%nat by lia. }
      rewrite Hswap.
      destruct (IH (b :: post)) as (p1 & p2 & Hp & Hsink & Hp2 & Hp1).
      exists p1, (p2 ++ [b]). split; [by rewrite Hp, app_assoc|].
      split; [by rewrite Hsink, <- app_assoc|].
      split; [|done]. apply Forall_app. split; [done|]. by constructor.
    + exists (p ++ [b]), []. split; [by rewrite app_nil_r|]. split; [done|].
      split; [constructor|]. right. exists p, b. split; [done|lia].
Qed.

Lemma sink_sorted (pre : list Migration) (x : Migration) :
  StronglySorted version_le pre ->
  exists p1 p2,
    pre = p1 ++ p2
    /\ sink (length (pre ++ [x]) - 1) (pre ++ [x]) = p1 ++ x :: p2
    /\ Forall (fun a => Version a <= Version x) p1
    /\ Forall (fun b => Version x < Version b) p2
    /\ StronglySorted version_le (p1 ++ x :: p2).
Proof.
  intros Hsorted.
  destruct (sink_spec pre x []) as (p1 & p2 & Hp & Hsink & Hp2 & Hp1).
  exists p1, p2. split; [done|].
  split.
  { rewrite length_app. simpl. replace (length pre + 1 - 1)%nat with (length pre) by lia.
    by rewrite Hsink, app_nil_r. }
  subst pre. apply StronglySorted_app in Hsorted as (H12 & Hs1 & Hs2).
  assert (Hle : Forall (fun a => Version a <= Version x) p1).
  { destruct Hp1 as [->|(p & a & -> & Ha)]; [constructor|].
    apply StronglySorted_app in Hs1 as (Hpa & _ & _).
    apply Forall_app. split; [|by constructor].
    apply Forall_forall. intros c Hc.
    specialize (Hpa c a). unfold version_le in Hpa.
    etrans; [apply Hpa|done]; [done|by left]. }
  split; [done|]. split; [done|].
  apply StronglySorted_app. split; [|split; [done|]].
  - intros a b Ha Hb. apply elem_of_cons in Hb as [->|Hb].
    + rewrite Forall_forall in Hle. by apply Hle.
    + by apply H12.
  - constructor; [done|]. eapply Forall_impl; [apply Hp2|].
    intros b Hb. unfold version_le. simpl in Hb. lia.
Qed.

Lemma Register_place (r r' : MigrationRegistry) (m : Migration) :
  StronglySorted version_le (ordered r) ->
  Register r m = Ok r' ->
  exists v pre post,
    ParseMigrationVersion (ID m) = Ok v
    /\ ordered r = pre ++ post
    /\ ordered r' = pre ++ set_Version m v :: post
    /\ Forall (fun a => Version a <= v) pre
    /\ Forall (fun b => v < Version b) post
    /\ StronglySorted version_le (ordered r').
Proof.
  intros Hsorted. unfold Register.
  destruct (migrations r !! ID m); [discriminate|].
  destruct (String.eqb (ID m) ""); [discriminate|].
  destruct (Up m); [|discriminate]. destruct (Down m); [|discriminate].
  destruct (ParseMigrationVersion (ID m)) as [v|e] eqn:Hp; [|discriminate].
  intros [= <-]. cbn [ordered].
  destruct (sink_sorted (ordered r) (set_Version m v) Hsorted)
    as (p1 & p2 & Hord & Hsink & H1 & H2 & Hs).
  exists v, p1, p2. rewrite Hsink. by repeat split.
Qed.

Lemma registered_sorted (r : MigrationRegistry) :
  registered r -> StronglySorted version_le (ordered r).
Proof.
  induction 1 as [|r m r' Hr IH Hreg]; [constructor|].
  by destruct (Register_place r r' m IH Hreg) as (? & ? & ? & ? & ? & ? & ? & ? & ?).
Qed.

(** X1.  [Register] on a registry built by [Register]: the new migration,
    stamped with the version parsed from its identifier, is inserted into
    the ordered list after every migration whose version is at most its own
    (so after the ones with an equal version, registered earlier) and before
    every migration with a greater version; nothing else in the list moves. *)
Theorem Register_inserts_by_version (r r' : MigrationRegistry) (m : Migration) :
  registered r ->
  Register r m = Ok r' ->
  exists v pre post,
    ParseMigrationVersion (ID m) = Ok v
    /\ GetMigrations r = pre ++ post
    /\ GetMigrations r' = pre ++ set_Version m v :: post
    /\ Forall (fun a => Version a <= v) pre
    /\ Forall (fun b => v < Version b) post.
Proof.
  intros Hr Hreg.
  destruct (Register_place r r' m (registered_sorted r Hr) Hreg)
    as (v & pre & post & Hp & Hord & Hord' & Hpre & Hpost & _).
  by exists v, pre, post.
Qed.

Lemma Register_inserts_by_version_witness :
  exists v pre post,
    ParseMigrationVersion "1500000000_third" = Ok v
    /\ GetMigrations (registry_of [mk "1000000000_first" [] false;
                                   mk "2000000000_second" [] false]) = pre ++ post
    /\ GetMigrations (registry_of [mk "1000000000_first" [] false;
                                   mk "2000000000_second" [] false;
                                   mk "1500000000_third" [] false])
       = pre ++ set_Version (mk "1500000000_third" [] false) v :: post
    /\ Forall (fun a => Version a <= v) pre
    /\ Forall (fun b => v < Version b) post.
Proof.
  apply (Register_inserts_by_version
           (registry_of [mk "1000000000_first" [] false; mk "2000000000_second" [] false])
           (registry_of [mk "1000000000_first" [] false; mk "2000000000_second" [] false;
                         mk "1500000000_third" [] false])
           (mk "1500000000_third" [] false)).
  - apply registry_of_registered.
  - vm_compute. reflexivity.
Defined.

Lemma registered_lookup (r : MigrationRegistry) (id : string) (m : Migration) :
  registered r ->
  migrations r !! id = Some m <-> In m (ordered r) /\ ID m = id.
Proof.
  intros Hr. revert id m.
  induction Hr as [|r m0 r' Hr IH Hreg]; intros id m.
  - simpl. rewrite lookup_empty. split; [done|by intros [[] _]].
  - destruct (registered_wf r Hr) as (_ & Hmap & _).
    apply Register_inv in Hreg as (v & Hfree & Hp & Hm' & Hperm).
    rewrite Hm'. split.
    + intros Hlook. destruct (decide (ID m0 = id)) as [Heq|Hne].
      * subst id. rewrite lookup_insert_eq in Hlook. injection Hlook as <-.
        split; [|done]. eapply Permutation_in; [apply Permutation_sym, Hperm|by left].
      * rewrite lookup_insert_ne in Hlook by done. apply IH in Hlook as [Hin Hid].
        split; [|done]. eapply Permutation_in; [apply Permutation_sym, Hperm|by right].
    + intros [Hin Hid]. eapply Permutation_in in Hin; [|apply Hperm].
      destruct Hin as [<-|Hin].
      * subst id. cbn [ID set_Version]. by rewrite lookup_insert_eq.
      * assert (Hne : ID m0 <> id).
        { intros Heq. subst id.
          assert (Hsome : is_Some (migrations r !! ID m0)).
          { apply Hmap. rewrite Heq. by apply in_map. }
          rewrite Hfree in Hsome. by destruct Hsome. }
        rewrite lookup_insert_ne by done. by apply IH.
Qed.

(** X2.  The invariant of a registry built by [Register]: [GetMigrations]
    lists the migrations in ascending version order, no two of them share an
    identifier, [GetMigration] finds exactly the listed migration under each
    identifier, and the version of each is the one parsed from its
    identifier. *)
Theorem registry_invariant (r : MigrationRegistry) :
  registered r ->
  StronglySorted version_le (GetMigrations r)
  /\ List.NoDup (map ID (GetMigrations r))
  /\ (forall id m, GetMigration r id = Some m <-> In m (GetMigrations r) /\ ID m = id)
  /\ (forall m, In m (GetMigrations r) -> ParseMigrationVersion (ID m) = Ok (Version m)).
Proof.
  intros Hr. destruct (registered_wf r Hr) as (Hnd & _ & Hver).
  split; [by apply registered_sorted|]. split; [done|]. split; [|done].
  intros id m. by apply registered_lookup.
Qed.

Lemma registry_invariant_witness :
  StronglySorted version_le (GetMigrations ordering_registry)
  /\ List.NoDup (map ID (GetMigrations ordering_registry))
  /\ (forall id m, GetMigration ordering_registry id = Some m
                   <-> In m (GetMigrations ordering_registry) /\ ID m = id)
  /\ (forall m, In m (GetMigrations ordering_registry) ->
                ParseMigrationVersion (ID m) = Ok (Version m)).
Proof. apply (registry_invariant ordering_registry). apply registry_of_registered. Defined.

(** X3.  What [Register] accepts: exactly the migrations whose identifier is
    not registered yet and parses as a version, and whose [Up] and [Down]
    callbacks are both set.  The test for an empty identifier refuses nothing
    the parser would take. *)
Theorem Register_accepts_iff (r : MigrationRegistry) (m : Migration) :
  is_ok (Register r m) = true
  <-> migrations r !! ID m = None
      /\ is_Some (Up m) /\ is_Some (Down m)
      /\ is_ok (ParseMigrationVersion (ID m)) = true.
Proof.
  unfold Register. destruct (migrations r !! ID m) as [old|] eqn:Hfree.
  { simpl. split; [done|]. by intros [? _]. }
  destruct (String.eqb (ID m) "") eqn:Hempty.
  { apply String.eqb_eq in Hempty. rewrite Hempty. simpl.
    split; [done|]. by intros (_ & _ & _ & ?). }
  destruct (Up m) as [up|].
  2:{ simpl. split; [done|]. by intros (_ & [? ?] & _). }
  destruct (Down m) as [down|].
  2:{ simpl. split; [done|]. by intros (_ & _ & [? ?] & _). }
  destruct (ParseMigrationVersion (ID m)) as [v|e]; simpl.
  - split; [|done]. intros _. by repeat split; eauto.
  - split; [done|]. by intros (_ & _ & _ & ?).
Qed.

Lemma StronglySorted_list_filter {A} (R : A -> A -> Prop) (f : A -> bool) (l : list A) :
  StronglySorted R l -> StronglySorted R (List.filter f l).
Proof.
  induction 1 as [|a l Hl IH Ha]; simpl; [constructor|].
  destruct (f a); [|done]. constructor; [done|].
  rewrite List.Forall_forall in *. intros x Hx. apply filter_In in Hx as [Hx _].
  by apply Ha.
Qed.

(** X4.  [GetMigrationsInVersionRange] on a registry built by [Register]
    returns exactly the registered migrations whose version lies in the
    closed range, each once, in ascending version order; an empty range
    ([toVersion < fromVersion]) gives nothing. *)
Theorem GetMigrationsInVersionRange_spec (r : MigrationRegistry) (fromVersion toVersion : Z) :
  registered r ->
  StronglySorted version_le (GetMigrationsInVersionRange r fromVersion toVersion)
  /\ List.NoDup (map ID (GetMigrationsInVersionRange r fromVersion toVersion))
  /\ (forall m, In m (GetMigrationsInVersionRange r fromVersion toVersion)
                <-> In m (GetMigrations r) /\ fromVersion <= Version m <= toVersion)
  /\ (toVersion < fromVersion -> GetMigrationsInVersionRange r fromVersion toVersion = []).
Proof.
  intros Hr. destruct (registered_wf r Hr) as (Hnd & _ & _).
  assert (Hin : forall m, In m (GetMigrationsInVersionRange r fromVersion toVersion)
                          <-> In m (GetMigrations r) /\ fromVersion <= Version m <= toVersion).
  { intros m. unfold GetMigrationsInVersionRange, GetMigrations. rewrite filter_In.
    rewrite andb_true_iff. split.
    - intros [Hm [H1 H2]]. Ztests. split; [done|lia].
    - intros [Hm [H1 H2]]. split; [done|]. split; [apply Z.geb_le|apply Z.leb_le]; lia. }
  split; [by apply StronglySorted_list_filter, registered_sorted|].
  split; [by apply NoDup_map_filter|]. split; [done|].
  intros Hempty.
  destruct (GetMigrationsInVersionRange r fromVersion toVersion) as [|m l] eqn:Hl; [done|].
  assert (Hm : In m (m :: l)) by (by left). apply Hin in Hm as [_ ?]. lia.
Qed.

Lemma GetMigrationsInVersionRange_witness :
  StronglySorted version_le (GetMigrationsInVersionRange ordering_registry 1500000000 2000000000)
  /\ List.NoDup (map ID (GetMigrationsInVersionRange ordering_registry 1500000000 2000000000))
  /\ (forall m, In m (GetMigrationsInVersionRange ordering_registry 1500000000 2000000000)
                <-> In m (GetMigrations ordering_registry)
                    /\ 1500000000 <= Version m <= 2000000000)
  /\ (2000000000 < 1500000000 ->
      GetMigrationsInVersionRange ordering_registry 1500000000 2000000000 = []).
Proof.
  apply (GetMigrationsInVersionRange_spec ordering_registry 1500000000 2000000000).
  apply registry_of_registered.
Defined.

(** ** Decimal timestamps *)

Lemma uint_val_ge (d : Decimal.uint) (n : Z) : 0 <= n -> n <= uint_val d n.
Proof.
  revert n. induction d as [|d IH|d IH|d IH|d IH|d IH|d IH|d IH|d IH|d IH|d IH];
    intros n Hn; simpl; [lia|..]; (etrans; [|apply IH]; lia).
Qed.

Lemma of_uint_acc_val (d : Decimal.uint) (acc : positive) :
  Z.pos (Pos.of_uint_acc d acc) = uint_val d (Z.pos acc).
Proof.
  revert acc. induction d as [|d IH|d IH|d IH|d IH|d IH|d IH|d IH|d IH|d IH|d IH];
    intros acc; cbn [Pos.of_uint_acc uint_val]; [done|..]; rewrite IH; f_equal; lia.
Qed.

Lemma of_uint_val (d : Decimal.uint) : Z.of_N (Pos.of_uint d) = uint_val d 0.
Proof.
  induction d as [|d IH|d IH|d IH|d IH|d IH|d IH|d IH|d IH|d IH|d IH];
    cbn [Pos.of_uint uint_val]; [done|done|..]; cbn [Z.of_N]; by rewrite of_uint_acc_val.
Qed.

Lemma parse_digits_step (c : ascii) (rest : string) (n k : Z) :
  strconv.is_digit c = true -> strconv.digit_val c = k ->
  0 <= n -> 0 <= k -> 10 * n + k < 2 ^ 63 ->
  strconv.parse_digits (String c rest) n = strconv.parse_digits rest (10 * n + k).
Proof.
  intros Hdigit Hval Hn Hk Hbound. cbn [strconv.parse_digits]. rewrite Hdigit, Hval.
  assert (Hmax : strconv.maxUint64 = 18446744073709551615) by reflexivity.
  rewrite Hmax. change (18446744073709551615 / 10 + 1) with 1844674407370955162.
  change (2 ^ 63) with 9223372036854775808 in Hbound.
  destruct (n >=? 1844674407370955162) eqn:E1; Ztests; [lia|].
  destruct (n * 10 + k >? 18446744073709551615) eqn:E2; Ztests; [lia|].
  f_equal. lia.
Qed.

Lemma parse_digits_uint (d : Decimal.uint) (n : Z) :
  0 <= n -> uint_val d n < 2 ^ 63 ->
  strconv.parse_digits (NilEmpty.string_of_uint d) n = inr (uint_val d n).
Proof.
  revert n. induction d as [|d IH|d IH|d IH|d IH|d IH|d IH|d IH|d IH|d IH|d IH];
    intros n Hn Hval; [done|..];
    cbn [NilEmpty.string_of_uint uint_val] in *;
    (erewrite parse_digits_step;
     [apply IH; [lia|done]
     |reflexivity|reflexivity|done|lia
     |eapply Z.le_lt_trans; [apply (uint_val_ge d); lia|exact Hval]]).
Qed.

Lemma cut_uint (d : Decimal.uint) (desc : string) :
  strings.cut "_" (NilEmpty.string_of_uint d +:+ String "_" desc)
  = Some (NilEmpty.string_of_uint d, desc).
Proof.
  induction d as [|d IH|d IH|d IH|d IH|d IH|d IH|d IH|d IH|d IH|d IH];
    cbn [NilEmpty.string_of_uint]; [reflexivity|..];
    (match goal with
     | |- strings.cut _ (String ?c ?s +:+ ?t) = _ =>
         change (String c s +:+ t) with (String c (s +:+ t))
     end);
    cbn [strings.cut]; rewrite IH; reflexivity.
Qed.

Lemma ParseInt_uint (d : Decimal.uint) :
  d <> Decimal.Nil -> uint_val d 0 < 2 ^ 63 ->
  strconv.ParseInt (NilEmpty.string_of_uint d) = Ok (uint_val d 0).
Proof.
  intros Hd Hval. pose proof (parse_digits_uint d 0 ltac:(lia) Hval) as Hparse.
  assert (Hcut : (uint_val d 0 >=? 2 ^ 63) = false).
  { destruct (uint_val d 0 >=? 2 ^ 63) eqn:E; Ztests; [lia|done]. }
  destruct d; [done|..]; cbn [NilEmpty.string_of_uint] in *;
    unfold strconv.ParseInt, strconv.ParseUint;
    (match goal with
     | |- context [Ascii.eqb ?c "+"] =>
         change (Ascii.eqb c "+") with false; change (Ascii.eqb c "-") with false
     end);
    cbv beta iota zeta; cbn [orb negb andb]; rewrite Hparse; cbv beta iota;
    rewrite Hcut; reflexivity.
Qed.

Lemma fmt_d_pos (p : positive) :
  exists d, fmt_d (Z.pos p) = NilEmpty.string_of_uint d
            /\ d <> Decimal.Nil /\ uint_val d 0 = Z.pos p.
Proof.
  pose proof (DecimalPos.Unsigned.of_to p) as Hof.
  exists (Pos.to_uint p).
  assert (Hval : uint_val (Pos.to_uint p) 0 = Z.pos p).
  { by rewrite <- of_uint_val, Hof. }
  assert (Hnil : Pos.to_uint p <> Decimal.Nil).
  { intros Heq. rewrite Heq in Hval. discriminate Hval. }
  split; [|done]. unfold fmt_d. cbn [Z.to_int NilZero.string_of_int].
  unfold NilZero.string_of_uint. by destruct (Pos.to_uint p).
Qed.

(** X5.  Printing and parsing a version: for every timestamp in the
    accepted range (2000-01-01 to 2100-01-01, both included) and every
    description, the identifier made of the decimal timestamp, an underscore
    and the description parses back to that timestamp. *)
Theorem ParseMigrationVersion_accepts_decimal (v : Z) (description : string) :
  946684800 <= v <= 4102444800 ->
  ParseMigrationVersion (fmt_d v +:+ "_" +:+ description) = Ok v.
Proof.
  intros Hrange. destruct v as [|p|p]; [lia| |lia].
  destruct (fmt_d_pos p) as (d & -> & Hd & Hval).
  unfold ParseMigrationVersion, strings.SplitN2.
  change ("_" +:+ description) with (String "_" description).
  rewrite cut_uint, (ParseInt_uint d Hd), Hval by (rewrite Hval; lia).
  destruct (Z.pos p <? 946684800) eqn:E1; Ztests; [lia|].
  destruct (Z.pos p >? 4102444800) eqn:E2; Ztests; [lia|]. reflexivity.
Qed.

Lemma ParseMigrationVersion_accepts_decimal_witness :
  ParseMigrationVersion (fmt_d 1754917200 +:+ "_" +:+ "add users") = Ok 1754917200.
Proof. apply (ParseMigrationVersion_accepts_decimal 1754917200 "add users"). lia. Defined.

(** * Further properties of the dependency sort *)

Lemma topologicalSort_sound (it : MapIteration) (r : MigrationRegistry)
    (pending : list Migration) (applied : gmap string bool) (sorted : list Migration) :
  List.NoDup (map ID pending) ->
  no_dangling pending applied ->
  topologicalSort it r pending applied = Ok sorted ->
  Permutation sorted pending /\ kahn_order pending applied sorted.
Proof.
  intros Hnd Hclosed.
  destruct (list_eq_nil_dec pending) as [->|Hne].
  { intros [= <-]. split; [done|]. intros pre x post Heq. by destruct pre. }
  destruct (topologicalSort_start it r pending applied Hnd Hclosed)
    as (g0 & d0 & mm & g & d & Hinit & Hbuild & Hg & Hmm & Hinv0).
  rewrite topologicalSort_nonempty by done.
  rewrite Hinit, Hbuild.
  set (st0 := {| k_sorted := []; k_ready := seedReady it d mm; k_inDegree := d |}) in *.
  destruct (kahnLoop_inv applied pending g mm Hnd Hg Hmm (length pending) st0 Hinv0)
    as [Hinv _].
  set (st := kahnLoop (length pending) g mm st0) in *.
  cbv zeta. destruct (length (k_sorted st) =? length pending)%nat eqn:Hlen; [|discriminate].
  simpl. intros [= <-]. apply Nat.eqb_eq in Hlen.
  assert (Hsnd : List.NoDup (map ID (k_sorted st))).
  { pose proof (inv_nodup _ _ _ Hinv) as H. rewrite map_app in H.
    by apply NoDup_app_remove_r in H. }
  split.
  - apply emitted_all_Permutation; [done|done| |done].
    intros m Hm. apply (inv_pending _ _ _ Hinv), in_app_iff. by left.
  - apply (inv_order _ _ _ Hinv).
Qed.

Lemma position_In (l1 l2 : list string) (x : string) :
  In x l1 -> (position (l1 ++ l2) x < length l1)%nat.
Proof.
  induction l1 as [|a l1 IH]; [done|]. intros Hin. simpl.
  destruct (String.eqb a x) eqn:E; [lia|].
  destruct Hin as [->|Hin]; [by rewrite String.eqb_refl in E|].
  specialize (IH Hin). lia.
Qed.

Lemma position_not_In (l1 l2 : list string) (x : string) :
  ~ In x l1 -> position (l1 ++ x :: l2) x = length l1.
Proof.
  induction l1 as [|a l1 IH]; intros Hnot; simpl.
  - by rewrite String.eqb_refl.
  - destruct (String.eqb a x) eqn:E.
    + apply String.eqb_eq in E. exfalso. apply Hnot. by left.
    + rewrite IH; [done|]. intros Hin. apply Hnot. by right.
Qed.

(** An order in which every migration comes after its unmet dependencies
    exists only when the dependency graph has no cycle. *)
Lemma kahn_order_acyclic (pending sorted : list Migration) (applied : gmap string bool) :
  (forall m, In m pending -> In m sorted) ->
  List.NoDup (map ID sorted) ->
  kahn_order pending applied sorted ->
  acyclic pending applied.
Proof.
  intros Hall Hnd Horder.
  apply (acyclic_by_rank pending applied (position (map ID sorted))).
  intros m d Hm Hd. apply Hall, in_split in Hm as (pre & post & Hsplit).
  destruct (Horder pre m post Hsplit) as [(_ & _ & Hdeps) _].
  rewrite Hsplit, map_app in *. cbn [map] in *.
  rewrite position_not_In.
  - by apply position_In, Hdeps.
  - apply NoDup_remove_2 in Hnd. intros Hin. apply Hnd, in_app_iff. by left.
Qed.

(** The inner loop of the edge construction over the dependencies of [m]:
    it fails at the first dependency that is neither applied nor pending. *)
Lemma addDependencies_dangling (r : MigrationRegistry) (applied : gmap string bool)
    (mm : gmap string Migration) (m : Migration) :
  (forall d, lookup_bool applied d = false -> mm !! d = None -> migrations r !! d = None) ->
  forall deps acc,
    (exists d, In d deps /\ lookup_bool applied d = false /\ mm !! d = None
               /\ fold_result (addDependency r applied mm m) deps acc
                  = Err ("migration " +:+ ID m +:+ " depends on non-existent migration "
                         +:+ d))
    \/ (Forall (fun d => lookup_bool applied d = true \/ is_Some (mm !! d)) deps
        /\ exists acc', fold_result (addDependency r applied mm m) deps acc = Ok acc').
Proof.
  intros Hreg. induction deps as [|d deps IH]; intros [g deg].
  { right. split; [constructor|]. by eexists. }
  cbn [fold_result]. unfold addDependency at 1 3.
  destruct (lookup_bool applied d) eqn:Happlied; cbn [negb].
  - destruct (IH (g, deg)) as [(d' & Hin & Hd' & Hmm & Herr)|[Hall [acc' Hok]]].
    + left. exists d'. by repeat split; [right|..].
    + right. split; [constructor; [by left|done]|by exists acc'].
  - destruct (mm !! d) as [md|] eqn:Hmm.
    + destruct (IH (<[d := lookup_list g d ++ [ID m]]> g,
                    <[ID m := lookup_int deg (ID m) + 1]> deg))
        as [(d' & Hin & Hd' & Hmm' & Herr)|[Hall [acc' Hok]]].
      * left. exists d'. by repeat split; [right|..].
      * right. split; [constructor; [right; by rewrite Hmm|done]|by exists acc'].
    + rewrite (Hreg d Happlied Hmm). left. exists d. by repeat split; [left|..].
Qed.

Lemma buildEdges_dangling (r : MigrationRegistry) (applied : gmap string bool)
    (mm : gmap string Migration) :
  (forall d, lookup_bool applied d = false -> mm !! d = None -> migrations r !! d = None) ->
  forall ms acc,
    (exists m d, In m ms /\ In d (Dependencies m)
                 /\ lookup_bool applied d = false /\ mm !! d = None
                 /\ buildEdges r applied mm ms acc
                    = Err ("migration " +:+ ID m +:+ " depends on non-existent migration "
                           +:+ d))
    \/ (Forall (fun m => Forall (fun d => lookup_bool applied d = true \/ is_Some (mm !! d))
                                (Dependencies m)) ms
        /\ exists acc', buildEdges r applied mm ms acc = Ok acc').
Proof.
  intros Hreg. induction ms as [|m ms IH]; intros acc.
  { right. split; [constructor|]. by eexists. }
  unfold buildEdges in *. cbn [fold_result].
  destruct (addDependencies_dangling r applied mm m Hreg (Dependencies m) acc)
    as [(d & Hin & Hd & Hmm & Herr)|[Hall [acc' Hok]]].
  - left. exists m, d. rewrite Herr. by repeat split; [left|..].
  - rewrite Hok. destruct (IH acc') as [(m' & d & Hm' & Hin & Hd & Hmm & Herr)|[Hall' Hok']].
    + left. exists m', d. by repeat split; [right|..].
    + right. split; [by constructor|done].
Qed.

Lemma In_unmet (applied : gmap string bool) (m : Migration) (d : string) :
  In d (unmet applied m) <-> In d (Dependencies m) /\ lookup_bool applied d = false.
Proof. unfold unmet. rewrite filter_In, negb_true_iff. done. Qed.

Lemma In_collectPending (r : MigrationRegistry) (applied : gmap string bool) (m : Migration) :
  In m (collectPending r applied) <-> In m (ordered r) /\ lookup_bool applied (ID m) = false.
Proof. unfold collectPending. rewrite filter_In, negb_true_iff. done. Qed.

Lemma GetPendingMigrations_dangling (it : MapIteration) (r : MigrationRegistry)
    (applied : gmap string bool) :
  registered r ->
  (exists m d, In m (collectPending r applied) /\ In d (unmet applied m)
               /\ ~ In d (map ID (collectPending r applied))) ->
  exists m d,
    In m (collectPending r applied) /\ In d (unmet applied m)
    /\ migrations r !! d = None
    /\ GetPendingMigrations it r applied
       = Err ("failed to sort migrations by dependencies: migration " +:+ ID m
              +:+ " depends on non-existent migration " +:+ d).
Proof.
  intros Hr (m0 & d0 & Hm0 & Hd0 & Hnot0). unfold GetPendingMigrations.
  set (pending := collectPending r applied) in *.
  assert (Hne : pending <> []) by (intros Heq; by rewrite Heq in Hm0).
  rewrite topologicalSort_nonempty by done.
  destruct (initGraph_spec pending)
    as (g0 & deg0 & mm & Hinit & _ & _ & _ & Hkeys & _ & _).
  rewrite Hinit.
  assert (Hreg : forall d, lookup_bool applied d = false -> mm !! d = None ->
                           migrations r !! d = None).
  { intros d Hd Hmm. destruct (migrations r !! d) as [md|] eqn:Hlook; [|done].
    apply (registered_lookup r d md Hr) in Hlook as [Hin Hid].
    assert (Hsome : is_Some (mm !! d)).
    { apply Hkeys. rewrite <- Hid. apply in_map, In_collectPending. by rewrite Hid. }
    rewrite Hmm in Hsome. by destruct Hsome. }
  destruct (buildEdges_dangling r applied mm Hreg pending (g0, deg0))
    as [(m & d & Hm & Hin & Hd & Hmm & Herr)|[Hall _]].
  - exists m, d. rewrite Herr. split; [done|]. split; [by apply In_unmet|].
    split; [by apply Hreg|]. reflexivity.
  - exfalso. rewrite List.Forall_forall in Hall. specialize (Hall m0 Hm0).
    rewrite List.Forall_forall in Hall. apply In_unmet in Hd0 as [Hin Hd].
    destruct (Hall d0 Hin) as [Happ|Hsome]; [congruence|].
    by apply Hnot0, Hkeys.
Qed.

(** The loop never touches the in-degree of an identifier that is not
    pending. *)
Lemma kahnStep_outside (applied : gmap string bool) (pending : list Migration)
    (graph : gmap string (list string)) (migrationMap : gmap string Migration)
    (st st' : kahn) :
  List.NoDup (map ID pending) ->
  (forall x, lookup_list graph x = dependents pending applied x) ->
  (forall m, In m pending -> migrationMap !! ID m = Some m) ->
  kahn_inv pending applied st ->
  kahnStep graph migrationMap st = Some st' ->
  forall x, ~ In x (map ID pending) ->
            lookup_int (k_inDegree st') x = lookup_int (k_inDegree st) x.
Proof.
  intros Hnd Hg Hmm [Hdegree Hnodup Hpending Hready Hzero Horder] Hstep.
  unfold kahnStep in Hstep.
  destruct (k_ready st) as [|r0 rs] eqn:Hr; [discriminate|]. rewrite <- Hr in *.
  clear Hr r0 rs.
  destruct (sortReady (k_ready st)) as [|current rest] eqn:Hsort; [discriminate|].
  pose proof (sortReady_Permutation (k_ready st)) as Hperm. rewrite Hsort in Hperm.
  assert (Hcur_new : ~ In (ID current) (map ID (k_sorted st))).
  { intros Hin. rewrite map_app in Hnodup.
    apply in_split in Hin as (l1 & l2 & Heq). rewrite Heq, <- app_assoc in Hnodup.
    apply NoDup_remove_2 in Hnodup. apply Hnodup.
    rewrite !in_app_iff. right. right. apply in_map.
    eapply Permutation_in; [exact Hperm|by left]. }
  rewrite Hg in Hstep.
  destruct (release_dependents applied pending migrationMap Hmm pending (ID current)
              (k_inDegree st) rest Hnd (fun m H => H)) as (deg' & Hfold & _ & Hout).
  { intros m Hm. rewrite Hdegree by done.
    pose proof (remaining_count applied (k_sorted st) m (ID current) Hcur_new) as Hc.
    simpl in Hc. lia. }
  rewrite Hfold in Hstep. injection Hstep as <-. exact Hout.
Qed.

Lemma kahnLoop_outside (applied : gmap string bool) (pending : list Migration)
    (graph : gmap string (list string)) (migrationMap : gmap string Migration)
    (fuel : nat) (st : kahn) :
  List.NoDup (map ID pending) ->
  (forall x, lookup_list graph x = dependents pending applied x) ->
  (forall m, In m pending -> migrationMap !! ID m = Some m) ->
  kahn_inv pending applied st ->
  forall x, ~ In x (map ID pending) ->
            lookup_int (k_inDegree (kahnLoop fuel graph migrationMap st)) x
            = lookup_int (k_inDegree st) x.
Proof.
  intros Hnd Hg Hmm. revert st. induction fuel as [|fuel IH]; intros st Hinv x Hx; [done|].
  simpl. destruct (kahnStep graph migrationMap st) as [st'|] eqn:Hstep; [|done].
  destruct (kahnStep_inv applied pending graph migrationMap Hnd Hg Hmm st st' Hinv Hstep)
    as [Hinv' _].
  rewrite (IH st' Hinv' x Hx).
  by apply (kahnStep_outside applied pending graph migrationMap st st').
Qed.

(** When the sort fails on a pending set without dangling dependency, the
    failure is the cycle error, and the identifiers it lists are the pending
    migrations that were never emitted: there is at least one, and each of
    them waits for another one of the list. *)
Lemma topologicalSort_cycle (it : MapIteration) (r : MigrationRegistry)
    (pending : list Migration) (applied : gmap string bool) (e : string) :
  List.NoDup (map ID pending) ->
  no_dangling pending applied ->
  topologicalSort it r pending applied = Err e ->
  exists ids,
    e = "circular dependency detected involving migrations: " +:+ fmt_v ids
    /\ ids <> []
    /\ forall id, In id ids ->
         exists m, In m pending /\ ID m = id
                   /\ exists d, In d (unmet applied m) /\ In d ids.
Proof.
  intros Hnd Hclosed.
  destruct (list_eq_nil_dec pending) as [->|Hne]; [discriminate|].
  destruct (initGraph_spec pending)
    as (g0' & d0' & mm' & Hinit' & _ & Hd0 & _ & Hmmk & _ & _).
  destruct (buildEdges_spec r applied mm' pending g0' d0') as (g' & d' & Hbuild' & _ & Hd & _).
  { intros m dep Hm Hdep. apply Hmmk. by apply (Hclosed m). }
  { intros m Hm.
    destruct (initGraph_spec pending) as (? & ? & ? & Hi & _ & _ & Hk & _).
    rewrite Hinit' in Hi. injection Hi as <- <- <-. apply Hk. by apply in_map. }
  destruct (topologicalSort_start it r pending applied Hnd Hclosed)
    as (g0 & d0 & mm & g & d & Hinit & Hbuild & Hg & Hmm & Hinv0).
  rewrite Hinit in Hinit'. injection Hinit' as <- <- <-.
  rewrite Hbuild in Hbuild'. injection Hbuild' as <- <-.
  rewrite topologicalSort_nonempty by done.
  rewrite Hinit, Hbuild.
  set (st0 := {| k_sorted := []; k_ready := seedReady it d mm; k_inDegree := d |}) in *.
  destruct (kahnLoop_inv applied pending g mm Hnd Hg Hmm (length pending) st0 Hinv0)
    as [Hinv Hexit].
  pose proof (kahnLoop_outside applied pending g mm (length pending) st0 Hnd Hg Hmm Hinv0)
    as Hout.
  set (st := kahnLoop (length pending) g mm st0) in *.
  cbv zeta. destruct (length (k_sorted st) =? length pending)%nat eqn:Hlen; [discriminate|].
  simpl. intros [= <-]. apply Nat.eqb_neq in Hlen.
  assert (Hready : k_ready st = []).
  { destruct Hexit as [|Hl]; [done|]. simpl in Hl. lia. }
  set (ids := List.filter (fun id => lookup_int (k_inDegree st) id >? 0)
                          (range_of it (k_inDegree st))).
  assert (Hwaits : forall m, In m pending -> ~ In (ID m) (map ID (k_sorted st)) ->
                             0 < lookup_int (k_inDegree st) (ID m)).
  { intros m Hm Hnot. pose proof (inv_degree _ _ _ Hinv m Hm) as Hdeg.
    destruct (Z.eq_dec (lookup_int (k_inDegree st) (ID m)) 0) as [Hz|Hnz]; [|lia].
    pose proof (inv_ready _ _ _ Hinv m Hm Hnot Hz) as Hin. by rewrite Hready in Hin. }
  assert (Hlisted : forall m, In m pending -> ~ In (ID m) (map ID (k_sorted st)) ->
                              In (ID m) ids).
  { intros m Hm Hnot. specialize (Hwaits m Hm Hnot). apply filter_In. split.
    - apply In_range_of. unfold lookup_int in Hwaits.
      destruct (k_inDegree st !! ID m); [done|simpl in Hwaits; lia].
    - apply Z.gtb_lt. lia. }
  exists ids. split; [done|]. split.
  - assert (Hsnd : List.NoDup (map ID (k_sorted st))).
    { pose proof (inv_nodup _ _ _ Hinv) as H. rewrite map_app in H.
      by apply NoDup_app_remove_r in H. }
    destruct (List.Forall_Exists_dec
                (fun m => In (ID m) (map ID (k_sorted st)))
                (fun m => in_dec String.string_dec (ID m) (map ID (k_sorted st)))
                pending) as [Hall|Hex].
    + exfalso. apply Hlen. apply Nat.le_antisymm.
      * pose proof (kahn_inv_length applied pending st Hinv). lia.
      * rewrite <- (length_map ID pending), <- (length_map ID (k_sorted st)).
        apply NoDup_incl_length; [done|].
        intros x Hx. apply in_map_iff in Hx as (m & <- & Hm).
        rewrite List.Forall_forall in Hall. by apply Hall.
    + apply List.Exists_exists in Hex as (m & Hm & Hnot).
      intros Hnil. specialize (Hlisted m Hm Hnot). by rewrite Hnil in Hlisted.
  - intros id Hid. apply filter_In in Hid as [_ Hpos]. apply Z.gtb_lt in Hpos.
    destruct (in_dec String.string_dec id (map ID pending)) as [Hin|Hnot].
    2:{ rewrite (Hout id Hnot) in Hpos. simpl in Hpos.
        rewrite Hd, Hd0, (indegree_notin pending applied id Hnot) in Hpos. lia. }
    apply in_map_iff in Hin as (m & <- & Hm). exists m. split; [done|]. split; [done|].
    rewrite (inv_degree _ _ _ Hinv m Hm) in Hpos.
    destruct (remaining applied (k_sorted st) m) as [|dep rest] eqn:Hrem;
      [simpl in Hpos; lia|].
    assert (Hdep : In dep (remaining applied (k_sorted st) m)) by (rewrite Hrem; by left).
    apply filter_In in Hdep as [Hunmet Hnew]. apply negb_true_iff in Hnew.
    apply existsb_eqb_not_In in Hnew.
    exists dep. split; [done|].
    pose proof (Hclosed m dep Hm Hunmet) as Hdp.
    apply in_map_iff in Hdp as (md & <- & Hmd). by apply Hlisted.
Qed.

Lemma GetPendingMigrations_ok_closed (it : MapIteration) (r : MigrationRegistry)
    (applied : gmap string bool) (sorted : list Migration) :
  registered r ->
  GetPendingMigrations it r applied = Ok sorted ->
  no_dangling (collectPending r applied) applied.
Proof.
  intros Hr Hok m d Hm Hd.
  destruct (in_dec String.string_dec d (map ID (collectPending r applied))) as [|Hnot];
    [done|].
  destruct (GetPendingMigrations_dangling it r applied Hr) as (? & ? & _ & _ & _ & Herr).
  { by exists m, d. }
  congruence.
Qed.

Lemma GetPendingMigrations_inv_ok (it : MapIteration) (r : MigrationRegistry)
    (applied : gmap string bool) (sorted : list Migration) :
  GetPendingMigrations it r applied = Ok sorted ->
  topologicalSort it r (collectPending r applied) applied = Ok sorted.
Proof.
  unfold GetPendingMigrations.
  by destruct (topologicalSort it r (collectPending r applied) applied); intros [= <-].
Qed.

(** X6.  What a successful [GetPendingMigrations] returns, on a registry
    built by [Register] and whatever the map-iteration order: the registered
    migrations that are not applied, each once, in an order in which every
    dependency of a migration is either applied or stands earlier in the
    list; and each migration has the smallest version among those that were
    ready at its turn. *)
Theorem GetPendingMigrations_sound (it : MapIteration) (r : MigrationRegistry)
    (applied : gmap string bool) (sorted : list Migration) :
  registered r ->
  GetPendingMigrations it r applied = Ok sorted ->
  Permutation sorted (collectPending r applied)
  /\ (forall pre x post, sorted = pre ++ x :: post ->
        forall d, In d (Dependencies x) ->
                  lookup_bool applied d = true \/ In d (map ID pre))
  /\ kahn_order (collectPending r applied) applied sorted.
Proof.
  intros Hr Hok.
  pose proof (GetPendingMigrations_ok_closed it r applied sorted Hr Hok) as Hclosed.
  apply GetPendingMigrations_inv_ok in Hok.
  destruct (topologicalSort_sound it r _ applied sorted
              (collectPending_NoDup r applied Hr) Hclosed Hok) as [Hperm Horder].
  split; [done|]. split; [|done].
  intros pre x post Heq d Hd.
  destruct (Horder pre x post Heq) as [(_ & _ & Hdeps) _].
  destruct (lookup_bool applied d) eqn:Happlied; [by left|right].
  by apply Hdeps, In_unmet.
Qed.

Lemma GetPendingMigrations_sound_witness :
  exists sorted,
    GetPendingMigrations iter_forward diamond_registry ∅ = Ok sorted
    /\ Permutation sorted (collectPending diamond_registry ∅)
    /\ (forall pre x post, sorted = pre ++ x :: post ->
          forall d, In d (Dependencies x) ->
                    lookup_bool ∅ d = true \/ In d (map ID pre))
    /\ kahn_order (collectPending diamond_registry ∅) ∅ sorted.
Proof.
  eexists. split; [vm_compute; reflexivity|].
  apply (GetPendingMigrations_sound iter_forward diamond_registry ∅).
  - apply registry_of_registered.
  - vm_compute. reflexivity.
Defined.

(** X7.  When [GetPendingMigrations] succeeds, on a registry built by
    [Register]: exactly when every dependency of a pending migration is
    applied or pending and the dependencies among the pending migrations
    form no cycle.  The map-iteration order plays no part in it. *)
Theorem GetPendingMigrations_succeeds_iff (it : MapIteration) (r : MigrationRegistry)
    (applied : gmap string bool) :
  registered r ->
  is_ok (GetPendingMigrations it r applied) = true
  <-> no_dangling (collectPending r applied) applied
      /\ acyclic (collectPending r applied) applied.
Proof.
  intros Hr. pose proof (collectPending_NoDup r applied Hr) as Hnd. split.
  - destruct (GetPendingMigrations it r applied) as [sorted|e] eqn:Hok; [|discriminate].
    intros _.
    pose proof (GetPendingMigrations_ok_closed it r applied sorted Hr Hok) as Hclosed.
    split; [done|]. apply GetPendingMigrations_inv_ok in Hok.
    destruct (topologicalSort_sound it r _ applied sorted Hnd Hclosed Hok) as [Hperm Horder].
    apply (kahn_order_acyclic _ sorted); [| |done].
    + intros m Hm. eapply Permutation_in; [apply Permutation_sym, Hperm|done].
    + eapply Permutation_NoDup; [apply Permutation_map, Permutation_sym, Hperm|done].
  - intros [Hclosed Hacyclic].
    destruct (topologicalSort_kahn it r _ applied Hnd Hclosed Hacyclic) as (sorted & Hok & _).
    unfold GetPendingMigrations. by rewrite Hok.
Qed.

Lemma GetPendingMigrations_succeeds_iff_witness :
  is_ok (GetPendingMigrations iter_backward ordering_registry ∅) = true
  <-> no_dangling (collectPending ordering_registry ∅) ∅
      /\ acyclic (collectPending ordering_registry ∅) ∅.
Proof.
  apply (GetPendingMigrations_succeeds_iff iter_backward ordering_registry ∅).
  apply registry_of_registered.
Defined.

(** X8.  A dependency that is neither applied nor registered: when some
    registered migration that is not applied lists such a dependency,
    [GetPendingMigrations] fails, and its error names a pending migration and
    one dependency of it that is not applied and not registered.  The other
    error of the edge construction ([... which is neither applied nor
    pending]) is never the one returned here. *)
Theorem GetPendingMigrations_missing_dependency (it : MapIteration) (r : MigrationRegistry)
    (applied : gmap string bool) (m0 : Migration) (d0 : string) :
  registered r ->
  In m0 (GetMigrations r) -> lookup_bool applied (ID m0) = false ->
  In d0 (Dependencies m0) -> lookup_bool applied d0 = false ->
  GetMigration r d0 = None ->
  exists m d,
    In m (GetMigrations r) /\ lookup_bool applied (ID m) = false
    /\ In d (Dependencies m) /\ lookup_bool applied d = false
    /\ GetMigration r d = None
    /\ GetPendingMigrations it r applied
       = Err ("failed to sort migrations by dependencies: migration " +:+ ID m
              +:+ " depends on non-existent migration " +:+ d).
Proof.
  intros Hr Hm0 Hpending0 Hd0 Hunmet0 Hmissing.
  destruct (GetPendingMigrations_dangling it r applied Hr)
    as (m & d & Hm & Hd & Hnone & Herr).
  { exists m0, d0. split; [by apply In_collectPending|]. split; [by apply In_unmet|].
    intros Hin. apply in_map_iff in Hin as (md & Hid & Hmd).
    apply In_collectPending in Hmd as [Hmd _].
    assert (Hlook : migrations r !! d0 = Some md) by (by apply registered_lookup).
    unfold GetMigration in Hmissing. congruence. }
  apply In_collectPending in Hm as [Hm Hp]. apply In_unmet in Hd as [Hd Hu].
  by exists m, d.
Qed.

Lemma GetPendingMigrations_missing_dependency_witness :
  exists m d,
    In m (GetMigrations dangling_registry) /\ lookup_bool ∅ (ID m) = false
    /\ In d (Dependencies m) /\ lookup_bool ∅ d = false
    /\ GetMigration dangling_registry d = None
    /\ GetPendingMigrations iter_forward dangling_registry ∅
       = Err ("failed to sort migrations by dependencies: migration " +:+ ID m
              +:+ " depends on non-existent migration " +:+ d).
Proof.
  apply (GetPendingMigrations_missing_dependency iter_forward dangling_registry ∅
           (set_Version (mk "1754917200_a" ["1754917100_missing"] false) 1754917200)
           "1754917100_missing").
  - apply registry_of_registered.
  - vm_compute. left. reflexivity.
  - reflexivity.
  - left. reflexivity.
  - reflexivity.
  - vm_compute. reflexivity.
Defined.

(** X9.  A dependency cycle: on a registry built by [Register] whose pending
    migrations have no dangling dependency but depend on each other in a
    cycle, [GetPendingMigrations] fails with the circular-dependency error.
    The identifiers the error lists are pending migrations, there is at
    least one, and each of them has a dependency that is listed too. *)
Theorem GetPendingMigrations_cycle_error (it : MapIteration) (r : MigrationRegistry)
    (applied : gmap string bool) :
  registered r ->
  no_dangling (collectPending r applied) applied ->
  ~ acyclic (collectPending r applied) applied ->
  exists ids,
    GetPendingMigrations it r applied
    = Err ("failed to sort migrations by dependencies: "
           +:+ "circular dependency detected involving migrations: " +:+ fmt_v ids)
    /\ ids <> []
    /\ forall id, In id ids ->
         exists m, In m (collectPending r applied) /\ ID m = id
                   /\ exists d, In d (unmet applied m) /\ In d ids.
Proof.
  intros Hr Hclosed Hcyclic. pose proof (collectPending_NoDup r applied Hr) as Hnd.
  unfold GetPendingMigrations.
  destruct (topologicalSort it r (collectPending r applied) applied) as [sorted|e] eqn:Hsort.
  - exfalso. apply Hcyclic.
    destruct (topologicalSort_sound it r _ applied sorted Hnd Hclosed Hsort)
      as [Hperm Horder].
    apply (kahn_order_acyclic _ sorted); [| |done].
    + intros m Hm. eapply Permutation_in; [apply Permutation_sym, Hperm|done].
    + eapply Permutation_NoDup; [apply Permutation_map, Permutation_sym, Hperm|done].
  - destruct (topologicalSort_cycle it r _ applied e Hnd Hclosed Hsort)
      as (ids & -> & Hne & Hids).
    by exists ids.
Qed.

Lemma GetPendingMigrations_cycle_error_witness :
  exists ids,
    GetPendingMigrations iter_forward cycle_registry ∅
    = Err ("failed to sort migrations by dependencies: "
           +:+ "circular dependency detected involving migrations: " +:+ fmt_v ids)
    /\ ids <> []
    /\ forall id, In id ids ->
         exists m, In m (collectPending cycle_registry ∅) /\ ID m = id
                   /\ exists d, In d (unmet ∅ m) /\ In d ids.
Proof.
  apply (GetPendingMigrations_cycle_error iter_forward cycle_registry ∅).
  - apply registry_of_registered.
  - apply closed_check_sound. vm_compute. reflexivity.
  - intros Hacyclic. apply (Hacyclic "1754917200_a").
    apply tc_l with (y := "1754917300_b"); [|apply tc_once].
    + exists (set_Version (mk "1754917200_a" ["1754917300_b"] false) 1754917200).
      split; [vm_compute; left; reflexivity|]. split; [reflexivity|]. left. reflexivity.
    + exists (set_Version (mk "1754917300_b" ["1754917200_a"] false) 1754917300).
      split; [vm_compute; right; left; reflexivity|]. split; [reflexivity|].
      left. reflexivity.
Defined.

(** X10.  With pairwise distinct versions in the registry, the result of
    [GetPendingMigrations] does not depend on the order in which Go ranges
    over the in-degree map: a sequence returned under one iteration order is
    returned under every other. *)
Theorem GetPendingMigrations_deterministic (it1 it2 : MapIteration)
    (r : MigrationRegistry) (applied : gmap string bool) (sorted : list Migration) :
  List.NoDup (map Version (GetMigrations r)) ->
  GetPendingMigrations it1 r applied = Ok sorted ->
  GetPendingMigrations it2 r applied = Ok sorted.
Proof.
  intros Hnd. apply GetPendingMigrations_order_independent.
  by apply NoDup_map_filter.
Qed.

Lemma GetPendingMigrations_deterministic_witness :
  exists sorted,
    GetPendingMigrations iter_forward diamond_registry ∅ = Ok sorted
    /\ GetPendingMigrations iter_backward diamond_registry ∅ = Ok sorted.
Proof.
  eexists. split; [vm_compute; reflexivity|].
  apply (GetPendingMigrations_deterministic iter_forward iter_backward diamond_registry ∅).
  - vm_compute. repeat constructor; simpl; intuition discriminate.
  - vm_compute. reflexivity.
Defined.

(** * Further properties of the schema catalog *)

(** ** Strings with a suffix *)

Lemma string_length_append (a b : string) :
  String.length (a +:+ b) = (String.length a + String.length b)%nat.
Proof.
  induction a as [|c a IH]; [done|].
  change (String c a +:+ b) with (String c (a +:+ b)). simpl. by rewrite IH.
Qed.

Lemma substring_whole (b : string) : String.substring 0 (String.length b) b = b.
Proof. induction b as [|c b IH]; [done|]. simpl. by rewrite IH. Qed.

Lemma substring_prefix (a b : string) :
  String.substring 0 (String.length a) (a +:+ b) = a.
Proof.
  induction a as [|c a IH]; [by destruct b|].
  change (String c a +:+ b) with (String c (a +:+ b)). simpl. by rewrite IH.
Qed.

Lemma substring_suffix (a b : string) :
  String.substring (String.length a) (String.length b) (a +:+ b) = b.
Proof.
  induction a as [|c a IH]; [apply substring_whole|].
  change (String c a +:+ b) with (String c (a +:+ b)). simpl. exact IH.
Qed.

Lemma isRollbackRecord_suffixed (id : string) :
  id <> "" -> isRollbackRecord (id +:+ "_rollback") = true.
Proof.
  intros Hne. unfold isRollbackRecord. rewrite string_length_append.
  change (String.length "_rollback") with 9%nat.
  replace (String.length id + 9 - 9)%nat with (String.length id) by lia.
  pose proof (substring_suffix id "_rollback") as Hsuffix.
  change (String.length "_rollback") with 9%nat in Hsuffix.
  rewrite Hsuffix, String.eqb_refl, andb_true_r.
  apply Nat.ltb_lt. destruct id; [done|simpl; lia].
Qed.

Lemma rollback_original (id : string) :
  String.substring 0 (String.length (id +:+ "_rollback") - 9) (id +:+ "_rollback") = id.
Proof.
  rewrite string_length_append. change (String.length "_rollback") with 9%nat.
  replace (String.length id + 9 - 9)%nat with (String.length id) by lia.
  apply substring_prefix.
Qed.

(** ** The set of migrations the history accounts for *)

Lemma successfulMigrations_snoc (history : list MigrationRecord) (record : MigrationRecord) :
  successfulMigrations (history ++ [record])
  = if rec_Success record && negb (isRollbackRecord (rec_ID record)) then
      <[rec_ID record := true]> (successfulMigrations history)
    else if isRollbackRecord (rec_ID record) then
      delete (String.substring 0 (String.length (rec_ID record) - 9) (rec_ID record))
             (successfulMigrations history)
    else successfulMigrations history.
Proof. unfold successfulMigrations. by rewrite fold_left_app. Qed.

Lemma successfulMigrations_true (history : list MigrationRecord) (id : string) (v : bool) :
  successfulMigrations history !! id = Some v -> v = true.
Proof.
  revert id v. induction history as [|record history IH] using rev_ind; intros id v.
  - unfold successfulMigrations. simpl. by rewrite lookup_empty.
  - rewrite successfulMigrations_snoc.
    destruct (rec_Success record && negb (isRollbackRecord (rec_ID record))).
    + destruct (decide (rec_ID record = id)) as [->|Hne].
      * rewrite lookup_insert_eq. by intros [= <-].
      * rewrite lookup_insert_ne by done. apply IH.
    + destruct (isRollbackRecord (rec_ID record)); [|apply IH].
      intros Hlook. apply lookup_delete_Some in Hlook as [_ Hlook]. by eapply IH.
Qed.

Lemma find_None_iff {A} (f : A -> bool) (l : list A) :
  List.find f l = None <-> forall x, In x l -> f x = false.
Proof.
  split; [apply find_none|]. intros Hall.
  destruct (List.find f l) as [x|] eqn:Hfind; [|done].
  apply find_some in Hfind as [Hin Hx]. by rewrite (Hall x Hin) in Hx.
Qed.

(** The two loops of [ValidateSchemaState] find nothing exactly when the two
    maps are the same map. *)
Lemma applied_matches_history (it : MapIteration) (applied successful : gmap string bool) :
  (forall id v, successful !! id = Some v -> v = true) ->
  (List.find (fun id => negb (lookup_bool applied id)) (range_of it successful) = None
   /\ List.find (fun id => negb (lookup_bool successful id)) (range_of it applied) = None)
  <-> applied = successful.
Proof.
  intros Htrue. rewrite !find_None_iff. split.
  - intros [H1 H2]. apply map_eq. intros id.
    destruct (successful !! id) as [v|] eqn:Hs.
    + rewrite (Htrue id v Hs) in *.
      assert (Hin : In id (range_of it successful)) by (apply In_range_of; by rewrite Hs).
      specialize (H1 id Hin). apply negb_false_iff in H1. unfold lookup_bool in H1.
      destruct (applied !! id) as [[]|]; simpl in H1; congruence.
    + destruct (applied !! id) as [b|] eqn:Ha; [|done].
      assert (Hin : In id (range_of it applied)) by (apply In_range_of; by rewrite Ha).
      specialize (H2 id Hin). apply negb_false_iff in H2. unfold lookup_bool in H2.
      rewrite Hs in H2. discriminate H2.
  - intros ->. assert (Hall : forall id, In id (range_of it successful) ->
                                         negb (lookup_bool successful id) = false).
    { intros id Hin. apply In_range_of in Hin as [v Hv]. unfold lookup_bool.
      rewrite Hv. by rewrite (Htrue id v Hv). }
    done.
Qed.

Lemma ValidateSchemaState_catalog (h : Host) (db : DB) (s : SchemaVersion) :
  catalog db = Ok s ->
  (ValidateSchemaState h db).2 = Ok tt
  <-> SchemaStatus s <> StatusDirty
      /\ SchemaStatus s <> StatusMigrating
      /\ SchemaStatus s <> StatusRollback
      /\ history_consistent s.
Proof.
  intros Hs. unfold ValidateSchemaState, history_consistent. unfold_M.
  rewrite (GetSchemaVersion_reads _ _ Hs).
  destruct (String.eqb_spec (SchemaStatus s) StatusDirty) as [Hd|Hd]; simpl.
  { split; [done|]. by intros (? & _). }
  destruct (String.eqb_spec (SchemaStatus s) StatusMigrating) as [Hm|Hm]; simpl.
  { split; [done|]. by intros (_ & ? & _). }
  destruct (String.eqb_spec (SchemaStatus s) StatusRollback) as [Hr|Hr]; simpl.
  { split; [done|]. by intros (_ & _ & ? & _). }
  pose proof (applied_matches_history (map_iteration h) (AppliedMigrations s)
                (successfulMigrations (MigrationHistory s))
                (successfulMigrations_true (MigrationHistory s))) as Hiff.
  destruct (List.find _ (range_of _ (successfulMigrations _))) as [id|]; simpl.
  { split; [done|]. intros (_ & _ & _ & Heq). apply Hiff in Heq as [? _]. done. }
  destruct (List.find _ (range_of _ (AppliedMigrations s))) as [id|]; simpl.
  { split; [done|]. intros (_ & _ & _ & Heq). apply Hiff in Heq as [_ ?]. done. }
  split; [|done]. intros _. repeat split; try done. by apply Hiff.
Qed.

(** X11.  What [ValidateSchemaState] accepts: it returns nil exactly when the
    schema record can be read, its status is none of dirty, migrating and
    rollback, and the applied set is the very map the history accounts for
    (the successful records that are not rollback records, minus the
    migrations named by later rollback records, all mapped to true).  It
    never writes to the store. *)
Theorem ValidateSchemaState_ok_iff (h : Host) (db : DB) :
  ((ValidateSchemaState h db).2 = Ok tt
   <-> exists s, catalog db = Ok s
                 /\ SchemaStatus s <> StatusDirty
                 /\ SchemaStatus s <> StatusMigrating
                 /\ SchemaStatus s <> StatusRollback
                 /\ history_consistent s)
  /\ (ValidateSchemaState h db).1 = db.
Proof.
  split; [|apply ValidateSchemaState_reads].
  destruct (catalog db) as [s|e] eqn:Hs.
  - rewrite (ValidateSchemaState_catalog h db s Hs). split.
    + intros H. by exists s.
    + by intros (s' & [= <-] & H).
  - split; [|by intros (s & ? & _)].
    unfold ValidateSchemaState. unfold_M. by rewrite (GetSchemaVersion_fails _ _ Hs).
Qed.

Lemma successfulMigrations_keys (history : list MigrationRecord) (id : string) :
  is_Some (successfulMigrations history !! id) -> isRollbackRecord id = false.
Proof.
  revert id. induction history as [|record history IH] using rev_ind; intros id.
  - unfold successfulMigrations. simpl. rewrite lookup_empty. by intros [? ?].
  - rewrite successfulMigrations_snoc.
    destruct (rec_Success record) eqn:Hsuccess;
      destruct (isRollbackRecord (rec_ID record)) eqn:Hrollback; simpl.
    + intros [v Hv]. apply lookup_delete_Some in Hv as [_ Hv]. by apply IH.
    + destruct (decide (rec_ID record = id)) as [<-|Hne]; [done|].
      rewrite lookup_insert_ne by done. apply IH.
    + intros [v Hv]. apply lookup_delete_Some in Hv as [_ Hv]. by apply IH.
    + apply IH.
Qed.

(** X12.  The catalog operations keep the applied set and the history in
    step.  On a store whose record has its applied set equal to the set its
    history accounts for: recording a success or a failure for an identifier
    that does not end in [_rollback], recording the rollback of a non-empty
    identifier, the three status changes and [SetCurrentVersion] all leave a
    record with the same property; after a recorded success or rollback
    [ValidateSchemaState] accepts the store. *)
Theorem catalog_operations_keep_history (h : Host) (db : DB) (s : SchemaVersion) :
  catalog db = Ok s ->
  history_consistent s ->
  (forall id v description duration, isRollbackRecord id = false ->
     exists s', catalog (UpdateSchemaAfterMigration h id v description duration db).1 = Ok s'
                /\ history_consistent s'
                /\ (ValidateSchemaState h
                      (UpdateSchemaAfterMigration h id v description duration db).1).2
                   = Ok tt)
  /\ (forall id description err, isRollbackRecord id = false ->
        exists s', catalog (MarkMigrationFailed h id description err db).1 = Ok s'
                   /\ history_consistent s')
  /\ (forall id v description, id <> "" ->
        exists s', catalog (UpdateAfterRollback h id v description db).1 = Ok s'
                   /\ history_consistent s'
                   /\ (ValidateSchemaState h (UpdateAfterRollback h id v description db).1).2
                      = Ok tt)
  /\ (forall v op,
        In op [MarkMigrationStarted; MarkRollbackStarted; ForceCleanState;
               SetCurrentVersion v] ->
        exists s', catalog (op db).1 = Ok s' /\ history_consistent s').
Proof.
  intros Hs Hcons. unfold history_consistent in Hcons.
  split; [|split; [|split]].
  - intros id v description duration Hid.
    unfold UpdateSchemaAfterMigration. unfold_M. rewrite (GetSchemaVersion_reads _ _ Hs).
    cbn [fst snd SetSchemaVersion]. eexists. split; [apply catalog_insert|].
    assert (Hnew : history_consistent
              {| CurrentVersion := if v >? CurrentVersion s then v else CurrentVersion s;
                 AppliedMigrations := <[id := true]> (AppliedMigrations s);
                 MigrationHistory :=
                   MigrationHistory s ++
                   [{| rec_ID := id; rec_Description := description;
                       rec_AppliedAt := time_Now h; rec_Duration := duration;
                       rec_Success := true; rec_Error := "" |}];
                 LastMigrationAt := time_Now h; SchemaStatus := StatusClean |}).
    { unfold history_consistent. cbn [AppliedMigrations MigrationHistory].
      rewrite successfulMigrations_snoc. cbn [rec_Success rec_ID]. rewrite Hid. simpl.
      by rewrite Hcons. }
    split; [exact Hnew|].
    eapply ValidateSchemaState_catalog; [apply catalog_insert|]. by repeat split.
  - intros id description err Hid.
    unfold MarkMigrationFailed. unfold_M. rewrite (GetSchemaVersion_reads _ _ Hs).
    cbn [fst snd SetSchemaVersion]. eexists. split; [apply catalog_insert|].
    unfold history_consistent. cbn [AppliedMigrations MigrationHistory].
    rewrite successfulMigrations_snoc. cbn [rec_Success rec_ID]. rewrite Hid. simpl.
    exact Hcons.
  - intros id v description Hid.
    unfold UpdateAfterRollback. unfold_M. rewrite (GetSchemaVersion_reads _ _ Hs).
    cbn [fst snd SetSchemaVersion]. eexists. split; [apply catalog_insert|].
    assert (Hnew : history_consistent
              {| CurrentVersion :=
                   maxAppliedVersion
                     (range_of (map_iteration h) (delete id (AppliedMigrations s)));
                 AppliedMigrations := delete id (AppliedMigrations s);
                 MigrationHistory :=
                   MigrationHistory s ++
                   [{| rec_ID := id +:+ "_rollback";
                       rec_Description := "Rolled back: " +:+ description;
                       rec_AppliedAt := time_Now h; rec_Duration := "0s";
                       rec_Success := true; rec_Error := "" |}];
                 LastMigrationAt := time_Now h; SchemaStatus := StatusClean |}).
    { unfold history_consistent. cbn [AppliedMigrations MigrationHistory].
      rewrite successfulMigrations_snoc. cbn [rec_Success rec_ID].
      rewrite (isRollbackRecord_suffixed id Hid), rollback_original. simpl.
      by rewrite Hcons. }
    split; [exact Hnew|].
    eapply ValidateSchemaState_catalog; [apply catalog_insert|]. by repeat split.
  - intros v op Hop.
    destruct Hop as [<-|[<-|[<-|[<-|[]]]]];
      [unfold MarkMigrationStarted|unfold MarkRollbackStarted|unfold ForceCleanState
      |unfold SetCurrentVersion];
      unfold_M; rewrite (GetSchemaVersion_reads _ _ Hs);
      cbn [fst snd SetSchemaVersion]; eexists; (split; [apply catalog_insert|exact Hcons]).
Qed.

Lemma catalog_operations_keep_history_witness :
  (forall id v description duration, isRollbackRecord id = false ->
     exists s', catalog (UpdateSchemaAfterMigration host_forward id v description duration
                           one_applied_db).1 = Ok s'
                /\ history_consistent s'
                /\ (ValidateSchemaState host_forward
                      (UpdateSchemaAfterMigration host_forward id v description duration
                         one_applied_db).1).2
                   = Ok tt)
  /\ (forall id description err, isRollbackRecord id = false ->
        exists s', catalog (MarkMigrationFailed host_forward id description err
                              one_applied_db).1 = Ok s'
                   /\ history_consistent s')
  /\ (forall id v description, id <> "" ->
        exists s', catalog (UpdateAfterRollback host_forward id v description
                              one_applied_db).1 = Ok s'
                   /\ history_consistent s'
                   /\ (ValidateSchemaState host_forward
                         (UpdateAfterRollback host_forward id v description
                            one_applied_db).1).2
                      = Ok tt)
  /\ (forall v op,
        In op [MarkMigrationStarted; MarkRollbackStarted; ForceCleanState;
               SetCurrentVersion v] ->
        exists s', catalog (op one_applied_db).1 = Ok s' /\ history_consistent s').
Proof.
  apply (catalog_operations_keep_history host_forward one_applied_db one_applied).
  - reflexivity.
  - vm_compute. reflexivity.
Defined.

(** X13.  Applying a migration and rolling it back: on a store whose
    current version is the one derived from its applied set and where [id] is
    not applied, [UpdateSchemaAfterMigration] for [id] followed by
    [UpdateAfterRollback] for [id] gives back the applied set and the current
    version of the start, with status clean; the history has grown by the
    success record of [id] and the record of [id ++ "_rollback"], which is
    what [GetMigrationHistory] returns; [IsMigrationApplied] answers true
    between the two calls and false after them.  The version arguments of
    the two calls play no part in the result. *)
Theorem migrate_then_rollback_restores
    (h1 h2 : Host) (db : DB) (s : SchemaVersion) (id : string) (v1 v2 : Z)
    (description1 duration description2 : string) :
  catalog db = Ok s ->
  version_derived (AppliedMigrations s) (CurrentVersion s) ->
  AppliedMigrations s !! id = None ->
  exists s' applied_record rollback_record,
    catalog (UpdateAfterRollback h2 id v2 description2
               (UpdateSchemaAfterMigration h1 id v1 description1 duration db).1).1 = Ok s'
    /\ AppliedMigrations s' = AppliedMigrations s
    /\ CurrentVersion s' = CurrentVersion s
    /\ SchemaStatus s' = StatusClean
    /\ MigrationHistory s' = MigrationHistory s ++ [applied_record; rollback_record]
    /\ rec_ID applied_record = id /\ rec_Success applied_record = true
    /\ rec_ID rollback_record = id +:+ "_rollback"
    /\ (IsMigrationApplied id
          (UpdateSchemaAfterMigration h1 id v1 description1 duration db).1).2 = Ok true
    /\ (IsMigrationApplied id
          (UpdateAfterRollback h2 id v2 description2
             (UpdateSchemaAfterMigration h1 id v1 description1 duration db).1).1).2 = Ok false
    /\ (GetMigrationHistory
          (UpdateAfterRollback h2 id v2 description2
             (UpdateSchemaAfterMigration h1 id v1 description1 duration db).1).1).2
       = Ok (MigrationHistory s ++ [applied_record; rollback_record]).
Proof.
  intros Hs Hderived Hfresh.
  set (s1 := {| CurrentVersion := if v1 >? CurrentVersion s then v1 else CurrentVersion s;
                AppliedMigrations := <[id := true]> (AppliedMigrations s);
                MigrationHistory :=
                  MigrationHistory s ++
                  [{| rec_ID := id; rec_Description := description1;
                      rec_AppliedAt := time_Now h1; rec_Duration := duration;
                      rec_Success := true; rec_Error := "" |}];
                LastMigrationAt := time_Now h1; SchemaStatus := StatusClean |}).
  assert (H1 : UpdateSchemaAfterMigration h1 id v1 description1 duration db
               = (<[SchemaVersionKey := VSchema s1]> db, Ok tt)).
  { unfold UpdateSchemaAfterMigration. unfold_M. by rewrite (GetSchemaVersion_reads _ _ Hs). }
  rewrite H1. cbn [fst].
  set (db1 := <[SchemaVersionKey := VSchema s1]> db).
  assert (Hs1 : catalog db1 = Ok s1) by apply catalog_insert.
  set (s2 := {| CurrentVersion :=
                  maxAppliedVersion
                    (range_of (map_iteration h2) (delete id (AppliedMigrations s1)));
                AppliedMigrations := delete id (AppliedMigrations s1);
                MigrationHistory :=
                  MigrationHistory s1 ++
                  [{| rec_ID := id +:+ "_rollback";
                      rec_Description := "Rolled back: " +:+ description2;
                      rec_AppliedAt := time_Now h2; rec_Duration := "0s";
                      rec_Success := true; rec_Error := "" |}];
                LastMigrationAt := time_Now h2; SchemaStatus := StatusClean |}).
  assert (H2 : UpdateAfterRollback h2 id v2 description2 db1
               = (<[SchemaVersionKey := VSchema s2]> db1, Ok tt)).
  { unfold UpdateAfterRollback. unfold_M. by rewrite (GetSchemaVersion_reads _ _ Hs1). }
  rewrite H2. cbn [fst].
  set (db2 := <[SchemaVersionKey := VSchema s2]> db1).
  assert (Hs2 : catalog db2 = Ok s2) by apply catalog_insert.
  assert (Happlied : AppliedMigrations s2 = AppliedMigrations s).
  { unfold s2, s1. cbn [AppliedMigrations]. by rewrite delete_insert_eq, delete_id. }
  assert (Hhistory : MigrationHistory s2
                     = MigrationHistory s
                       ++ [ {| rec_ID := id; rec_Description := description1;
                               rec_AppliedAt := time_Now h1; rec_Duration := duration;
                               rec_Success := true; rec_Error := "" |};
                            {| rec_ID := id +:+ "_rollback";
                               rec_Description := "Rolled back: " +:+ description2;
                               rec_AppliedAt := time_Now h2; rec_Duration := "0s";
                               rec_Success := true; rec_Error := "" |} ]).
  { unfold s2, s1. cbn [MigrationHistory]. by rewrite <- app_assoc. }
  exists s2. eexists _, _. split; [exact Hs2|]. split; [exact Happlied|]. split.
  { apply (version_derived_unique (AppliedMigrations s)); [|done].
    rewrite <- Happlied. apply maxAppliedVersion_derived. }
  split; [done|]. split; [exact Hhistory|].
  split; [done|]. split; [done|]. split; [done|]. split.
  { unfold IsMigrationApplied. unfold_M. rewrite (GetSchemaVersion_reads _ _ Hs1).
    cbn [snd]. unfold lookup_bool, s1. cbn [AppliedMigrations].
    by rewrite lookup_insert_eq. }
  split.
  { unfold IsMigrationApplied. unfold_M. rewrite (GetSchemaVersion_reads _ _ Hs2).
    cbn [snd]. unfold lookup_bool. by rewrite Happlied, Hfresh. }
  unfold GetMigrationHistory. unfold_M. rewrite (GetSchemaVersion_reads _ _ Hs2).
  cbn [snd]. by rewrite Hhistory.
Qed.

Lemma migrate_then_rollback_restores_witness :
  exists s' applied_record rollback_record,
    catalog (UpdateAfterRollback host_forward "1754917300_next" 0 "Next"
               (UpdateSchemaAfterMigration host_forward "1754917300_next" 1754917300
                  "Next" "1s" one_applied_db).1).1 = Ok s'
    /\ AppliedMigrations s' = AppliedMigrations one_applied
    /\ CurrentVersion s' = CurrentVersion one_applied
    /\ SchemaStatus s' = StatusClean
    /\ MigrationHistory s' = MigrationHistory one_applied ++ [applied_record; rollback_record]
    /\ rec_ID applied_record = "1754917300_next" /\ rec_Success applied_record = true
    /\ rec_ID rollback_record = "1754917300_next" +:+ "_rollback"
    /\ (IsMigrationApplied "1754917300_next"
          (UpdateSchemaAfterMigration host_forward "1754917300_next" 1754917300
             "Next" "1s" one_applied_db).1).2 = Ok true
    /\ (IsMigrationApplied "1754917300_next"
          (UpdateAfterRollback host_forward "1754917300_next" 0 "Next"
             (UpdateSchemaAfterMigration host_forward "1754917300_next" 1754917300
                "Next" "1s" one_applied_db).1).1).2 = Ok false
    /\ (GetMigrationHistory
          (UpdateAfterRollback host_forward "1754917300_next" 0 "Next"
             (UpdateSchemaAfterMigration host_forward "1754917300_next" 1754917300
                "Next" "1s" one_applied_db).1).1).2
       = Ok (MigrationHistory one_applied ++ [applied_record; rollback_record]).
Proof.
  apply (migrate_then_rollback_restores host_forward host_forward one_applied_db one_applied
           "1754917300_next" 1754917300 0 "Next" "1s" "Next").
  - reflexivity.
  - split.
    + intros id w [b Hb] Hp.
      change (AppliedMigrations one_applied)
        with ({[ "1754917200_test" := true ]} : gmap string bool) in Hb.
      apply lookup_singleton_Some in Hb as [<- _]. vm_compute in Hp.
      injection Hp as <-. simpl. lia.
    + right. exists "1754917200_test". split; [by exists true|reflexivity].
  - reflexivity.
Defined.

(** ** A fresh store *)

Lemma markAllApplied_history (h : Host) (ms : list Migration)
    (v0 : Z) (ap0 : gmap string bool) (h0 : list MigrationRecord) :
  (forall m, In m ms -> isRollbackRecord (ID m) = false) ->
  ap0 = successfulMigrations h0 ->
  forall v ap hist,
    fold_left
      (fun '(maxVersion, appliedMigrations, migrationHistory) m =>
         (if Version m >? maxVersion then Version m else maxVersion,
          <[ID m := true]> appliedMigrations,
          migrationHistory ++ [skippedRecord h m]))
      ms (v0, ap0, h0) = (v, ap, hist) ->
    ap = successfulMigrations hist.
Proof.
  revert v0 ap0 h0. induction ms as [|m ms IH]; intros v0 ap0 h0 Hids Hcons v ap hist.
  - simpl. by intros [= _ <- <-].
  - simpl. apply IH.
    + intros m' Hm'. apply Hids. by right.
    + rewrite successfulMigrations_snoc. cbn [skippedRecord rec_Success rec_ID].
      rewrite (Hids m) by (by left). simpl. by rewrite Hcons.
Qed.

(** What [InitializeFreshDatabase] writes on a store without any key. *)
Lemma InitializeFreshDatabase_empty (h : Host) (r : MigrationRegistry) :
  exists s,
    InitializeFreshDatabase h r ∅ = (<[SchemaVersionKey := VSchema s]> ∅, Ok tt)
    /\ SchemaStatus s = StatusClean
    /\ (forall m, In m (ordered r) -> AppliedMigrations s !! ID m = Some true)
    /\ MigrationHistory s = map (skippedRecord h) (ordered r)
    /\ ((forall m, In m (ordered r) -> isRollbackRecord (ID m) = false) ->
        history_consistent s).
Proof.
  unfold InitializeFreshDatabase. rewrite lookup_empty.
  replace (isDatabaseEmpty ∅) with true by (symmetry; by apply isDatabaseEmpty_true).
  simpl. unfold GetMigrations.
  destruct (ordered r) as [|m0 ms] eqn:Hord.
  - exists zeroSchema. unfold SetSchemaVersion. split; [done|]. split; [done|].
    split; [by intros m []|]. split; [done|]. intros _. reflexivity.
  - rewrite <- Hord. unfold markAllApplied.
    destruct (markAllApplied_from h (ordered r) 0 ∅ [])
      as (v & ap & Heq & Hin & _).
    rewrite Heq. unfold SetSchemaVersion. eexists. split; [reflexivity|].
    cbn [SchemaStatus AppliedMigrations MigrationHistory]. split; [done|].
    split; [exact Hin|]. split; [done|].
    intros Hids. unfold history_consistent. cbn [AppliedMigrations MigrationHistory].
    by apply (markAllApplied_history h (ordered r) 0 ∅ [] Hids eq_refl v ap _ Heq).
Qed.

Lemma filter_nothing {A} (f : A -> bool) (l : list A) :
  (forall x, In x l -> f x = false) -> List.filter f l = [].
Proof.
  induction l as [|a l IH]; intros Hall; [done|]. simpl.
  rewrite (Hall a) by (by left). apply IH. intros x Hx. apply Hall. by right.
Qed.

(** X14.  A store without any key, initialized by [InitializeFreshDatabase]:
    [PlanUpgrade] then plans nothing, whatever the registry; and
    [ValidateSchemaState] accepts the store exactly when no registered
    identifier ends in [_rollback] (the record written for such an identifier
    is read back as a rollback record, which the applied set contradicts). *)
Theorem fresh_store_is_up_to_date (h h' : Host) (r : MigrationRegistry) :
  (exists plan,
     PlanUpgrade h' r (InitializeFreshDatabase h r ∅).1
     = ((InitializeFreshDatabase h r ∅).1, Ok plan)
     /\ plan_Migrations plan = []
     /\ plan_TargetVersion plan = plan_CurrentVersion plan)
  /\ ((ValidateSchemaState h' (InitializeFreshDatabase h r ∅).1).2 = Ok tt
      <-> forall m, In m (GetMigrations r) -> isRollbackRecord (ID m) = false).
Proof.
  destruct (InitializeFreshDatabase_empty h r) as (s & -> & Hclean & Happlied & Hhist & Hcons).
  cbn [fst]. split.
  - unfold PlanUpgrade. unfold_M.
    rewrite (GetSchemaVersion_reads _ _ (catalog_insert s ∅)).
    unfold GetPendingMigrations.
    assert (Hnone : collectPending r (AppliedMigrations s) = []).
    { apply filter_nothing. intros m Hm. unfold lookup_bool. by rewrite (Happlied m Hm). }
    rewrite Hnone. cbn [topologicalSort]. eexists. split; [reflexivity|]. done.
  - rewrite (ValidateSchemaState_catalog h' _ s (catalog_insert s ∅)). split.
    + intros (_ & _ & _ & Heq) m Hm. apply (successfulMigrations_keys (MigrationHistory s)).
      unfold history_consistent in Heq. rewrite <- Heq, (Happlied m Hm). by eexists.
    + intros Hids. rewrite Hclean. repeat split; try done. by apply Hcons.
Qed.

Lemma fresh_store_is_up_to_date_witness :
  exists plan,
    PlanUpgrade host_forward three_registry
      (InitializeFreshDatabase host_forward three_registry ∅).1
    = ((InitializeFreshDatabase host_forward three_registry ∅).1, Ok plan)
    /\ plan_Migrations plan = []
    /\ plan_TargetVersion plan = plan_CurrentVersion plan.
Proof. apply (proj1 (fresh_store_is_up_to_date host_forward host_forward three_registry)). Defined.

(** ** RepairMissingHistory *)

Lemma successfulInHistory_snoc (history : list MigrationRecord) (record : MigrationRecord) :
  successfulInHistory (history ++ [record])
  = if rec_Success record && negb (isRollbackRecord (rec_ID record)) then
      <[rec_ID record := true]> (successfulInHistory history)
    else successfulInHistory history.
Proof. unfold successfulInHistory. by rewrite fold_left_app. Qed.

Lemma successfulInHistory_lookup (history : list MigrationRecord) (id : string) :
  lookup_bool (successfulInHistory history) id = true
  <-> exists record, In record history /\ rec_ID record = id
                     /\ rec_Success record = true /\ isRollbackRecord id = false.
Proof.
  induction history as [|record history IH] using rev_ind.
  - unfold successfulInHistory, lookup_bool. simpl. rewrite lookup_empty. simpl.
    split; [done|]. by intros (? & [] & _).
  - rewrite successfulInHistory_snoc.
    assert (Hold : (exists record0, In record0 (history ++ [record]) /\ rec_ID record0 = id
                      /\ rec_Success record0 = true /\ isRollbackRecord id = false)
                   <-> lookup_bool (successfulInHistory history) id = true
                       \/ (rec_ID record = id /\ rec_Success record = true
                           /\ isRollbackRecord id = false)).
    { rewrite IH. split.
      - intros (r0 & Hin & Hid & Hs & Hr). apply in_app_iff in Hin as [Hin|[<-|[]]].
        + left. by exists r0.
        + by right.
      - intros [(r0 & Hin & H)|H].
        + exists r0. split; [apply in_app_iff; by left|done].
        + exists record. split; [apply in_app_iff; right; by left|done]. }
    rewrite Hold. clear Hold IH.
    destruct (rec_Success record) eqn:Hsuccess;
      destruct (isRollbackRecord (rec_ID record)) eqn:Hrollback; simpl.
    + split; [by left|]. intros [?|(<- & _ & ?)]; [done|congruence].
    + unfold lookup_bool. destruct (decide (rec_ID record = id)) as [<-|Hne].
      * rewrite lookup_insert_eq. simpl. split; [|done]. intros _. by right.
      * rewrite lookup_insert_ne by done. split; [by left|]. by intros [?|(? & _)].
    + split; [by left|]. by intros [?|(_ & ? & _)].
    + split; [by left|]. by intros [?|(_ & ? & _)].
Qed.

Lemma repairLoop_spec (h : Host) (r : MigrationRegistry) (successful : gmap string bool)
    (ids : list string) (history : list MigrationRecord) (repaired : list string) :
  repairLoop h r successful ids (history, repaired)
  = (history ++ map (repairedRecord h r)
                    (List.filter (fun id => negb (lookup_bool successful id)) ids),
     repaired ++ List.filter (fun id => negb (lookup_bool successful id)) ids).
Proof.
  unfold repairLoop. revert history repaired.
  induction ids as [|id ids IH]; intros history repaired; simpl.
  - by rewrite !app_nil_r.
  - destruct (negb (lookup_bool successful id)); simpl; rewrite IH; [|done].
    by rewrite <- !app_assoc.
Qed.

(** What [RepairMissingHistory] does on a store whose record reads as [s]. *)
Lemma RepairMissingHistory_run (h : Host) (r : MigrationRegistry) (db : DB)
    (s : SchemaVersion) :
  catalog db = Ok s ->
  RepairMissingHistory h r db
  = (match missingHistory h s with
     | [] => db
     | _ :: _ =>
         <[SchemaVersionKey :=
             VSchema {| CurrentVersion := CurrentVersion s;
                        AppliedMigrations := AppliedMigrations s;
                        MigrationHistory :=
                          MigrationHistory s
                          ++ map (repairedRecord h r) (missingHistory h s);
                        LastMigrationAt := LastMigrationAt s;
                        SchemaStatus := StatusClean |}]> db
     end, Ok (missingHistory h s)).
Proof.
  intros Hs. unfold RepairMissingHistory. unfold_M.
  rewrite (GetSchemaVersion_reads _ _ Hs). rewrite repairLoop_spec.
  fold (missingHistory h s). simpl. by destruct (missingHistory h s).
Qed.

Lemma In_missingHistory (h : Host) (s : SchemaVersion) (id : string) :
  In id (missingHistory h s)
  <-> is_Some (AppliedMigrations s !! id)
      /\ lookup_bool (successfulInHistory (MigrationHistory s)) id = false.
Proof.
  unfold missingHistory. by rewrite filter_In, In_range_of, negb_true_iff.
Qed.

(** X15.  [RepairMissingHistory] on a store whose record can be read: it
    returns the applied identifiers that have no successful record of their
    own in the history (a record with that ID, [Success] set, the ID not
    ending in [_rollback]), each once; when there is none it writes nothing;
    otherwise it appends one successful record per returned identifier, in
    the order returned, sets the status to clean, and leaves the applied set,
    the current version and every other key of the store as they were. *)
Theorem RepairMissingHistory_repairs (h : Host) (r : MigrationRegistry) (db : DB)
    (s : SchemaVersion) :
  catalog db = Ok s ->
  exists repaired,
    (RepairMissingHistory h r db).2 = Ok repaired
    /\ List.NoDup repaired
    /\ (forall id, In id repaired <->
          is_Some (AppliedMigrations s !! id)
          /\ ~ exists record, In record (MigrationHistory s) /\ rec_ID record = id
                              /\ rec_Success record = true
                              /\ isRollbackRecord id = false)
    /\ (repaired = [] -> (RepairMissingHistory h r db).1 = db)
    /\ (repaired <> [] ->
        exists records,
          (RepairMissingHistory h r db).1
          = <[SchemaVersionKey :=
                VSchema {| CurrentVersion := CurrentVersion s;
                           AppliedMigrations := AppliedMigrations s;
                           MigrationHistory := MigrationHistory s ++ records;
                           LastMigrationAt := LastMigrationAt s;
                           SchemaStatus := StatusClean |}]> db
          /\ map rec_ID records = repaired
          /\ Forall (fun record => rec_Success record = true) records).
Proof.
  intros Hs. rewrite (RepairMissingHistory_run h r db s Hs). cbn [fst snd].
  exists (missingHistory h s). split; [done|]. split.
  { apply List.NoDup_filter, NoDup_range_of. }
  split.
  { intros id. rewrite In_missingHistory, <- successfulInHistory_lookup.
    destruct (lookup_bool _ id); intuition congruence. }
  split; [by intros ->|].
  intros Hne. destruct (missingHistory h s) as [|id ids] eqn:Hmissing; [done|].
  exists (map (repairedRecord h r) (id :: ids)). split; [done|]. split.
  - rewrite map_map. apply map_id.
  - apply Forall_forall. intros record Hin. rewrite list_elem_of_In in Hin.
    by apply in_map_iff in Hin as (? & <- & _).
Qed.

Lemma RepairMissingHistory_repairs_witness :
  exists repaired,
    (RepairMissingHistory host_forward three_registry missing_history_db).2 = Ok repaired
    /\ List.NoDup repaired
    /\ (forall id, In id repaired <->
          is_Some (AppliedMigrations missing_history !! id)
          /\ ~ exists record, In record (MigrationHistory missing_history)
                              /\ rec_ID record = id
                              /\ rec_Success record = true
                              /\ isRollbackRecord id = false)
    /\ (repaired = [] ->
        (RepairMissingHistory host_forward three_registry missing_history_db).1
        = missing_history_db)
    /\ (repaired <> [] ->
        exists records,
          (RepairMissingHistory host_forward three_registry missing_history_db).1
          = <[SchemaVersionKey :=
                VSchema {| CurrentVersion := CurrentVersion missing_history;
                           AppliedMigrations := AppliedMigrations missing_history;
                           MigrationHistory := MigrationHistory missing_history ++ records;
                           LastMigrationAt := LastMigrationAt missing_history;
                           SchemaStatus := StatusClean |}]> missing_history_db
          /\ map rec_ID records = repaired
          /\ Forall (fun record => rec_Success record = true) records).
Proof.
  apply (RepairMissingHistory_repairs host_forward three_registry missing_history_db
           missing_history).
  reflexivity.
Defined.

(** The record a store holds after [RepairMissingHistory]. *)
Lemma RepairMissingHistory_catalog (h : Host) (r : MigrationRegistry) (db : DB)
    (s : SchemaVersion) :
  catalog db = Ok s ->
  exists s1,
    catalog (RepairMissingHistory h r db).1 = Ok s1
    /\ AppliedMigrations s1 = AppliedMigrations s
    /\ CurrentVersion s1 = CurrentVersion s
    /\ MigrationHistory s1
       = MigrationHistory s ++ map (repairedRecord h r) (missingHistory h s)
    /\ (missingHistory h s <> [] -> SchemaStatus s1 = StatusClean).
Proof.
  intros Hs. rewrite (RepairMissingHistory_run h r db s Hs). cbn [fst].
  destruct (missingHistory h s) as [|id ids] eqn:Hmissing.
  - exists s. rewrite app_nil_r. by repeat split.
  - eexists. split; [apply catalog_insert|]. by repeat split.
Qed.

Lemma repaired_accounted (h : Host) (r : MigrationRegistry) (s : SchemaVersion)
    (id : string) :
  is_Some (AppliedMigrations s !! id) ->
  isRollbackRecord id = false ->
  lookup_bool (successfulInHistory
                 (MigrationHistory s ++ map (repairedRecord h r) (missingHistory h s))) id
  = true.
Proof.
  intros Happlied Hid. apply successfulInHistory_lookup.
  destruct (lookup_bool (successfulInHistory (MigrationHistory s)) id) eqn:Hold.
  - apply successfulInHistory_lookup in Hold as (record & Hin & H).
    exists record. split; [apply in_app_iff; by left|done].
  - exists (repairedRecord h r id). split; [|done].
    apply in_app_iff. right. apply in_map. by apply In_missingHistory.
Qed.

(** X16.  Running [RepairMissingHistory] a second time: it returns exactly
    the applied identifiers that end in [_rollback] (their records never count
    as successful records of their own, so they are repaired again on every
    run).  When no applied identifier ends in [_rollback] the second run
    returns nothing and leaves the store as the first run left it. *)
Theorem RepairMissingHistory_twice (h h' : Host) (r r' : MigrationRegistry) (db : DB)
    (s : SchemaVersion) :
  catalog db = Ok s ->
  exists repaired,
    (RepairMissingHistory h' r' (RepairMissingHistory h r db).1).2 = Ok repaired
    /\ (forall id, In id repaired <->
          is_Some (AppliedMigrations s !! id) /\ isRollbackRecord id = true)
    /\ ((forall id, is_Some (AppliedMigrations s !! id) -> isRollbackRecord id = false) ->
        repaired = []
        /\ (RepairMissingHistory h' r' (RepairMissingHistory h r db).1).1
           = (RepairMissingHistory h r db).1).
Proof.
  intros Hs.
  destruct (RepairMissingHistory_catalog h r db s Hs)
    as (s1 & Hs1 & Happlied & _ & Hhistory & _).
  rewrite (RepairMissingHistory_run h' r' _ s1 Hs1). cbn [fst snd].
  exists (missingHistory h' s1). split; [done|].
  assert (Hin : forall id, In id (missingHistory h' s1) <->
                  is_Some (AppliedMigrations s !! id) /\ isRollbackRecord id = true).
  { intros id. rewrite In_missingHistory, Happlied, Hhistory. split.
    - intros [Hsome Hlook]. split; [done|].
      destruct (isRollbackRecord id) eqn:Hid; [done|].
      by rewrite (repaired_accounted h r s id Hsome Hid) in Hlook.
    - intros [Hsome Hid]. split; [done|].
      destruct (lookup_bool _ id) eqn:Hlook; [|done].
      apply successfulInHistory_lookup in Hlook as (_ & _ & _ & _ & Hno). congruence. }
  split; [done|]. intros Hnone.
  assert (Hnil : missingHistory h' s1 = []).
  { destruct (missingHistory h' s1) as [|id ids]; [done|].
    assert (Hid : In id (id :: ids)) by (by left).
    apply Hin in Hid as [Hsome Hid]. by rewrite (Hnone id Hsome) in Hid. }
  by rewrite Hnil.
Qed.

Lemma RepairMissingHistory_twice_witness :
  exists repaired,
    (RepairMissingHistory host_forward three_registry
       (RepairMissingHistory host_forward three_registry missing_history_db).1).2
    = Ok repaired
    /\ (forall id, In id repaired <->
          is_Some (AppliedMigrations missing_history !! id) /\ isRollbackRecord id = true)
    /\ ((forall id, is_Some (AppliedMigrations missing_history !! id) ->
                    isRollbackRecord id = false) ->
        repaired = []
        /\ (RepairMissingHistory host_forward three_registry
              (RepairMissingHistory host_forward three_registry missing_history_db).1).1
           = (RepairMissingHistory host_forward three_registry missing_history_db).1).
Proof.
  apply (RepairMissingHistory_twice host_forward host_forward three_registry three_registry
           missing_history_db missing_history).
  reflexivity.
Defined.

Lemma fold_insert_true_lookup (ids : list string) (acc : gmap string bool) (id : string) :
  fold_left (fun acc id => <[id := true]> acc) ids acc !! id
  = if existsb (String.eqb id) ids then Some true else acc !! id.
Proof.
  revert acc. induction ids as [|x ids IH]; intros acc; [done|]. simpl. rewrite IH.
  destruct (existsb (String.eqb id) ids); [by rewrite orb_true_r|]. rewrite orb_false_r.
  destruct (String.eqb_spec id x) as [->|Hne].
  - by rewrite lookup_insert_eq.
  - by rewrite lookup_insert_ne.
Qed.

Lemma successfulMigrations_repaired (h : Host) (r : MigrationRegistry)
    (history : list MigrationRecord) (ids : list string) :
  (forall id, In id ids -> isRollbackRecord id = false) ->
  successfulMigrations (history ++ map (repairedRecord h r) ids)
  = fold_left (fun acc id => <[id := true]> acc) ids (successfulMigrations history).
Proof.
  revert history. induction ids as [|id ids IH]; intros history Hids.
  - simpl. by rewrite app_nil_r.
  - simpl. replace (history ++ repairedRecord h r id :: map (repairedRecord h r) ids)
      with ((history ++ [repairedRecord h r id]) ++ map (repairedRecord h r) ids)
      by (by rewrite <- app_assoc).
    rewrite IH by (intros x Hx; apply Hids; by right).
    rewrite successfulMigrations_snoc. cbn [repairedRecord rec_Success rec_ID].
    by rewrite (Hids id) by (by left).
Qed.

(** X17.  [RepairMissingHistory] brings a store to the state
    [ValidateSchemaState] accepts.  Take a record whose applied set maps
    every identifier to true and holds none ending in [_rollback], in which
    every migration the history accounts for is applied, and every applied
    migration with a successful record is still accounted for (not rolled
    back since).  If some applied migration lacks its record, then after
    [RepairMissingHistory] the applied set is the set the history accounts
    for and [ValidateSchemaState] returns nil, whatever the status was. *)
Theorem RepairMissingHistory_then_valid (h h' : Host) (r : MigrationRegistry) (db : DB)
    (s : SchemaVersion) :
  catalog db = Ok s ->
  (forall id b, AppliedMigrations s !! id = Some b -> b = true /\ isRollbackRecord id = false) ->
  (forall id, is_Some (successfulMigrations (MigrationHistory s) !! id) ->
              is_Some (AppliedMigrations s !! id)) ->
  (forall id, is_Some (AppliedMigrations s !! id) ->
              lookup_bool (successfulInHistory (MigrationHistory s)) id = true ->
              is_Some (successfulMigrations (MigrationHistory s) !! id)) ->
  missingHistory h s <> [] ->
  (ValidateSchemaState h' (RepairMissingHistory h r db).1).2 = Ok tt.
Proof.
  intros Hs Htrue Hknown Hkept Hmissing.
  destruct (RepairMissingHistory_catalog h r db s Hs)
    as (s1 & Hs1 & Happlied & _ & Hhistory & Hclean).
  apply (ValidateSchemaState_catalog h' _ s1 Hs1).
  rewrite (Hclean Hmissing). repeat split; try done.
  unfold history_consistent. rewrite Happlied, Hhistory.
  rewrite successfulMigrations_repaired.
  2:{ intros id Hid. apply In_missingHistory in Hid as [[b Hb] _].
      by destruct (Htrue id b Hb). }
  apply map_eq. intros id. rewrite fold_insert_true_lookup.
  destruct (existsb (String.eqb id) (missingHistory h s)) eqn:Hin.
  - apply existsb_eqb_In, In_missingHistory in Hin as [[b Hb] _].
    rewrite Hb. by destruct (Htrue id b Hb) as [-> _].
  - apply existsb_eqb_not_In in Hin.
    destruct (AppliedMigrations s !! id) as [b|] eqn:Hb.
    + destruct (Htrue id b Hb) as [-> _].
      assert (Hsome : is_Some (AppliedMigrations s !! id)) by (by rewrite Hb).
      destruct (lookup_bool (successfulInHistory (MigrationHistory s)) id) eqn:Hlook.
      * destruct (Hkept id Hsome Hlook) as [v Hv].
        by rewrite Hv, (successfulMigrations_true _ _ _ Hv).
      * exfalso. apply Hin. by apply In_missingHistory.
    + destruct (successfulMigrations (MigrationHistory s) !! id) as [v|] eqn:Hv; [|done].
      destruct (Hknown id) as [b Hb']; [by rewrite Hv|]. congruence.
Qed.

Lemma RepairMissingHistory_then_valid_witness :
  (ValidateSchemaState host_forward
     (RepairMissingHistory host_forward three_registry missing_history_db).1).2 = Ok tt.
Proof.
  assert (Hhist : successfulMigrations (MigrationHistory missing_history)
                  = {[ "1754917200_test" := true ]}) by (vm_compute; reflexivity).
  apply (RepairMissingHistory_then_valid host_forward host_forward three_registry
           missing_history_db missing_history).
  - reflexivity.
  - intros id b Hb.
    change (AppliedMigrations missing_history)
      with (<[ "1754917200_test" := true ]>
              ({[ "1754917300_next" := true ]} : gmap string bool)) in Hb.
    apply lookup_insert_Some in Hb as [[<- <-]|[_ Hb]]; [by split|].
    apply lookup_singleton_Some in Hb as [<- <-]. by split.
  - intros id. rewrite Hhist. intros [b Hb].
    apply lookup_singleton_Some in Hb as [<- _]. by exists true.
  - intros id _ Hlook. rewrite Hhist.
    apply successfulInHistory_lookup in Hlook as (record & Hin & Hid & _).
    destruct Hin as [<-|[]]. simpl in Hid. subst id. by exists true.
  - vm_compute. discriminate.
Defined.

(** * Further properties of the engine *)

Lemma UpdateSchemaAfterMigration_run (h : Host) (m : Migration) (db : DB)
    (s : SchemaVersion) :
  catalog db = Ok s ->
  UpdateSchemaAfterMigration h (ID m) (Version m) (Description m) (time_Since h) db
  = (<[SchemaVersionKey := VSchema (after_success h s m)]> db, Ok tt).
Proof.
  intros Hs. unfold UpdateSchemaAfterMigration. unfold_M.
  by rewrite (GetSchemaVersion_reads _ _ Hs).
Qed.

Lemma MarkMigrationFailed_run (h : Host) (id description err : string) (db : DB)
    (s : SchemaVersion) :
  catalog db = Ok s ->
  MarkMigrationFailed h id description err db
  = (<[SchemaVersionKey := VSchema (after_failure h s id description err)]> db, Ok tt).
Proof.
  intros Hs. unfold MarkMigrationFailed. unfold_M.
  by rewrite (GetSchemaVersion_reads _ _ Hs).
Qed.

Lemma MarkMigrationStarted_run (db : DB) (s : SchemaVersion) :
  catalog db = Ok s ->
  MarkMigrationStarted db
  = (<[SchemaVersionKey := VSchema (set_Status s StatusMigrating)]> db, Ok tt).
Proof.
  intros Hs. unfold MarkMigrationStarted. unfold_M.
  by rewrite (GetSchemaVersion_reads _ _ Hs).
Qed.

(** The loop of [executeUpgrade] on a store whose record reads as [s], with
    callbacks that leave the reserved key alone: either every migration is
    run and recorded, or the loop stops at the first one that fails, which
    it records as failed. *)
Lemma upgradeLoop_run (h : Host) (e : MigrationEngine) (ms : list Migration) :
  (forall m, In m ms -> preserves_catalog (Up m) /\ preserves_catalog (Validate m)) ->
  forall db s, catalog db = Ok s ->
    (exists db', upgradeLoop h e ms db = (db', Ok tt)
                 /\ catalog db' = Ok (fold_left (after_success h) ms s))
    \/ (exists db' pre m post err,
          ms = pre ++ m :: post
          /\ upgradeLoop h e ms db
             = (db', Err ("migration " +:+ ID m +:+ " failed: " +:+ err))
          /\ catalog db'
             = Ok (after_failure h (fold_left (after_success h) pre s)
                                 (ID m) (Description m) err)).
Proof.
  induction ms as [|m ms IH]; intros Hpres db s Hs.
  { left. by exists db. }
  destruct (Hpres m (or_introl eq_refl)) as [Hup Hval].
  pose proof (executeSingleMigration_preserves e m true db Hup Hval) as Hkey.
  destruct (executeSingleMigration e m true db) as [db1 [[]|err]] eqn:Hrun; simpl in Hkey.
  - assert (Hs1 : catalog db1 = Ok s) by (rewrite <- Hs; by apply catalog_frame).
    assert (Hstep : upgradeLoop h e (m :: ms) db
                    = upgradeLoop h e ms
                        (<[SchemaVersionKey := VSchema (after_success h s m)]> db1)).
    { cbn [upgradeLoop]. unfold bind, orMarkFailed, wrapping. rewrite Hrun.
      by rewrite (UpdateSchemaAfterMigration_run h m db1 s Hs1). }
    rewrite Hstep.
    destruct (IH (fun x Hx => Hpres x (or_intror Hx)) _ (after_success h s m)
                 (catalog_insert _ db1))
      as [(db' & Hloop & Hcat)|(db' & pre & x & post & err & Hms & Hloop & Hcat)].
    + left. exists db'. by split.
    + right. exists db', (m :: pre), x, post, err. split; [by rewrite Hms|]. by split.
  - assert (Hs1 : catalog db1 = Ok s) by (rewrite <- Hs; by apply catalog_frame).
    assert (Hstep : upgradeLoop h e (m :: ms) db
                    = (<[SchemaVersionKey :=
                           VSchema (after_failure h s (ID m) (Description m) err)]> db1,
                       Err ("migration " +:+ ID m +:+ " failed: " +:+ err))).
    { cbn [upgradeLoop]. unfold bind, orMarkFailed. rewrite Hrun.
      by rewrite (MarkMigrationFailed_run h _ _ err db1 s Hs1). }
    rewrite Hstep.
    right. eexists _, [], m, ms, err. split; [done|]. split; [done|]. apply catalog_insert.
Qed.

Lemma after_all_applied (h : Host) (ms : list Migration) (s : SchemaVersion) (id : string) :
  AppliedMigrations (fold_left (after_success h) ms s) !! id
  = if existsb (String.eqb id) (map ID ms) then Some true else AppliedMigrations s !! id.
Proof.
  revert s. induction ms as [|m ms IH]; intros s; [done|]. simpl. rewrite IH.
  destruct (existsb (String.eqb id) (map ID ms)); [by rewrite orb_true_r|].
  rewrite orb_false_r. cbn [after_success AppliedMigrations].
  destruct (String.eqb_spec id (ID m)) as [->|Hne].
  - by rewrite lookup_insert_eq.
  - by rewrite lookup_insert_ne.
Qed.

Lemma after_all_version (h : Host) (ms : list Migration) (s : SchemaVersion) :
  CurrentVersion (fold_left (after_success h) ms s) = maxPlanVersion (CurrentVersion s) ms.
Proof.
  unfold maxPlanVersion. revert s. induction ms as [|m ms IH]; intros s; [done|].
  simpl. by rewrite IH.
Qed.

Lemma after_all_history (h : Host) (ms : list Migration) (s : SchemaVersion) :
  MigrationHistory (fold_left (after_success h) ms s)
  = MigrationHistory s ++ map (success_record h) ms.
Proof.
  revert s. induction ms as [|m ms IH]; intros s; simpl; [by rewrite app_nil_r|].
  rewrite IH. cbn [after_success MigrationHistory]. by rewrite <- app_assoc.
Qed.

Lemma after_all_status (h : Host) (ms : list Migration) (s : SchemaVersion) :
  SchemaStatus (fold_left (after_success h) ms s)
  = if nonempty ms then StatusClean else SchemaStatus s.
Proof.
  revert s. induction ms as [|m ms IH]; intros s; [done|]. simpl. rewrite IH.
  by destruct ms.
Qed.

(** The three steps before the loop of [executeUpgrade]. *)
Lemma executeUpgrade_steps (h : Host) (e : MigrationEngine) (plan : ExecutionPlan) (db : DB) :
  dryRun e = false ->
  (exists err, executeUpgrade h e plan db
               = (db, Err ("failed to create backup before migration: " +:+ err)))
  \/ (exists err, (ValidateSchemaState h db).2 = Err err
                  /\ executeUpgrade h e plan db
                     = (db, Err ("schema validation failed: " +:+ err)))
  \/ (exists s, catalog db = Ok s
                /\ (ValidateSchemaState h db).2 = Ok tt
                /\ executeUpgrade h e plan db
                   = upgradeLoop h e (plan_Migrations plan)
                       (<[SchemaVersionKey := VSchema (set_Status s StatusMigrating)]> db)).
Proof.
  intros Hdry. unfold executeUpgrade. rewrite Hdry.
  destruct (backupBefore e (nonempty (plan_Migrations plan))
              ("Before upgrade to version " +:+ fmt_d (plan_TargetVersion plan) +:+ " ("
               +:+ fmt_d (len (plan_Migrations plan)) +:+ " migrations)")
              "failed to create backup before migration: " db)
    as [db0 [[]|err]] eqn:Hbackup.
  2:{ left. rewrite (bind_err _ _ _ _ _ Hbackup). unfold backupBefore in Hbackup.
      destruct (backupManager e) as [bm|]; [|discriminate].
      destruct (enableBackup e && _); [|discriminate].
      destruct (CreateBackup bm db _) as [p|err']; [discriminate|].
      injection Hbackup as <- <-. by eexists. }
  pose proof (backupBefore_inv_ok _ _ _ _ _ _ Hbackup) as ->.
  rewrite (bind_ok _ _ _ _ _ Hbackup). right.
  pose proof (ValidateSchemaState_reads h db) as Hreads.
  destruct (ValidateSchemaState h db) as [db0 [[]|err]] eqn:Hvalid; simpl in Hreads; subst db0.
  2:{ left. exists err. split; [done|].
      by rewrite (bind_err _ _ _ _ _ (wrapping_err _ _ _ _ _ Hvalid)). }
  right. rewrite (bind_ok _ _ _ _ _ (wrapping_ok _ _ _ _ _ Hvalid)).
  destruct (catalog db) as [s|err] eqn:Hs.
  2:{ exfalso. unfold ValidateSchemaState in Hvalid. unfold_M.
      rewrite (GetSchemaVersion_fails _ _ Hs) in Hvalid. discriminate Hvalid. }
  exists s. split; [done|]. split; [done|].
  by rewrite (bind_ok _ _ _ _ _ (wrapping_ok _ _ _ _ _ (MarkMigrationStarted_run db s Hs))).
Qed.

Lemma backupBefore_reads e wanted description failure db :
  (backupBefore e wanted description failure db).1 = db.
Proof.
  unfold backupBefore. destruct (backupManager e) as [bm|]; [|done].
  destruct (enableBackup e && wanted); [|done].
  by destruct (CreateBackup bm db description).
Qed.

(** X18.  A dry run changes nothing: with [dryRun] set, [ExecutePlan] returns
    the store it was given, whatever the plan and whatever the callbacks of
    its migrations would do.  It returns nil for every upgrade and downgrade
    plan, and for a rerun plan exactly when the plan holds one migration. *)
Theorem ExecutePlan_dry_run (h : Host) (e : MigrationEngine) (plan : ExecutionPlan) (db : DB) :
  dryRun e = true ->
  (ExecutePlan h e plan db).1 = db
  /\ (plan_Type plan = ExecutionTypeUpgrade \/ plan_Type plan = ExecutionTypeDowngrade ->
      (ExecutePlan h e plan db).2 = Ok tt)
  /\ (plan_Type plan = ExecutionTypeRerun ->
      (ExecutePlan h e plan db).2 = Ok tt <-> exists m, plan_Migrations plan = [m]).
Proof.
  intros Hdry. unfold ExecutePlan, executeUpgrade, executeDowngrade, executeRerun.
  rewrite Hdry.
  destruct (String.eqb_spec (plan_Type plan) ExecutionTypeUpgrade) as [Hu|Hu].
  { split; [done|]. split; [done|]. rewrite Hu. discriminate. }
  destruct (String.eqb_spec (plan_Type plan) ExecutionTypeDowngrade) as [Hd|Hd].
  { split; [done|]. split; [done|]. rewrite Hd. discriminate. }
  destruct (String.eqb_spec (plan_Type plan) ExecutionTypeRerun) as [Hr|Hr].
  - destruct (plan_Migrations plan) as [|m [|m' ms]]; simpl.
    + split; [done|]. split; [by intros [|]|]. intros _. split; [done|]. by intros [? ?].
    + split; [done|]. split; [by intros [|]|]. intros _. split; [|done]. by exists m.
    + split; [done|]. split; [by intros [|]|]. intros _. split; [done|]. by intros [? ?].
  - split; [done|]. split; [by intros [|]|]. done.
Qed.

Lemma ExecutePlan_dry_run_witness :
  (ExecutePlan host_forward (SetDryRun upgrade_engine true) upgrade_plan one_applied_db).1
  = one_applied_db
  /\ (plan_Type upgrade_plan = ExecutionTypeUpgrade
      \/ plan_Type upgrade_plan = ExecutionTypeDowngrade ->
      (ExecutePlan host_forward (SetDryRun upgrade_engine true) upgrade_plan
         one_applied_db).2 = Ok tt)
  /\ (plan_Type upgrade_plan = ExecutionTypeRerun ->
      (ExecutePlan host_forward (SetDryRun upgrade_engine true) upgrade_plan
         one_applied_db).2 = Ok tt
      <-> exists m, plan_Migrations upgrade_plan = [m]).
Proof.
  apply (ExecutePlan_dry_run host_forward (SetDryRun upgrade_engine true) upgrade_plan
           one_applied_db).
  reflexivity.
Defined.

(** X19.  A store that [ValidateSchemaState] rejects is never touched: when
    it is not a dry run, [ExecutePlan] of any plan on such a store fails and
    returns the store as it was, before any callback is run and before the
    status is changed. *)
Theorem ExecutePlan_refuses_invalid_store
    (h : Host) (e : MigrationEngine) (plan : ExecutionPlan) (db : DB) (err : string) :
  dryRun e = false ->
  (ValidateSchemaState h db).2 = Err err ->
  (ExecutePlan h e plan db).1 = db
  /\ is_ok (ExecutePlan h e plan db).2 = false.
Proof.
  intros Hdry Hinvalid.
  assert (Hvalid : ValidateSchemaState h db = (db, Err err)).
  { pose proof (ValidateSchemaState_reads h db) as Hreads.
    destruct (ValidateSchemaState h db) as [db0 res]. simpl in *. by subst. }
  assert (Hgate : forall wanted description failure (k : unit -> M unit),
            let run := bind (backupBefore e wanted description failure)
                         (fun _ => bind (wrapping (fun err => "schema validation failed: "
                                                              +:+ err)
                                                  (ValidateSchemaState h)) k) db in
            run.1 = db /\ is_ok run.2 = false).
  { intros wanted description failure k.
    pose proof (backupBefore_reads e wanted description failure db) as Hreads.
    destruct (backupBefore e wanted description failure db) as [db0 [[]|berr]] eqn:Hbackup;
      simpl in Hreads; subst db0.
    - cbv zeta. rewrite (bind_ok _ _ _ _ _ Hbackup).
      by rewrite (bind_err _ _ _ _ _ (wrapping_err _ _ _ _ _ Hvalid)).
    - cbv zeta. by rewrite (bind_err _ _ _ _ _ Hbackup). }
  unfold ExecutePlan, executeUpgrade, executeDowngrade, executeRerun. rewrite Hdry.
  destruct (String.eqb (plan_Type plan) ExecutionTypeUpgrade); [apply Hgate|].
  destruct (String.eqb (plan_Type plan) ExecutionTypeDowngrade); [apply Hgate|].
  destruct (String.eqb (plan_Type plan) ExecutionTypeRerun); [|done].
  destruct (plan_Migrations plan) as [|m [|m' ms]]; [done|apply Hgate|done].
Qed.

Lemma ExecutePlan_refuses_invalid_store_witness :
  (ExecutePlan host_forward upgrade_engine upgrade_plan interrupted_db).1 = interrupted_db
  /\ is_ok (ExecutePlan host_forward upgrade_engine upgrade_plan interrupted_db).2 = false.
Proof.
  apply (ExecutePlan_refuses_invalid_store host_forward upgrade_engine upgrade_plan
           interrupted_db "migration is currently in progress").
  - reflexivity.
  - reflexivity.
Defined.

(** X20.  A successful upgrade.  When [executeUpgrade] (not a dry run)
    returns nil for a plan whose callbacks leave the reserved key alone, the
    store it was given had passed [ValidateSchemaState], and the record it
    leaves has: every migration of the plan applied, the other entries of the
    applied set untouched; as current version the largest of the former one
    and the versions of the plan; the former history followed by one
    successful record per migration, in plan order; status clean, unless the
    plan is empty, in which case the status is left at migrating. *)
Theorem executeUpgrade_success
    (h : Host) (e : MigrationEngine) (plan : ExecutionPlan) (db db' : DB) :
  dryRun e = false ->
  (forall m, In m (plan_Migrations plan) ->
             preserves_catalog (Up m) /\ preserves_catalog (Validate m)) ->
  executeUpgrade h e plan db = (db', Ok tt) ->
  exists s s' records,
    catalog db = Ok s
    /\ (ValidateSchemaState h db).2 = Ok tt
    /\ catalog db' = Ok s'
    /\ (forall m, In m (plan_Migrations plan) -> AppliedMigrations s' !! ID m = Some true)
    /\ (forall id, ~ In id (map ID (plan_Migrations plan)) ->
                   AppliedMigrations s' !! id = AppliedMigrations s !! id)
    /\ CurrentVersion s' = maxPlanVersion (CurrentVersion s) (plan_Migrations plan)
    /\ MigrationHistory s' = MigrationHistory s ++ records
    /\ map rec_ID records = map ID (plan_Migrations plan)
    /\ Forall (fun record => rec_Success record = true) records
    /\ SchemaStatus s'
       = if nonempty (plan_Migrations plan) then StatusClean else StatusMigrating.
Proof.
  intros Hdry Hpres Hrun.
  destruct (executeUpgrade_steps h e plan db Hdry)
    as [[err Herr]|[(err & _ & Herr)|(s & Hs & Hvalid & Hsteps)]]; [congruence|congruence|].
  rewrite Hsteps in Hrun.
  destruct (upgradeLoop_run h e (plan_Migrations plan) Hpres _ (set_Status s StatusMigrating)
              (catalog_insert _ db))
    as [(db1 & Hloop & Hcat)|(db1 & pre & m & post & err & _ & Hloop & _)]; [|congruence].
  assert (db1 = db') as -> by congruence.
  exists s, (fold_left (after_success h) (plan_Migrations plan) (set_Status s StatusMigrating)),
         (map (success_record h) (plan_Migrations plan)).
  split; [done|]. split; [done|]. split; [done|]. split.
  { intros m Hm. rewrite after_all_applied.
    replace (existsb (String.eqb (ID m)) (map ID (plan_Migrations plan))) with true; [done|].
    symmetry. apply existsb_eqb_In. by apply in_map. }
  split.
  { intros id Hid. rewrite after_all_applied.
    apply existsb_eqb_not_In in Hid. by rewrite Hid. }
  split; [by rewrite after_all_version|]. split; [by rewrite after_all_history|].
  split; [by rewrite map_map|]. split.
  { apply Forall_forall. intros record Hin. rewrite list_elem_of_In in Hin.
    by apply in_map_iff in Hin as (? & <- & _). }
  by rewrite after_all_status.
Qed.

Lemma executeUpgrade_success_witness :
  exists s s' records,
    catalog one_applied_db = Ok s
    /\ (ValidateSchemaState host_forward one_applied_db).2 = Ok tt
    /\ catalog (executeUpgrade host_forward upgrade_engine upgrade_plan one_applied_db).1
       = Ok s'
    /\ (forall m, In m (plan_Migrations upgrade_plan) ->
                  AppliedMigrations s' !! ID m = Some true)
    /\ (forall id, ~ In id (map ID (plan_Migrations upgrade_plan)) ->
                   AppliedMigrations s' !! id = AppliedMigrations s !! id)
    /\ CurrentVersion s' = maxPlanVersion (CurrentVersion s) (plan_Migrations upgrade_plan)
    /\ MigrationHistory s' = MigrationHistory s ++ records
    /\ map rec_ID records = map ID (plan_Migrations upgrade_plan)
    /\ Forall (fun record => rec_Success record = true) records
    /\ SchemaStatus s'
       = if nonempty (plan_Migrations upgrade_plan) then StatusClean else StatusMigrating.
Proof.
  apply (executeUpgrade_success host_forward upgrade_engine upgrade_plan one_applied_db).
  - reflexivity.
  - intros m Hm. vm_compute in Hm. destruct Hm as [<-|[<-|[]]];
      (split; [intros g [= <-] db; reflexivity|intros g [=]]).
  - vm_compute. reflexivity.
Defined.

(** X21.  A failed upgrade.  When [executeUpgrade] (not a dry run) returns an
    error for a plan whose callbacks leave the reserved key alone, then
    either the store is returned as it was given (the backup or the
    validation failed), or the loop stopped at a migration [m] of the plan:
    the migrations before [m] are applied and recorded, [m] is not recorded
    as applied by this run, the last record of the history is the failure of
    [m] with the error of its callback, the current version is the one
    reached before [m], and the status is dirty. *)
Theorem executeUpgrade_failure
    (h : Host) (e : MigrationEngine) (plan : ExecutionPlan) (db db' : DB) (msg : string) :
  dryRun e = false ->
  (forall m, In m (plan_Migrations plan) ->
             preserves_catalog (Up m) /\ preserves_catalog (Validate m)) ->
  executeUpgrade h e plan db = (db', Err msg) ->
  db' = db
  \/ exists s s' pre m post err records,
       catalog db = Ok s
       /\ plan_Migrations plan = pre ++ m :: post
       /\ msg = "migration " +:+ ID m +:+ " failed: " +:+ err
       /\ catalog db' = Ok s'
       /\ SchemaStatus s' = StatusDirty
       /\ (forall x, In x pre -> AppliedMigrations s' !! ID x = Some true)
       /\ (forall id, ~ In id (map ID pre) ->
                      AppliedMigrations s' !! id = AppliedMigrations s !! id)
       /\ CurrentVersion s' = maxPlanVersion (CurrentVersion s) pre
       /\ MigrationHistory s'
          = MigrationHistory s ++ records
            ++ [failure_record h (ID m) (Description m) err]
       /\ map rec_ID records = map ID pre
       /\ Forall (fun record => rec_Success record = true) records.
Proof.
  intros Hdry Hpres Hrun.
  destruct (executeUpgrade_steps h e plan db Hdry)
    as [[err Herr]|[(err & _ & Herr)|(s & Hs & Hvalid & Hsteps)]];
    [left; congruence|left; congruence|].
  rewrite Hsteps in Hrun. right.
  destruct (upgradeLoop_run h e (plan_Migrations plan) Hpres _ (set_Status s StatusMigrating)
              (catalog_insert _ db))
    as [(db1 & Hloop & _)|(db1 & pre & m & post & err & Hms & Hloop & Hcat)]; [congruence|].
  rewrite Hloop in Hrun. injection Hrun as <- <-.
  exists s, (after_failure h (fold_left (after_success h) pre (set_Status s StatusMigrating))
                           (ID m) (Description m) err),
         pre, m, post, err, (map (success_record h) pre).
  split; [done|]. split; [done|]. split; [done|]. split; [done|]. split; [done|].
  cbn [after_failure AppliedMigrations CurrentVersion MigrationHistory].
  split.
  { intros x Hx. rewrite after_all_applied.
    replace (existsb (String.eqb (ID x)) (map ID pre)) with true; [done|].
    symmetry. apply existsb_eqb_In. by apply in_map. }
  split.
  { intros id Hid. rewrite after_all_applied.
    apply existsb_eqb_not_In in Hid. by rewrite Hid. }
  split; [by rewrite after_all_version|].
  split; [by rewrite after_all_history, <- app_assoc|].
  split; [by rewrite map_map|].
  apply Forall_forall. intros record Hin. rewrite list_elem_of_In in Hin.
  by apply in_map_iff in Hin as (? & <- & _).
Qed.

Lemma executeUpgrade_failure_witness :
  (executeUpgrade host_forward failing_engine failing_plan one_applied_db).1 = one_applied_db
  \/ exists s s' pre m post err records,
       catalog one_applied_db = Ok s
       /\ plan_Migrations failing_plan = pre ++ m :: post
       /\ "migration 1754917300_next failed: up migration failed: boom"
          = "migration " +:+ ID m +:+ " failed: " +:+ err
       /\ catalog (executeUpgrade host_forward failing_engine failing_plan one_applied_db).1
          = Ok s'
       /\ SchemaStatus s' = StatusDirty
       /\ (forall x, In x pre -> AppliedMigrations s' !! ID x = Some true)
       /\ (forall id, ~ In id (map ID pre) ->
                      AppliedMigrations s' !! id = AppliedMigrations s !! id)
       /\ CurrentVersion s' = maxPlanVersion (CurrentVersion s) pre
       /\ MigrationHistory s'
          = MigrationHistory s ++ records
            ++ [failure_record host_forward (ID m) (Description m) err]
       /\ map rec_ID records = map ID pre
       /\ Forall (fun record => rec_Success record = true) records.
Proof.
  apply (executeUpgrade_failure host_forward failing_engine failing_plan one_applied_db).
  - reflexivity.
  - intros m Hm. vm_compute in Hm. destruct Hm as [<-|[<-|[<-|[]]]];
      (split; [intros g [= <-] db; reflexivity|intros g [=]]).
  - vm_compute. reflexivity.
Defined.

(** X22.  An upgrade plan without migrations.  On a store that
    [ValidateSchemaState] accepts, [executeUpgrade] (not a dry run) of such a
    plan takes no backup, returns nil and rewrites the record with status
    migrating and nothing else changed: the loop that would reset the status
    has no turn.  [ValidateSchemaState] rejects the store it leaves. *)
Theorem executeUpgrade_empty_plan
    (h h' : Host) (e : MigrationEngine) (plan : ExecutionPlan) (db : DB) :
  dryRun e = false ->
  plan_Migrations plan = [] ->
  (ValidateSchemaState h db).2 = Ok tt ->
  exists s,
    catalog db = Ok s
    /\ executeUpgrade h e plan db
       = (<[SchemaVersionKey := VSchema (set_Status s StatusMigrating)]> db, Ok tt)
    /\ (ValidateSchemaState h' (executeUpgrade h e plan db).1).2
       = Err "migration is currently in progress".
Proof.
  intros Hdry Hms Hvalid.
  assert (Hvalid' : ValidateSchemaState h db = (db, Ok tt)).
  { pose proof (ValidateSchemaState_reads h db) as Hreads.
    destruct (ValidateSchemaState h db) as [db0 res]. simpl in *. by subst. }
  destruct (catalog db) as [s|err] eqn:Hs.
  2:{ exfalso. unfold ValidateSchemaState in Hvalid. unfold_M.
      rewrite (GetSchemaVersion_fails _ _ Hs) in Hvalid. discriminate Hvalid. }
  exists s. split; [done|].
  assert (Hrun : executeUpgrade h e plan db
                 = (<[SchemaVersionKey := VSchema (set_Status s StatusMigrating)]> db, Ok tt)).
  { unfold executeUpgrade. rewrite Hdry, Hms. cbn [nonempty upgradeLoop].
    assert (Hbackup : forall description failure,
              backupBefore e false description failure db = (db, Ok tt)).
    { intros. unfold backupBefore. destruct (backupManager e); [|done].
      by rewrite andb_false_r. }
    rewrite (bind_ok _ _ _ _ _ (Hbackup _ _)).
    rewrite (bind_ok _ _ _ _ _ (wrapping_ok _ _ _ _ _ Hvalid')).
    by rewrite (bind_ok _ _ _ _ _ (wrapping_ok _ _ _ _ _ (MarkMigrationStarted_run db s Hs))). }
  split; [done|]. rewrite Hrun. cbn [fst].
  unfold ValidateSchemaState. unfold_M.
  by rewrite (GetSchemaVersion_reads _ _ (catalog_insert _ db)).
Qed.

Lemma executeUpgrade_empty_plan_witness :
  exists s,
    catalog one_applied_db = Ok s
    /\ executeUpgrade host_forward upgrade_engine empty_plan one_applied_db
       = (<[SchemaVersionKey := VSchema (set_Status s StatusMigrating)]> one_applied_db,
          Ok tt)
    /\ (ValidateSchemaState host_forward
          (executeUpgrade host_forward upgrade_engine empty_plan one_applied_db).1).2
       = Err "migration is currently in progress".
Proof.
  apply (executeUpgrade_empty_plan host_forward host_forward upgrade_engine empty_plan
           one_applied_db).
  - reflexivity.
  - reflexivity.
  - reflexivity.
Defined.

(** ** Downgrades *)

Lemma UpdateAfterRollback_run (h : Host) (m : Migration) (db : DB) (s : SchemaVersion) :
  catalog db = Ok s ->
  UpdateAfterRollback h (ID m) (Version m) (Description m) db
  = (<[SchemaVersionKey := VSchema (after_rollback h s m)]> db, Ok tt).
Proof.
  intros Hs. unfold UpdateAfterRollback. unfold_M.
  by rewrite (GetSchemaVersion_reads _ _ Hs).
Qed.

Lemma MarkRollbackStarted_run (db : DB) (s : SchemaVersion) :
  catalog db = Ok s ->
  MarkRollbackStarted db
  = (<[SchemaVersionKey := VSchema (set_Status s StatusRollback)]> db, Ok tt).
Proof.
  intros Hs. unfold MarkRollbackStarted. unfold_M.
  by rewrite (GetSchemaVersion_reads _ _ Hs).
Qed.

(** The loop of [executeDowngrade], as [upgradeLoop_run] for the upgrade. *)
Lemma downgradeLoop_run (h : Host) (e : MigrationEngine) (ms : list Migration) :
  (forall m, In m ms -> preserves_catalog (Down m) /\ preserves_catalog (Validate m)) ->
  forall db s, catalog db = Ok s ->
    (exists db', downgradeLoop h e ms db = (db', Ok tt)
                 /\ catalog db' = Ok (fold_left (after_rollback h) ms s))
    \/ (exists db' pre m post err,
          ms = pre ++ m :: post
          /\ downgradeLoop h e ms db
             = (db', Err ("rollback of migration " +:+ ID m +:+ " failed: " +:+ err))
          /\ catalog db'
             = Ok (after_failure h (fold_left (after_rollback h) pre s)
                                 (ID m +:+ "_rollback") ("Rollback: " +:+ Description m) err)).
Proof.
  induction ms as [|m ms IH]; intros Hpres db s Hs.
  { left. by exists db. }
  destruct (Hpres m (or_introl eq_refl)) as [Hdown Hval].
  pose proof (executeSingleMigration_preserves e m false db Hdown Hval) as Hkey.
  destruct (executeSingleMigration e m false db) as [db1 [[]|err]] eqn:Hrun; simpl in Hkey.
  - assert (Hs1 : catalog db1 = Ok s) by (rewrite <- Hs; by apply catalog_frame).
    assert (Hstep : downgradeLoop h e (m :: ms) db
                    = downgradeLoop h e ms
                        (<[SchemaVersionKey := VSchema (after_rollback h s m)]> db1)).
    { cbn [downgradeLoop]. unfold bind, orMarkFailed, wrapping. rewrite Hrun.
      by rewrite (UpdateAfterRollback_run h m db1 s Hs1). }
    rewrite Hstep.
    destruct (IH (fun x Hx => Hpres x (or_intror Hx)) _ (after_rollback h s m)
                 (catalog_insert _ db1))
      as [(db' & Hloop & Hcat)|(db' & pre & x & post & err & Hms & Hloop & Hcat)].
    + left. exists db'. by split.
    + right. exists db', (m :: pre), x, post, err. split; [by rewrite Hms|]. by split.
  - assert (Hs1 : catalog db1 = Ok s) by (rewrite <- Hs; by apply catalog_frame).
    assert (Hstep : downgradeLoop h e (m :: ms) db
                    = (<[SchemaVersionKey :=
                           VSchema (after_failure h s (ID m +:+ "_rollback")
                                                  ("Rollback: " +:+ Description m) err)]> db1,
                       Err ("rollback of migration " +:+ ID m +:+ " failed: " +:+ err))).
    { cbn [downgradeLoop]. unfold bind, orMarkFailed. rewrite Hrun.
      by rewrite (MarkMigrationFailed_run h _ _ err db1 s Hs1). }
    rewrite Hstep.
    right. eexists _, [], m, ms, err. split; [done|]. split; [done|]. apply catalog_insert.
Qed.

Lemma after_rollbacks_applied (h : Host) (ms : list Migration) (s : SchemaVersion)
    (id : string) :
  AppliedMigrations (fold_left (after_rollback h) ms s) !! id
  = if existsb (String.eqb id) (map ID ms) then None else AppliedMigrations s !! id.
Proof.
  revert s. induction ms as [|m ms IH]; intros s; [done|]. simpl. rewrite IH.
  destruct (existsb (String.eqb id) (map ID ms)); [by rewrite orb_true_r|].
  rewrite orb_false_r. cbn [after_rollback AppliedMigrations].
  destruct (String.eqb_spec id (ID m)) as [->|Hne].
  - by rewrite lookup_delete_eq.
  - by rewrite lookup_delete_ne.
Qed.

Lemma after_rollbacks_version (h : Host) (ms : list Migration) (s : SchemaVersion) :
  ms <> [] ->
  version_derived (AppliedMigrations (fold_left (after_rollback h) ms s))
                  (CurrentVersion (fold_left (after_rollback h) ms s)).
Proof.
  induction ms as [|m ms IH] using rev_ind; [done|]. intros _.
  rewrite fold_left_app. cbn [fold_left after_rollback AppliedMigrations CurrentVersion].
  apply maxAppliedVersion_derived.
Qed.

Lemma after_rollbacks_history (h : Host) (ms : list Migration) (s : SchemaVersion) :
  MigrationHistory (fold_left (after_rollback h) ms s)
  = MigrationHistory s ++ map (rollback_record h) ms.
Proof.
  revert s. induction ms as [|m ms IH]; intros s; simpl; [by rewrite app_nil_r|].
  rewrite IH. cbn [after_rollback MigrationHistory]. by rewrite <- app_assoc.
Qed.

Lemma after_rollbacks_status (h : Host) (ms : list Migration) (s : SchemaVersion) :
  SchemaStatus (fold_left (after_rollback h) ms s)
  = if nonempty ms then StatusClean else SchemaStatus s.
Proof.
  revert s. induction ms as [|m ms IH]; intros s; [done|]. simpl. rewrite IH.
  by destruct ms.
Qed.

(** X23.  A successful downgrade.  When [executeDowngrade] (not a dry run)
    returns nil for a plan whose callbacks leave the reserved key alone, the
    store it was given had passed [ValidateSchemaState], and in the record it
    leaves no migration of the plan is applied any more, the other entries of
    the applied set are untouched, the history has grown by one successful
    record [id ++ "_rollback"] per migration, in plan order, and, the plan
    being non-empty, the current version is the one derived from the applied
    set that remains and the status is clean.  After an empty plan the status
    is left at rollback. *)
Theorem executeDowngrade_success
    (h : Host) (e : MigrationEngine) (plan : ExecutionPlan) (db db' : DB) :
  dryRun e = false ->
  (forall m, In m (plan_Migrations plan) ->
             preserves_catalog (Down m) /\ preserves_catalog (Validate m)) ->
  executeDowngrade h e plan db = (db', Ok tt) ->
  exists s s',
    catalog db = Ok s
    /\ (ValidateSchemaState h db).2 = Ok tt
    /\ catalog db' = Ok s'
    /\ (forall m, In m (plan_Migrations plan) -> AppliedMigrations s' !! ID m = None)
    /\ (forall id, ~ In id (map ID (plan_Migrations plan)) ->
                   AppliedMigrations s' !! id = AppliedMigrations s !! id)
    /\ MigrationHistory s'
       = MigrationHistory s ++ map (rollback_record h) (plan_Migrations plan)
    /\ (plan_Migrations plan <> [] ->
        version_derived (AppliedMigrations s') (CurrentVersion s'))
    /\ SchemaStatus s'
       = if nonempty (plan_Migrations plan) then StatusClean else StatusRollback.
Proof.
  intros Hdry Hpres Hrun. unfold executeDowngrade in Hrun. rewrite Hdry in Hrun.
  apply bind_inv_ok in Hrun as (db1 & [] & Hbackup & Hrun).
  apply backupBefore_inv_ok in Hbackup as ->.
  apply bind_inv_ok in Hrun as (db2 & [] & Hvalid & Hrun).
  apply wrapping_inv_ok in Hvalid.
  assert (db2 = db) as ->.
  { rewrite <- (ValidateSchemaState_reads h db). by rewrite Hvalid. }
  destruct (catalog db) as [s|err] eqn:Hs.
  2:{ exfalso. unfold ValidateSchemaState in Hvalid. unfold_M.
      rewrite (GetSchemaVersion_fails _ _ Hs) in Hvalid. discriminate Hvalid. }
  apply bind_inv_ok in Hrun as (db3 & [] & Hstart & Hrun).
  apply wrapping_inv_ok in Hstart.
  rewrite (MarkRollbackStarted_run db s Hs) in Hstart. injection Hstart as <-.
  destruct (downgradeLoop_run h e (plan_Migrations plan) Hpres _ (set_Status s StatusRollback)
              (catalog_insert _ db))
    as [(db1 & Hloop & Hcat)|(db1 & pre & m & post & err & _ & Hloop & _)]; [|congruence].
  assert (db1 = db') as -> by congruence.
  exists s, (fold_left (after_rollback h) (plan_Migrations plan)
                       (set_Status s StatusRollback)).
  split; [done|]. split; [by rewrite Hvalid|]. split; [done|]. split.
  { intros m Hm. rewrite after_rollbacks_applied.
    replace (existsb (String.eqb (ID m)) (map ID (plan_Migrations plan))) with true; [done|].
    symmetry. apply existsb_eqb_In. by apply in_map. }
  split.
  { intros id Hid. rewrite after_rollbacks_applied.
    apply existsb_eqb_not_In in Hid. by rewrite Hid. }
  split; [by rewrite after_rollbacks_history|].
  split; [apply after_rollbacks_version|]. by rewrite after_rollbacks_status.
Qed.

Lemma executeDowngrade_success_witness :
  exists s s',
    catalog three_applied_db = Ok s
    /\ (ValidateSchemaState host_forward three_applied_db).2 = Ok tt
    /\ catalog (executeDowngrade host_forward downgrade_engine downgrade_plan
                  three_applied_db).1 = Ok s'
    /\ (forall m, In m (plan_Migrations downgrade_plan) ->
                  AppliedMigrations s' !! ID m = None)
    /\ (forall id, ~ In id (map ID (plan_Migrations downgrade_plan)) ->
                   AppliedMigrations s' !! id = AppliedMigrations s !! id)
    /\ MigrationHistory s'
       = MigrationHistory s
         ++ map (rollback_record host_forward) (plan_Migrations downgrade_plan)
    /\ (plan_Migrations downgrade_plan <> [] ->
        version_derived (AppliedMigrations s') (CurrentVersion s'))
    /\ SchemaStatus s'
       = if nonempty (plan_Migrations downgrade_plan) then StatusClean else StatusRollback.
Proof.
  apply (executeDowngrade_success host_forward downgrade_engine downgrade_plan
           three_applied_db).
  - reflexivity.
  - intros m Hm. vm_compute in Hm. destruct Hm as [<-|[<-|[]]];
      (split; [intros g [= <-] db; reflexivity|intros g [=]]).
  - vm_compute. reflexivity.
Defined.

(** ** A rollback that fails *)

Lemma find_unique {A} (f : A -> bool) (l : list A) (a : A) :
  In a l -> f a = true -> (forall x, In x l -> f x = true -> x = a) ->
  List.find f l = Some a.
Proof.
  intros Hin Ha Honly. destruct (List.find f l) as [x|] eqn:Hfind.
  - apply find_some in Hfind as [Hx Hfx]. by rewrite (Honly x Hx Hfx).
  - by rewrite (find_none _ _ Hfind a Hin) in Ha.
Qed.

Lemma successfulMigrations_recorded (history : list MigrationRecord) (id : string) :
  is_Some (successfulMigrations history !! id) ->
  lookup_bool (successfulInHistory history) id = true.
Proof.
  induction history as [|record history IH] using rev_ind.
  - unfold successfulMigrations. simpl. rewrite lookup_empty. by intros [? ?].
  - rewrite successfulMigrations_snoc, successfulInHistory_snoc.
    destruct (rec_Success record && negb (isRollbackRecord (rec_ID record))).
    + unfold lookup_bool. destruct (decide (rec_ID record = id)) as [->|Hne].
      * by rewrite !lookup_insert_eq.
      * rewrite !lookup_insert_ne by done. apply IH.
    + destruct (isRollbackRecord (rec_ID record)); [|apply IH].
      intros [v Hv]. apply lookup_delete_Some in Hv as [_ Hv]. apply IH. by exists v.
Qed.

(** X24.  A rollback that failed, then a forced clean.  [executeDowngrade]
    records the failure of the rollback of [id] with [MarkMigrationFailed]
    under the identifier [id ++ "_rollback"], and [ValidateSchemaState] reads
    every record with such an identifier as a rollback of [id], failed or
    not.  So on a record that was consistent and has [id] applied, after that
    failure record and [ForceCleanState], [ValidateSchemaState] rejects the
    store, naming [id] as applied without a successful record; and
    [RepairMissingHistory] finds nothing to repair there. *)
Theorem failed_rollback_blocks_validation
    (h h' h'' : Host) (r : MigrationRegistry) (db : DB) (s : SchemaVersion)
    (id description err : string) :
  catalog db = Ok s ->
  history_consistent s ->
  is_Some (AppliedMigrations s !! id) ->
  id <> "" ->
  (ValidateSchemaState h'
     (ForceCleanState
        (MarkMigrationFailed h (id +:+ "_rollback") description err db).1).1).2
  = Err ("migration " +:+ id +:+ " marked as applied but no successful record in history")
  /\ (RepairMissingHistory h'' r
        (ForceCleanState
           (MarkMigrationFailed h (id +:+ "_rollback") description err db).1).1).2
     = Ok []
  /\ (RepairMissingHistory h'' r
        (ForceCleanState
           (MarkMigrationFailed h (id +:+ "_rollback") description err db).1).1).1
     = (ForceCleanState
          (MarkMigrationFailed h (id +:+ "_rollback") description err db).1).1.
Proof.
  intros Hs Hcons Happlied Hid. unfold history_consistent in Hcons.
  rewrite (MarkMigrationFailed_run h _ description err db s Hs). cbn [fst].
  set (s0 := after_failure h s (id +:+ "_rollback") description err).
  set (db0 := <[SchemaVersionKey := VSchema s0]> db).
  assert (Hforce : ForceCleanState db0
                   = (<[SchemaVersionKey := VSchema (set_Status s0 StatusClean)]> db0, Ok tt)).
  { unfold ForceCleanState. unfold_M.
    by rewrite (GetSchemaVersion_reads db0 s0 (catalog_insert s0 db)). }
  rewrite Hforce. cbn [fst].
  set (db1 := <[SchemaVersionKey := VSchema (set_Status s0 StatusClean)]> db0).
  assert (Hs1 : catalog db1 = Ok (set_Status s0 StatusClean)) by apply catalog_insert.
  assert (Hsucc : successfulMigrations (MigrationHistory s0)
                  = delete id (AppliedMigrations s)).
  { unfold s0. cbn [after_failure MigrationHistory].
    rewrite successfulMigrations_snoc. cbn [failure_record rec_Success rec_ID andb].
    by rewrite (isRollbackRecord_suffixed id Hid), rollback_original, Hcons. }
  split.
  - unfold ValidateSchemaState. unfold_M. rewrite (GetSchemaVersion_reads _ _ Hs1).
    cbn [set_Status SchemaStatus MigrationHistory AppliedMigrations].
    change (String.eqb StatusClean StatusDirty) with false.
    change (String.eqb StatusClean StatusMigrating) with false.
    change (String.eqb StatusClean StatusRollback) with false. cbv iota.
    rewrite Hsucc. change (AppliedMigrations s0) with (AppliedMigrations s).
    replace (List.find (fun x => negb (lookup_bool (AppliedMigrations s) x))
                       (range_of (map_iteration h') (delete id (AppliedMigrations s))))
      with (@None string).
    2:{ symmetry. apply find_None_iff. intros x Hx.
        apply In_range_of in Hx as [v Hv]. apply lookup_delete_Some in Hv as [_ Hv].
        assert (v = true) as ->.
        { apply (successfulMigrations_true (MigrationHistory s) x). by rewrite <- Hcons. }
        unfold lookup_bool. by rewrite Hv. }
    rewrite (find_unique _ _ id); [done| | |].
    + by apply In_range_of.
    + unfold lookup_bool. by rewrite lookup_delete_eq.
    + intros x Hx Hfx. destruct (decide (x = id)) as [|Hne]; [done|]. exfalso.
      apply In_range_of in Hx as [v Hv].
      assert (v = true) as ->.
      { apply (successfulMigrations_true (MigrationHistory s) x). by rewrite <- Hcons. }
      unfold lookup_bool in Hfx. rewrite lookup_delete_ne, Hv in Hfx by done.
      discriminate Hfx.
  - assert (Hnone : missingHistory h'' (set_Status s0 StatusClean) = []).
    { apply filter_nothing. intros x Hx. apply negb_false_iff.
      cbn [set_Status MigrationHistory AppliedMigrations] in *.
      unfold s0 in *. cbn [after_failure MigrationHistory AppliedMigrations] in *.
      rewrite successfulInHistory_snoc. cbn [failure_record rec_Success andb].
      apply successfulMigrations_recorded. rewrite <- Hcons. by apply In_range_of in Hx. }
    rewrite (RepairMissingHistory_run h'' r db1 _ Hs1), Hnone. done.
Qed.

Lemma failed_rollback_blocks_validation_witness :
  (ValidateSchemaState host_forward
     (ForceCleanState
        (MarkMigrationFailed host_forward ("1754917200_test" +:+ "_rollback")
           "Rollback: Test migration" "boom" one_applied_db).1).1).2
  = Err ("migration " +:+ "1754917200_test"
         +:+ " marked as applied but no successful record in history")
  /\ (RepairMissingHistory host_forward three_registry
        (ForceCleanState
           (MarkMigrationFailed host_forward ("1754917200_test" +:+ "_rollback")
              "Rollback: Test migration" "boom" one_applied_db).1).1).2
     = Ok []
  /\ (RepairMissingHistory host_forward three_registry
        (ForceCleanState
           (MarkMigrationFailed host_forward ("1754917200_test" +:+ "_rollback")
              "Rollback: Test migration" "boom" one_applied_db).1).1).1
     = (ForceCleanState
          (MarkMigrationFailed host_forward ("1754917200_test" +:+ "_rollback")
             "Rollback: Test migration" "boom" one_applied_db).1).1.
Proof.
  apply (failed_rollback_blocks_validation host_forward host_forward host_forward
           three_registry one_applied_db one_applied "1754917200_test").
  - reflexivity.
  - vm_compute. reflexivity.
  - by exists true.
  - discriminate.
Defined.

(** * Further properties of the planner *)

Lemma StronglySorted_rev {A} (R : A -> A -> Prop) (l : list A) :
  StronglySorted R l -> StronglySorted (fun a b => R b a) (rev l).
Proof.
  induction 1 as [|a l Hl IH Ha]; simpl; [constructor|].
  apply StronglySorted_app. split; [|split; [done|repeat constructor]].
  intros x y Hx Hy. apply list_elem_of_singleton in Hy as ->.
  rewrite List.Forall_forall in Ha. apply Ha.
  rewrite list_elem_of_In in Hx. by apply in_rev.
Qed.

(** X25.  [PlanDowngrade] on a registry built by [Register] and a readable
    record never fails and never writes.  When the current version is at
    most the target it plans nothing.  Otherwise it plans exactly the
    registered migrations marked applied whose version lies above the target
    and at most at the current version, each once, in descending version
    order, with one estimated step each. *)
Theorem PlanDowngrade_spec (r : MigrationRegistry) (db : DB) (s : SchemaVersion)
    (targetVersion : Z) :
  registered r ->
  catalog db = Ok s ->
  exists plan,
    PlanDowngrade r targetVersion db = (db, Ok plan)
    /\ plan_Type plan = ExecutionTypeDowngrade
    /\ plan_CurrentVersion plan = CurrentVersion s
    /\ plan_EstimatedSteps plan = len (plan_Migrations plan)
    /\ (CurrentVersion s <= targetVersion ->
        plan_Migrations plan = [] /\ plan_TargetVersion plan = CurrentVersion s)
    /\ (targetVersion < CurrentVersion s ->
        plan_TargetVersion plan = targetVersion
        /\ (forall m, In m (plan_Migrations plan) <->
              In m (GetMigrations r)
              /\ targetVersion < Version m <= CurrentVersion s
              /\ lookup_bool (AppliedMigrations s) (ID m) = true)
        /\ StronglySorted (fun a b => Version b <= Version a) (plan_Migrations plan)
        /\ List.NoDup (map ID (plan_Migrations plan))).
Proof.
  intros Hr Hs. unfold PlanDowngrade. unfold_M. rewrite (GetSchemaVersion_reads _ _ Hs).
  destruct (CurrentVersion s <=? targetVersion) eqn:Hle; Ztests.
  - eexists. split; [reflexivity|]. cbn. repeat split; try done; lia.
  - eexists. split; [reflexivity|]. cbn [plan_Type plan_CurrentVersion plan_EstimatedSteps
                                         plan_Migrations plan_TargetVersion].
    split; [done|]. split; [done|]. split; [done|]. split; [lia|]. intros _.
    split; [done|].
    destruct (registered_wf r Hr) as (Hnd & _ & _).
    pose proof (registered_sorted r Hr) as Hsorted.
    split; [|split].
    + intros m. rewrite filter_In, <- in_rev.
      unfold GetMigrationsInVersionRange, GetMigrations. rewrite filter_In, andb_true_iff.
      split.
      * intros [[Hm [H1 H2]] Ha]. Ztests. split; [done|]. split; [lia|done].
      * intros (Hm & [H1 H2] & Ha). split; [|done]. split; [done|].
        split; [apply Z.geb_le|apply Z.leb_le]; lia.
    + apply StronglySorted_list_filter.
      apply (StronglySorted_rev version_le).
      by apply StronglySorted_list_filter.
    + apply NoDup_map_filter. rewrite map_rev. apply NoDup_rev.
      by apply NoDup_map_filter.
Qed.

Lemma PlanDowngrade_spec_witness :
  exists plan,
    PlanDowngrade three_registry 1754917200 three_applied_db = (three_applied_db, Ok plan)
    /\ plan_Type plan = ExecutionTypeDowngrade
    /\ plan_CurrentVersion plan = 1754917400
    /\ plan_EstimatedSteps plan = len (plan_Migrations plan)
    /\ (1754917400 <= 1754917200 ->
        plan_Migrations plan = [] /\ plan_TargetVersion plan = 1754917400)
    /\ (1754917200 < 1754917400 ->
        plan_TargetVersion plan = 1754917200
        /\ (forall m, In m (plan_Migrations plan) <->
              In m (GetMigrations three_registry)
              /\ 1754917200 < Version m <= 1754917400
              /\ lookup_bool
                   (AppliedMigrations
                      (match catalog three_applied_db with Ok s => s | Err _ => zeroSchema end))
                   (ID m) = true)
        /\ StronglySorted (fun a b => Version b <= Version a) (plan_Migrations plan)
        /\ List.NoDup (map ID (plan_Migrations plan))).
Proof.
  apply (PlanDowngrade_spec three_registry three_applied_db
           (match catalog three_applied_db with Ok s => s | Err _ => zeroSchema end)
           1754917200).
  - apply registry_of_registered.
  - vm_compute. reflexivity.
Defined.

Lemma duplicateCheck_NoDup (ms : list Migration) (idMap : gmap string bool) :
  List.NoDup (map ID ms) ->
  (forall m, In m ms -> lookup_bool idMap (ID m) = false) ->
  duplicateCheck ms idMap = Ok tt.
Proof.
  revert idMap. induction ms as [|m ms IH]; intros idMap Hnd Hfresh; [done|].
  simpl in *. apply NoDup_cons_iff in Hnd as [Hnot Hnd].
  rewrite (Hfresh m) by (by left). apply IH; [done|].
  intros x Hx. unfold lookup_bool. rewrite lookup_insert_ne.
  - apply Hfresh. by right.
  - intros Heq. apply Hnot. rewrite Heq. by apply in_map.
Qed.

(** X26.  [ValidateMigrations] on a registry built by [Register]: it fails
    exactly when no migration is registered.  Its other two checks, for a
    duplicate ID and for an ID that does not parse, can never fail there,
    [Register] having refused such migrations. *)
Theorem ValidateMigrations_registered (r : MigrationRegistry) :
  registered r ->
  ValidateMigrations r
  = match GetMigrations r with
    | [] => Err "no migrations found"
    | _ :: _ => Ok tt
    end.
Proof.
  intros Hr. destruct (registered_wf r Hr) as (Hnd & _ & Hver).
  unfold ValidateMigrations, GetMigrations in *.
  destruct (ordered r) as [|m ms] eqn:Hord; [done|].
  rewrite duplicateCheck_NoDup; [|done|by intros x _].
  replace (List.find (fun x => negb (isValidMigrationID (ID x))) (m :: ms))
    with (@None Migration); [done|].
  symmetry. apply find_None_iff. intros x Hx. unfold isValidMigrationID.
  by rewrite (Hver x Hx).
Qed.

Lemma ValidateMigrations_registered_witness :
  ValidateMigrations three_registry
  = match GetMigrations three_registry with
    | [] => Err "no migrations found"
    | _ :: _ => Ok tt
    end.
Proof. apply (ValidateMigrations_registered three_registry), registry_of_registered. Defined.

(** * Further properties of the startup path *)

Lemma InitializeFreshDatabase_present (h : Host) (r : MigrationRegistry) (db : DB) (v : value) :
  db !! SchemaVersionKey = Some v -> InitializeFreshDatabase h r db = (db, Ok tt).
Proof. intros Hv. unfold InitializeFreshDatabase. by rewrite Hv. Qed.

(** X27.  Startup on a store that needs manual intervention: when the record
    has a status other than clean and migrating (dirty, rollback, or any
    other text), [CheckAndRunStartupMigrations] fails with the
    manual-intervention message that quotes the status and the CLI name, and
    returns the store as it found it, whatever the options. *)
Theorem startup_refuses_unclean
    (h : Host) (r : MigrationRegistry) (dbPath : string) (opts : StartupOptions)
    (db : DB) (s : SchemaVersion) :
  catalog db = Ok s ->
  SchemaStatus s <> StatusClean ->
  SchemaStatus s <> StatusMigrating ->
  CheckAndRunStartupMigrations h r dbPath opts db
  = (db, Err ("database is in '" +:+ SchemaStatus s
              +:+ "' state - manual intervention required. "
              +:+ "Run '" +:+ cliNameOf opts +:+ " status' to check and resolve issues")).
Proof.
  intros Hs Hclean Hmigrating.
  pose proof (catalog_not_clean_present db s Hs Hclean) as Hkey.
  unfold CheckAndRunStartupMigrations.
  rewrite (bind_ok _ _ _ _ _ (wrapping_ok _ _ _ _ _
             (InitializeFreshDatabase_present h r db _ Hkey))).
  rewrite (bind_ok _ _ _ _ _ (wrapping_ok _ _ _ _ _ (GetSchemaVersion_reads _ _ Hs))).
  destruct (String.eqb_spec (SchemaStatus s) StatusMigrating) as [|_]; [done|].
  unfold bind at 1. unfold ret at 1.
  by destruct (String.eqb_spec (SchemaStatus s) StatusClean) as [|_].
Qed.

Lemma startup_refuses_unclean_witness :
  CheckAndRunStartupMigrations host_forward three_registry "/data/db" migrate_options dirty_db
  = (dirty_db,
     Err ("database is in '" +:+ SchemaStatus (set_Status one_applied StatusDirty)
          +:+ "' state - manual intervention required. "
          +:+ "Run '" +:+ cliNameOf migrate_options
          +:+ " status' to check and resolve issues")).
Proof.
  apply (startup_refuses_unclean host_forward three_registry "/data/db" migrate_options
           dirty_db (set_Status one_applied StatusDirty)).
  - reflexivity.
  - discriminate.
  - discriminate.
Defined.

Lemma InitializeFreshDatabase_ok (h : Host) (r : MigrationRegistry) (db : DB) :
  InitializeFreshDatabase h r db = ((InitializeFreshDatabase h r db).1, Ok tt).
Proof.
  unfold InitializeFreshDatabase. destruct (db !! SchemaVersionKey); [done|].
  destruct (negb (isDatabaseEmpty db)); [done|].
  destruct (GetMigrations r); [done|].
  by destruct (markAllApplied h _) as [[? ?] ?].
Qed.

(** X28.  Startup without [RunMigrations] runs nothing.  On a store whose
    record, once initialized, is clean, [CheckAndRunStartupMigrations] with
    [RunMigrations] unset leaves the store as [InitializeFreshDatabase] left
    it; it returns nil exactly when [PlanUpgrade] plans no migration, and
    when migrations are pending its error gives their number and the command
    to run. *)
Theorem startup_without_migrate
    (h : Host) (r : MigrationRegistry) (dbPath : string) (opts : StartupOptions)
    (db : DB) (s : SchemaVersion) :
  RunMigrations opts = false ->
  catalog (InitializeFreshDatabase h r db).1 = Ok s ->
  SchemaStatus s = StatusClean ->
  (CheckAndRunStartupMigrations h r dbPath opts db).1 = (InitializeFreshDatabase h r db).1
  /\ ((CheckAndRunStartupMigrations h r dbPath opts db).2 = Ok tt
      <-> exists plan, (PlanUpgrade h r (InitializeFreshDatabase h r db).1).2 = Ok plan
                       /\ plan_Migrations plan = [])
  /\ (forall plan, (PlanUpgrade h r (InitializeFreshDatabase h r db).1).2 = Ok plan ->
                   plan_Migrations plan <> [] ->
        (CheckAndRunStartupMigrations h r dbPath opts db).2
        = Err ("database has " +:+ fmt_d (len (plan_Migrations plan))
               +:+ " pending migrations. "
               +:+ "Run migrations using '" +:+ cliNameOf opts
               +:+ " up' or restart with --migrate flag. "
               +:+ "Note: After using --clean or with a new database, "
               +:+ "you must also pass --migrate")).
Proof.
  intros Hno Hs Hclean.
  pose proof (InitializeFreshDatabase_ok h r db) as Hinit.
  remember ((InitializeFreshDatabase h r db).1) as db0 eqn:Hdb0.
  pose proof (PlanUpgrade_reads h r db0) as Hreads.
  assert (Hrun : CheckAndRunStartupMigrations h r dbPath opts db
                 = (db0,
                    match (PlanUpgrade h r db0).2 with
                    | Err e => Err ("failed to create migration plan: " +:+ e)
                    | Ok plan =>
                        match plan_Migrations plan with
                        | [] => Ok tt
                        | _ :: _ =>
                            Err ("database has " +:+ fmt_d (len (plan_Migrations plan))
                                 +:+ " pending migrations. "
                                 +:+ "Run migrations using '" +:+ cliNameOf opts
                                 +:+ " up' or restart with --migrate flag. "
                                 +:+ "Note: After using --clean or with a new database, "
                                 +:+ "you must also pass --migrate")
                        end
                    end)).
  { unfold CheckAndRunStartupMigrations. unfold bind, wrapping, ret, fail. cbv beta.
    rewrite Hinit. cbv beta iota. rewrite (GetSchemaVersion_reads _ _ Hs). cbv beta iota.
    rewrite Hclean.
    change (String.eqb StatusClean StatusMigrating) with false. cbv beta iota.
    rewrite Hclean.
    change (String.eqb StatusClean StatusClean) with true. cbn [negb]. cbv beta iota.
    destruct (PlanUpgrade h r db0) as [db1 [plan|e]]; simpl in Hreads;
      injection Hreads as ->; cbn [snd]; cbv beta iota; [|done].
    destruct (plan_Migrations plan); [done|]. by rewrite Hno. }
  rewrite Hrun. cbn [fst snd]. split; [done|].
  destruct (PlanUpgrade h r db0).2 as [plan|e].
  - destruct (plan_Migrations plan) as [|m ms] eqn:Hms.
    + split.
      * split; [|done]. intros _. by exists plan.
      * intros plan' [= <-]. by rewrite Hms.
    + split.
      * split; [done|]. intros (plan' & [= <-] & Hnil). congruence.
      * intros plan' [= <-] _. by rewrite Hms.
  - split; [|done]. split; [done|]. by intros (? & ? & _).
Qed.

Lemma startup_without_migrate_witness :
  (CheckAndRunStartupMigrations host_forward upgrade_registry "/data/db"
     DefaultStartupOptions one_applied_db).1
  = (InitializeFreshDatabase host_forward upgrade_registry one_applied_db).1
  /\ ((CheckAndRunStartupMigrations host_forward upgrade_registry "/data/db"
         DefaultStartupOptions one_applied_db).2 = Ok tt
      <-> exists plan,
            (PlanUpgrade host_forward upgrade_registry
               (InitializeFreshDatabase host_forward upgrade_registry one_applied_db).1).2
            = Ok plan
            /\ plan_Migrations plan = [])
  /\ (forall plan,
        (PlanUpgrade host_forward upgrade_registry
           (InitializeFreshDatabase host_forward upgrade_registry one_applied_db).1).2
        = Ok plan ->
        plan_Migrations plan <> [] ->
        (CheckAndRunStartupMigrations host_forward upgrade_registry "/data/db"
           DefaultStartupOptions one_applied_db).2
        = Err ("database has " +:+ fmt_d (len (plan_Migrations plan))
               +:+ " pending migrations. "
               +:+ "Run migrations using '" +:+ cliNameOf DefaultStartupOptions
               +:+ " up' or restart with --migrate flag. "
               +:+ "Note: After using --clean or with a new database, "
               +:+ "you must also pass --migrate")).
Proof.
  apply (startup_without_migrate host_forward upgrade_registry "/data/db"
           DefaultStartupOptions one_applied_db one_applied).
  - reflexivity.
  - reflexivity.
  - reflexivity.
Defined.

Lemma executeUpgrade_inv_ok
    (h : Host) (e : MigrationEngine) (plan : ExecutionPlan) (db db' : DB) :
  dryRun e = false ->
  (forall m, In m (plan_Migrations plan) ->
             preserves_catalog (Up m) /\ preserves_catalog (Validate m)) ->
  executeUpgrade h e plan db = (db', Ok tt) ->
  exists s, catalog db = Ok s
            /\ catalog db' = Ok (fold_left (after_success h) (plan_Migrations plan)
                                           (set_Status s StatusMigrating)).
Proof.
  intros Hdry Hpres Hrun.
  destruct (executeUpgrade_steps h e plan db Hdry)
    as [[err Herr]|[(err & _ & Herr)|(s & Hs & _ & Hsteps)]]; [congruence|congruence|].
  rewrite Hsteps in Hrun.
  destruct (upgradeLoop_run h e (plan_Migrations plan) Hpres _ (set_Status s StatusMigrating)
              (catalog_insert _ db))
    as [(db1 & Hloop & Hcat)|(db1 & pre & m & post & err & _ & Hloop & _)]; [|congruence].
  exists s. split; [done|]. congruence.
Qed.

Lemma GetPendingMigrations_Permutation (it : MapIteration) (r : MigrationRegistry)
    (applied : gmap string bool) (sorted : list Migration) :
  registered r ->
  GetPendingMigrations it r applied = Ok sorted ->
  Permutation sorted (collectPending r applied).
Proof.
  intros Hr Hok.
  pose proof (GetPendingMigrations_ok_closed it r applied sorted Hr Hok) as Hclosed.
  apply GetPendingMigrations_inv_ok in Hok.
  by destruct (topologicalSort_sound it r _ applied sorted
                 (collectPending_NoDup r applied Hr) Hclosed Hok).
Qed.

Lemma PlanUpgrade_inv_ok (h : Host) (r : MigrationRegistry) (db db' : DB)
    (plan : ExecutionPlan) :
  PlanUpgrade h r db = (db', Ok plan) ->
  exists s, catalog db = Ok s /\ db' = db
            /\ plan_Type plan = ExecutionTypeUpgrade
            /\ GetPendingMigrations (map_iteration h) r (AppliedMigrations s)
               = Ok (plan_Migrations plan).
Proof.
  unfold PlanUpgrade. intros Hplan.
  apply bind_inv_ok in Hplan as (db1 & s & Hget & Hplan).
  apply wrapping_inv_ok in Hget.
  assert (Hs : catalog db = Ok s) by (unfold catalog; by rewrite Hget).
  rewrite (GetSchemaVersion_reads _ _ Hs) in Hget. injection Hget as <-.
  exists s. split; [done|].
  destruct (GetPendingMigrations _ r _) as [pending|e]; [|discriminate Hplan].
  unfold ret in Hplan. injection Hplan as <- <-. done.
Qed.

(** X29.  A startup that succeeds leaves nothing pending.  For a registry
    built by [Register] whose callbacks leave the reserved key alone: when
    [CheckAndRunStartupMigrations] returns nil, the record of the store it
    leaves is clean and every registered migration is applied, whether the
    store was fresh, legacy, up to date, behind, or recovered from an
    interrupted rerunnable migration. *)
Theorem startup_success_applies_all
    (h : Host) (r : MigrationRegistry) (dbPath : string) (opts : StartupOptions)
    (db db' : DB) :
  registered r ->
  (forall m, In m (GetMigrations r) ->
             preserves_catalog (Up m) /\ preserves_catalog (Validate m)) ->
  CheckAndRunStartupMigrations h r dbPath opts db = (db', Ok tt) ->
  exists s',
    catalog db' = Ok s'
    /\ SchemaStatus s' = StatusClean
    /\ forall m, In m (GetMigrations r) -> lookup_bool (AppliedMigrations s') (ID m) = true.
Proof.
  intros Hr Hpres Hrun. unfold CheckAndRunStartupMigrations in Hrun.
  apply bind_inv_ok in Hrun as (db0 & [] & _ & Hrun).
  apply bind_inv_ok in Hrun as (db0' & s0 & Hget0 & Hrun).
  apply bind_inv_ok in Hrun as (db1 & s1 & Hrecover & Hrun).
  assert (Hs1 : catalog db1 = Ok s1).
  { destruct (String.eqb (SchemaStatus s0) StatusMigrating).
    - apply bind_inv_ok in Hrecover as (db2 & [] & _ & Hget).
      apply wrapping_inv_ok in Hget.
      assert (Hcat : catalog db2 = Ok s1) by (unfold catalog; by rewrite Hget).
      rewrite (GetSchemaVersion_reads _ _ Hcat) in Hget. by injection Hget as <-.
    - unfold ret in Hrecover. injection Hrecover as <- <-.
      apply wrapping_inv_ok in Hget0.
      assert (Hcat : catalog db0 = Ok s0) by (unfold catalog; by rewrite Hget0).
      rewrite (GetSchemaVersion_reads _ _ Hcat) in Hget0. by injection Hget0 as <-. }
  destruct (String.eqb_spec (SchemaStatus s1) StatusClean) as [Hclean|]; [|discriminate Hrun].
  cbn [negb] in Hrun.
  apply bind_inv_ok in Hrun as (db2 & plan & Hplan & Hrun).
  apply wrapping_inv_ok in Hplan.
  apply PlanUpgrade_inv_ok in Hplan as (s1' & Hs1' & -> & Htype & Hpending).
  assert (s1' = s1) as -> by congruence.
  pose proof (GetPendingMigrations_Permutation _ r _ _ Hr Hpending) as Hperm.
  destruct (plan_Migrations plan) as [|m0 ms] eqn:Hms.
  - unfold ret in Hrun. injection Hrun as <-. exists s1. split; [done|]. split; [done|].
    intros m Hm. apply Permutation_nil in Hperm.
    destruct (lookup_bool (AppliedMigrations s1) (ID m)) eqn:Happlied; [done|].
    assert (Hin : In m (collectPending r (AppliedMigrations s1))).
    { by apply In_collectPending. }
    by rewrite Hperm in Hin.
  - destruct (RunMigrations opts); [|discriminate Hrun]. cbn [negb] in Hrun.
    apply bind_inv_ok in Hrun as (db3 & [] & Hdisk & Hrun).
    assert (db3 = db1) as ->.
    { destruct (CheckDiskSpace opts).
      - destruct (checkMigrationDiskSpace h dbPath); [|discriminate Hdisk].
        by injection Hdisk as <-.
      - unfold ret in Hdisk. by injection Hdisk as <-. }
    apply wrapping_inv_ok in Hrun. unfold ExecutePlan in Hrun. rewrite Htype in Hrun.
    change (String.eqb ExecutionTypeUpgrade ExecutionTypeUpgrade) with true in Hrun.
    cbv iota in Hrun.
    assert (Hplan_pres : forall m, In m (plan_Migrations plan) ->
              preserves_catalog (Up m) /\ preserves_catalog (Validate m)).
    { intros m Hm. apply Hpres. rewrite Hms in Hm.
      eapply Permutation_in in Hm; [|exact Hperm]. by apply In_collectPending in Hm as [? _]. }
    apply executeUpgrade_inv_ok in Hrun as (s2 & Hs2 & Hcat); [|done|done].
    assert (s2 = s1) as -> by congruence.
    eexists. split; [exact Hcat|]. split.
    + rewrite after_all_status. by rewrite Hms.
    + intros m Hm. unfold lookup_bool. rewrite after_all_applied.
      destruct (existsb (String.eqb (ID m)) (map ID (plan_Migrations plan))) eqn:Hin; [done|].
      apply existsb_eqb_not_In in Hin. cbn [set_Status AppliedMigrations].
      destruct (lookup_bool (AppliedMigrations s1) (ID m)) eqn:Happlied; [done|].
      exfalso. apply Hin, in_map. rewrite Hms.
      eapply Permutation_in; [apply Permutation_sym, Hperm|]. by apply In_collectPending.
Qed.

Lemma startup_success_applies_all_witness :
  exists s',
    catalog (CheckAndRunStartupMigrations host_forward upgrade_registry "/data/db"
               migrate_options one_applied_db).1 = Ok s'
    /\ SchemaStatus s' = StatusClean
    /\ forall m, In m (GetMigrations upgrade_registry) ->
                 lookup_bool (AppliedMigrations s') (ID m) = true.
Proof.
  apply (startup_success_applies_all host_forward upgrade_registry "/data/db"
           migrate_options one_applied_db).
  - apply registry_of_registered.
  - intros m Hm. vm_compute in Hm. destruct Hm as [<-|[<-|[<-|[]]]];
      (split; [intros g [= <-] db; reflexivity|intros g [=]]).
  - vm_compute. reflexivity.
Defined.

(** X30.  Recovery of an interrupted rerunnable migration.  When the record
    is in status migrating and the first migration [PlanUpgrade] plans is
    rerunnable, [attemptMigrationRecovery] only resets the status to clean,
    and [CheckAndRunStartupMigrations] then goes on exactly as it does on the
    same store with a clean status: the interrupted migration is planned and
    run again like any pending one. *)
Theorem startup_recovers_rerunnable
    (h : Host) (r : MigrationRegistry) (dbPath : string) (opts : StartupOptions)
    (db : DB) (s : SchemaVersion) (plan : ExecutionPlan)
    (stuck : Migration) (rest : list Migration) :
  catalog db = Ok s ->
  SchemaStatus s = StatusMigrating ->
  (PlanUpgrade h r db).2 = Ok plan ->
  plan_Migrations plan = stuck :: rest ->
  Rerunnable stuck = true ->
  attemptMigrationRecovery h r opts db
  = (<[SchemaVersionKey := VSchema (set_Status s StatusClean)]> db, Ok tt)
  /\ CheckAndRunStartupMigrations h r dbPath opts db
     = CheckAndRunStartupMigrations h r dbPath opts
         (<[SchemaVersionKey := VSchema (set_Status s StatusClean)]> db).
Proof.
  intros Hs Hst Hplan Hms Hrr.
  assert (Hkey : db !! SchemaVersionKey = Some (VSchema s)).
  { apply catalog_not_clean_present; [done|]. by rewrite Hst. }
  assert (Hup : PlanUpgrade h r db = (db, Ok plan)).
  { by rewrite PlanUpgrade_reads, Hplan. }
  set (s1 := set_Status s StatusClean).
  set (db1 := <[SchemaVersionKey := VSchema s1]> db).
  assert (Hrec : attemptMigrationRecovery h r opts db = (db1, Ok tt)).
  { unfold attemptMigrationRecovery.
    rewrite (bind_ok _ _ _ _ _ (wrapping_ok _ _ _ _ _ (GetSchemaVersion_reads _ _ Hs))).
    rewrite (bind_ok _ _ _ _ _ (wrapping_ok _ _ _ _ _ Hup)).
    by rewrite Hms, Hrr. }
  split; [done|].
  assert (Hs1 : catalog db1 = Ok s1) by apply catalog_insert.
  assert (Hkey1 : db1 !! SchemaVersionKey = Some (VSchema s1)) by apply lookup_insert_eq.
  unfold CheckAndRunStartupMigrations.
  rewrite (bind_ok _ _ db db tt
             (wrapping_ok _ _ _ _ _ (InitializeFreshDatabase_present h r db _ Hkey))).
  rewrite (bind_ok _ _ db db s (wrapping_ok _ _ _ _ _ (GetSchemaVersion_reads _ _ Hs))).
  rewrite (bind_ok _ _ db1 db1 tt
             (wrapping_ok _ _ _ _ _ (InitializeFreshDatabase_present h r db1 _ Hkey1))).
  rewrite (bind_ok _ _ db1 db1 s1 (wrapping_ok _ _ _ _ _ (GetSchemaVersion_reads _ _ Hs1))).
  rewrite Hst.
  change (String.eqb StatusMigrating StatusMigrating) with true.
  change (String.eqb (SchemaStatus s1) StatusMigrating) with false. cbv iota.
  assert (Hinner : (attemptMigrationRecovery h r opts ;;;
                    wrapping (fun e => "failed to get schema version after recovery attempt: "
                                       +:+ e) GetSchemaVersion) db
                   = (db1, Ok s1)).
  { rewrite (bind_ok _ _ _ _ _ Hrec).
    by rewrite (wrapping_ok _ _ _ _ _ (GetSchemaVersion_reads _ _ Hs1)). }
  rewrite (bind_ok _ _ db db1 s1 Hinner).
  by rewrite (bind_ok (ret s1) _ db1 db1 s1 eq_refl).
Qed.

Lemma startup_recovers_rerunnable_witness :
  attemptMigrationRecovery host_forward rerunnable_registry migrate_options interrupted_db
  = (<[SchemaVersionKey :=
         VSchema (set_Status (set_Status zeroSchema StatusMigrating) StatusClean)]>
       interrupted_db, Ok tt)
  /\ CheckAndRunStartupMigrations host_forward rerunnable_registry "/data/db"
       migrate_options interrupted_db
     = CheckAndRunStartupMigrations host_forward rerunnable_registry "/data/db"
         migrate_options
         (<[SchemaVersionKey :=
              VSchema (set_Status (set_Status zeroSchema StatusMigrating) StatusClean)]>
            interrupted_db).
Proof.
  eapply (startup_recovers_rerunnable host_forward rerunnable_registry "/data/db"
            migrate_options interrupted_db (set_Status zeroSchema StatusMigrating) _ _ _).
  - reflexivity.
  - reflexivity.
  - vm_compute. reflexivity.
  - reflexivity.
  - reflexivity.
Defined.
